(** * APK analysis core: a shallow embedding and its properties

    The development follows the TypeScript sources of the analyzer:
    - [server/apk-analyzer.ts]  (class [APKAnalyzer]),
    - [server/apk-signer.ts]    (class [APKSigner]),
    - the upload route          (functions [POST] and [performAnalysis]),
    - the download-report route (function [GET]).

    JavaScript strings are modelled as lists of characters, numbers that
    only ever hold small integers as [Z], objects as records, string
    unions as inductive types, and code that throws or touches the file
    system as functions over an explicit state that return an [Outcome]. *)

From Stdlib Require Import Ascii String.
From Stdlib Require Import DecimalString NArith.
From Stdlib Require Import List ZArith Bool Lia Arith QArith.
From Stdlib Require Import Sorted.
Import ListNotations.
Open Scope Z_scope.

Arguments Ascii.eqb !a !b : simpl nomatch.

(** ** Strings *)

Definition text := list ascii.

Definition lit (s : string) : text := list_ascii_of_string s.

(** The double-quote character, code 34. *)
Definition dq : ascii := Eval cbv in ascii_of_nat 34.
(** The line-feed character, code 10. *)
Definition lf : ascii := Eval cbv in ascii_of_nat 10.

Definition text_eqb (a b : text) : bool :=
  if list_eq_dec ascii_dec a b then true else false.

(** [s.startsWith(p)] *)
Fixpoint starts_with (p s : text) : bool :=
  match p, s with
  | [], _ => true
  | _ :: _, [] => false
  | a :: p', b :: s' => Ascii.eqb a b && starts_with p' s'
  end.

(** [s.includes(p)] *)
Fixpoint includes (s p : text) : bool :=
  starts_with p s ||
  match s with
  | [] => false
  | _ :: s' => includes s' p
  end.

(** [s.endsWith(p)] *)
Definition ends_with (s p : text) : bool :=
  starts_with (rev p) (rev s).

(** The text before and after the first occurrence of [p] in [s]. *)
Fixpoint split_first (p s : text) : option (text * text) :=
  if starts_with p s then Some ([], skipn (length p) s)
  else match s with
       | [] => None
       | c :: s' =>
           match split_first p s' with
           | Some (before, after) => Some (c :: before, after)
           | None => None
           end
       end.

(** [s.replace(p, r)] for a string pattern [p] and a replacement without
    [$]: the first occurrence only. *)
Definition replace_first (p r s : text) : text :=
  match split_first p s with
  | Some (before, after) => before ++ r ++ after
  | None => s
  end.

(** [s.replace(/p/g, r)] for a literal pattern [p]: the matches are found
    from left to right, each search starting behind the previous match.
    The counter bounds the number of searches; [replace_all] starts it at
    the length of the text, which is never reached for a pattern that is
    not empty. *)
Fixpoint replace_all_from (searches : nat) (p r s : text) : text :=
  match searches with
  | O => s
  | S n =>
      match split_first p s with
      | Some (before, after) => before ++ r ++ replace_all_from n p r after
      | None => s
      end
  end.

Definition replace_all (p r s : text) : text :=
  replace_all_from (length s) p r s.

(** ** The data model of [shared/schema.ts] *)

Inductive Severity := critical | high | medium | low.

Definition Severity_eqb (a b : Severity) : bool :=
  match a, b with
  | critical, critical | high, high | medium, medium | low, low => true
  | _, _ => false
  end.

Record Vulnerability := mkVulnerability {
  id : text;
  title : text;
  description : text;
  severity : Severity;
  category : text;
  location : text;
  cvssScore : option Q;
  recommendation : option text
}.

(** The [status] union of [SecurityCheck]; the analyzer only ever writes
    the first three. *)
Module Status.
Inductive t := passed | warning | critical | secure | failed.
End Status.

Record SecurityCheck := mkSecurityCheck {
  status : Status.t;
  issueCount : Z;
  details : text;
  findings : list text;
  vulnerabilities : list Vulnerability;
  recommendations : list text;
  codeSnippets : list text
}.

(** ** Scoring ([performAnalysis], upload route) *)

Module Score.

(** [vulnerabilities.filter((v) => v.severity === s).length] *)
Definition countSeverity (s : Severity) (vs : list Vulnerability) : Z :=
  Z.of_nat (length (filter (fun v => Severity_eqb (severity v) s) vs)).

Definition criticalCount := countSeverity critical.
Definition highCount := countSeverity high.
Definition mediumCount := countSeverity medium.
Definition lowCount := countSeverity low.

(** The four subtractions followed by [Math.max(0, securityScore)]. *)
Definition securityScore (vs : list Vulnerability) : Z :=
  let s0 := 100 in
  let s1 := s0 - criticalCount vs * 25 in
  let s2 := s1 - highCount vs * 15 in
  let s3 := s2 - mediumCount vs * 8 in
  let s4 := s3 - lowCount vs * 3 in
  Z.max 0 s4.

Definition warningIssues (vs : list Vulnerability) : Z :=
  highCount vs + mediumCount vs + lowCount vs.

(** The score as the specification words it: a fixed weight per
    vulnerability, subtracted from 100, clamped to [0, 100]. *)
Definition weight (s : Severity) : Z :=
  match s with
  | critical => 25
  | high => 15
  | medium => 8
  | low => 3
  end.

Definition penalty (vs : list Vulnerability) : Z :=
  fold_right (fun v acc => weight (severity v) + acc) 0 vs.

Definition clamp (lo hi x : Z) : Z := Z.max lo (Z.min hi x).

Definition spec_score (vs : list Vulnerability) : Z :=
  clamp 0 100 (100 - penalty vs).

End Score.

(** ** Paths: the POSIX flavour of Node's [path] module *)

Module Path.

Definition slash : ascii := Eval cbv in ascii_of_nat 47.
Definition dot : text := Eval cbv in lit ".".
Definition dotdot : text := Eval cbv in lit "..".

(** The segments between the separators of a path:
    [path.split("/")]. *)
Fixpoint split (s : text) : list text :=
  match s with
  | [] => [[]]
  | c :: t =>
      if Ascii.eqb c slash then [] :: split t
      else match split t with
           | seg :: rest => (c :: seg) :: rest
           | [] => [[c]]
           end
  end.

(** [segs.join("/")] *)
Fixpoint unsplit (segs : list text) : text :=
  match segs with
  | [] => []
  | [s] => s
  | s :: rest => s ++ slash :: unsplit rest
  end.

(** [normalizeString]: the loop over the segments of the path.  [res]
    holds the segments kept so far, last one first. *)
Fixpoint normalizeSegs (allowAboveRoot : bool) (res : list text) (segs : list text)
  : list text :=
  match segs with
  | [] => rev res
  | seg :: rest =>
      if text_eqb seg [] || text_eqb seg dot then
        normalizeSegs allowAboveRoot res rest
      else if text_eqb seg dotdot then
        match res with
        | last :: res' =>
            if text_eqb last dotdot then
              (if allowAboveRoot
               then normalizeSegs allowAboveRoot (dotdot :: res) rest
               else normalizeSegs allowAboveRoot res rest)
            else normalizeSegs allowAboveRoot res' rest
        | [] =>
            if allowAboveRoot
            then normalizeSegs allowAboveRoot [dotdot] rest
            else normalizeSegs allowAboveRoot res rest
        end
      else normalizeSegs allowAboveRoot (seg :: res) rest
  end.

Definition normalizeString (path : text) (allowAboveRoot : bool) : text :=
  unsplit (normalizeSegs allowAboveRoot [] (split path)).

Definition isAbsolute (path : text) : bool :=
  match path with
  | c :: _ => Ascii.eqb c slash
  | [] => false
  end.

Definition trailingSeparator (path : text) : bool :=
  match rev path with
  | c :: _ => Ascii.eqb c slash
  | [] => false
  end.

(** [path.posix.normalize] *)
Definition normalize (path : text) : text :=
  match path with
  | [] => dot
  | _ =>
      let p := normalizeString path (negb (isAbsolute path)) in
      match p with
      | [] =>
          if isAbsolute path then [slash]
          else if trailingSeparator path then dot ++ [slash] else dot
      | _ =>
          let p' := if trailingSeparator path then p ++ [slash] else p in
          if isAbsolute path then slash :: p' else p'
      end
  end.

(** [path.posix.join(a, b)]: empty arguments are dropped, the others are
    glued with a separator and the result is normalized. *)
Definition join (a b : text) : text :=
  match a, b with
  | [], [] => dot
  | [], _ => normalize b
  | _, [] => normalize a
  | _, _ => normalize (a ++ slash :: b)
  end.

(** An absolute, normalized path from its segments. *)
Definition absolute (segs : list text) : text :=
  concat (map (fun s => slash :: s) segs).

(** A segment that [normalize] keeps as it is. *)
Definition properSegment (s : text) : bool :=
  negb (text_eqb s []) && negb (text_eqb s dot) && negb (text_eqb s dotdot)
  && negb (existsb (Ascii.eqb slash) s).

(** [p] names [root] itself or something below it: the test
    [p === root || p.startsWith(root + "/")]. *)
Definition inside (root p : text) : bool :=
  text_eqb p root || starts_with (root ++ [slash]) p.

End Path.

(** [path.posix.basename(p)] and [path.posix.dirname(p)] *)
Module PathParts.
Import Path.

Fixpoint dropSlashes (r : text) : text :=
  match r with
  | c :: r' => if Ascii.eqb c slash then dropSlashes r' else r
  | [] => []
  end.

Fixpoint takeName (r : text) : text :=
  match r with
  | c :: r' => if Ascii.eqb c slash then [] else c :: takeName r'
  | [] => []
  end.

Fixpoint dropName (r : text) : text :=
  match r with
  | c :: r' => if Ascii.eqb c slash then r else dropName r'
  | [] => []
  end.

Definition basename (p : text) : text :=
  rev (takeName (dropSlashes (rev p))).

(** The scan of [dirname] runs from the end down to index 1, so the first
    character is set apart. *)
Definition dirname (p : text) : text :=
  match p with
  | [] => dot
  | c0 :: rest =>
      let hasRoot := Ascii.eqb c0 slash in
      match dropName (dropSlashes (rev rest)) with
      | [] => if hasRoot then [slash] else dot
      | _ :: before =>
          match before with
          | [] => if hasRoot then [slash; slash] else [c0]
          | _ => c0 :: rev before
          end
      end
  end.

End PathParts.

(** [String(n)] for a non-negative integer *)
Definition decimal (n : N) : text := lit (NilZero.string_of_uint (N.to_uint n)).

(** ** The extraction directory as the file system shows it

    [readdirSync] lists the items of a directory in order, [statSync]
    tells files from directories, [readFile] yields a file's text. *)

#[warnings="-register-all"]
Inductive Node :=
| File (content : text)
| Dir (items : list (text * Node)).

Definition Tree := list (text * Node).

Fixpoint lookup (name : text) (t : Tree) : option Node :=
  match t with
  | [] => None
  | (n, x) :: t' => if text_eqb n name then Some x else lookup name t'
  end.

(** [strcmp(a, b) < 0] on the bytes of two names: the order in which
    [readdirSync] lists a directory. *)
Fixpoint text_ltb (a b : text) : bool :=
  match a, b with
  | _, [] => false
  | [], _ :: _ => true
  | x :: a', y :: b' =>
      (nat_of_ascii x <? nat_of_ascii y)%nat
      || (Ascii.eqb x y && text_ltb a' b')
  end.

(** A taken name keeps its place in the listing. *)
Fixpoint rebind (name : text) (x : Node) (t : Tree) : Tree :=
  match t with
  | [] => []
  | (n, y) :: t' =>
      if text_eqb n name then (n, x) :: t' else (n, y) :: rebind name x t'
  end.

(** A new name goes in front of the first name behind it in that order. *)
Fixpoint place (name : text) (x : Node) (t : Tree) : Tree :=
  match t with
  | [] => [(name, x)]
  | (n, y) :: t' =>
      if text_ltb name n then (name, x) :: (n, y) :: t'
      else (n, y) :: place name x t'
  end.

(** Bind [name] to [x]: in place when the name is taken, at its place in
    the sorted listing otherwise. *)
Definition bind (name : text) (x : Node) (t : Tree) : Tree :=
  match lookup name t with
  | Some _ => rebind name x t
  | None => place name x t
  end.

(** The node at the end of a path of segments below a tree. *)
Fixpoint nodeAt (segs : list text) (t : Tree) : option Node :=
  match segs with
  | [] => Some (Dir t)
  | name :: rest =>
      match lookup name t, rest with
      | Some x, [] => Some x
      | Some (Dir sub), _ => nodeAt rest sub
      | _, _ => None
      end
  end.

(** [fs.mkdirSync(dirname, { recursive: true })] followed by
    [fs.createWriteStream(path)] and the copy of the data, with [segs] the
    segments of the path below the tree.  With a file where a directory
    is needed [mkdirSync] throws, with a directory where the file should go
    the stream fails to open; both leave the tree as it was, since a
    directory is made only behind the last one that exists. *)
Fixpoint writeAt (segs : list text) (c : text) (t : Tree) : Tree :=
  match segs with
  | [] => t
  | [name] =>
      match lookup name t with
      | Some (Dir _) => t
      | _ => bind name (File c) t
      end
  | d :: rest =>
      match lookup d t with
      | Some (File _) => t
      | Some (Dir sub) => bind d (Dir (writeAt rest c sub)) t
      | None => bind d (Dir (writeAt rest c [])) t
      end
  end.

(** ** The analyzer ([server/apk-analyzer.ts]) *)

(** The fields of [AnalysisResult], in the order of the type. *)
Inductive Category :=
| reconnaissance | subdomainEnumeration | portScanning | directoryEnumeration
| vulnerabilityScanning | manualTesting | authenticationTesting
| sessionManagement | inputValidation | sqlInjection | xss | csrf | ssrf
| idor | rce | fileInclusion | clickjacking | rateLimiting | accessControl
| businessLogic | apiTesting | mobileAppTesting | clientSideVulns
| informationDisclosure | serverSideVulns.

Definition Category_eq_dec (a b : Category) : {a = b} + {a <> b}.
Proof. decide equality. Defined.

(** An [AnalysisResult] object: one [SecurityCheck] per field. *)
Definition AnalysisResult := Category -> SecurityCheck.

(** [results.c = r] *)
Definition assign (c : Category) (r : SecurityCheck) (results : AnalysisResult)
  : AnalysisResult :=
  fun c' => if Category_eq_dec c c' then r else results c'.

Definition emptySecurityCheck : SecurityCheck :=
  {| status := Status.passed;
     issueCount := 0;
     details := [];
     findings := [];
     vulnerabilities := [];
     recommendations := [];
     codeSnippets := [] |}.

Definition initializeAnalysisResults : AnalysisResult :=
  fun _ => emptySecurityCheck.

Definition manifestName : text := Eval cbv in lit "AndroidManifest.xml".

(** The four arrays a detector fills side by side. *)
Record Found := mkFound {
  f_findings : list text;
  f_vulnerabilities : list Vulnerability;
  f_recommendations : list text;
  f_codeSnippets : list text
}.

Definition nothingFound : Found := mkFound [] [] [] [].

(** One round of [findings.push], [vulnerabilities.push],
    [recommendations.push], [codeSnippets.push]. *)
Definition push (finding : text) (v : Vulnerability) (rec snippet : text)
  (acc : Found) : Found :=
  {| f_findings := f_findings acc ++ [finding];
     f_vulnerabilities := f_vulnerabilities acc ++ [v];
     f_recommendations := f_recommendations acc ++ [rec];
     f_codeSnippets := f_codeSnippets acc ++ [snippet] |}.

(** The [status] expression both detectors use. *)
Definition statusOf (vs : list Vulnerability) : Status.t :=
  if (0 <? Z.of_nat (length vs))%Z then
    if existsb (fun v => Severity_eqb (severity v) high
                         || Severity_eqb (severity v) critical) vs
    then Status.critical
    else Status.warning
  else Status.passed.

(** The object literal assigned to the category field. *)
Definition checkOf (noun : text) (acc : Found) : SecurityCheck :=
  {| status := statusOf (f_vulnerabilities acc);
     issueCount := Z.of_nat (length (f_vulnerabilities acc));
     details :=
       lit "Found " ++ decimal (N.of_nat (length (f_vulnerabilities acc)))
       ++ lit " " ++ noun;
     findings := f_findings acc;
     vulnerabilities := f_vulnerabilities acc;
     recommendations := f_recommendations acc;
     codeSnippets := f_codeSnippets acc |}.

Module Recon.

Definition debuggableTrue : text :=
  Eval cbv in lit "android:debuggable=" ++ dq :: lit "true" ++ [dq].
Definition allowBackupTrue : text :=
  Eval cbv in lit "android:allowBackup=" ++ dq :: lit "true" ++ [dq].
Definition exportedTrue : text :=
  Eval cbv in lit "android:exported=" ++ dq :: lit "true" ++ [dq].
Definition permissionAttr : text := Eval cbv in lit "android:permission=".

Definition recon001 : Vulnerability :=
  {| id := lit "recon-001";
     title := lit "Debug Mode Enabled";
     description :=
       lit "Application has debug mode enabled which can expose sensitive information";
     severity := medium;
     category := lit "Information Disclosure";
     location := manifestName;
     cvssScore := Some (53 # 10)%Q;
     recommendation := Some (lit "Disable debug mode in production builds") |}.

Definition recon002 : Vulnerability :=
  {| id := lit "recon-002";
     title := lit "Backup Allowed";
     description := lit "Application allows backup which may expose sensitive data";
     severity := low;
     category := lit "Data Protection";
     location := manifestName;
     cvssScore := Some (31 # 10)%Q;
     recommendation := Some (lit "Disable backup for sensitive applications") |}.

Definition recon003 : Vulnerability :=
  {| id := lit "recon-003";
     title := lit "Exported Components Without Protection";
     description := lit "Components are exported without proper permission checks";
     severity := high;
     category := lit "Access Control";
     location := manifestName;
     cvssScore := Some (75 # 10)%Q;
     recommendation := Some (lit "Add permission requirements to exported components") |}.

Definition checkDebuggable (content : text) (acc : Found) : Found :=
  if includes content debuggableTrue then
    push (lit "Debug mode enabled in production") recon001
      (lit "Set android:debuggable=" ++ dq :: lit "false" ++ dq :: lit " in production builds")
      debuggableTrue acc
  else acc.

Definition checkAllowBackup (content : text) (acc : Found) : Found :=
  if includes content allowBackupTrue then
    push (lit "Backup allowed for sensitive data") recon002
      (lit "Set android:allowBackup=" ++ dq :: lit "false" ++ dq
         :: lit " for sensitive applications")
      allowBackupTrue acc
  else acc.

Definition checkExported (content : text) (acc : Found) : Found :=
  if includes content exportedTrue && negb (includes content permissionAttr) then
    push (lit "Exported components without proper permissions") recon003
      (lit "Add android:permission to all exported components")
      (exportedTrue ++ lit " without permission") acc
  else acc.

(** The three checks on the text of the manifest, in order. *)
Definition scanManifest (content : text) : Found :=
  checkExported content (checkAllowBackup content (checkDebuggable content nothingFound)).

(** The [try] block: the checks run when the manifest exists and can be
    read; a directory of that name makes [readFile] throw, which the
    [catch] swallows before anything was pushed. *)
Definition scan (scratch : option Tree) : Found :=
  match scratch with
  | None => nothingFound
  | Some t =>
      match lookup manifestName t with
      | Some (File content) => scanManifest content
      | Some (Dir _) => nothingFound
      | None => nothingFound
      end
  end.

End Recon.

(** [findFiles(dir, extensions)]: the files below [dir] whose name ends in
    one of the extensions, depth first in directory order, each with its
    full path and its text. *)
Fixpoint findFilesAt (extensions : list text) (fullPath item : text) (node : Node)
  : list (text * text) :=
  match node with
  | Dir sub =>
      (fix traverse (items : list (text * Node)) : list (text * text) :=
         match items with
         | [] => []
         | (i, n) :: rest =>
             findFilesAt extensions (Path.join fullPath i) i n ++ traverse rest
         end) sub
  | File content =>
      if existsb (fun ext => ends_with item ext) extensions
      then [(fullPath, content)]
      else []
  end.

(** The body of [traverse(currentDir)] over the items of [currentDir]. *)
Fixpoint findFilesIn (extensions : list text) (currentDir : text)
  (items : list (text * Node)) : list (text * text) :=
  match items with
  | [] => []
  | (item, node) :: rest =>
      findFilesAt extensions (Path.join currentDir item) item node
      ++ findFilesIn extensions currentDir rest
  end.

Definition findFiles (scratch : option Tree) (dir : text) (extensions : list text)
  : list (text * text) :=
  match scratch with
  | None => []
  | Some t => findFilesIn extensions dir t
  end.

Module XSS.

Definition xss001 (file : text) : Vulnerability :=
  {| id := lit "xss-001";
     title := lit "Unsafe WebView JavaScript Configuration";
     description :=
       lit "WebView has JavaScript enabled without proper JavascriptInterface protection";
     severity := high;
     category := lit "Cross-Site Scripting";
     location := file;
     cvssScore := Some (75 # 10)%Q;
     recommendation :=
       Some (lit "Implement proper JavascriptInterface annotations and input validation") |}.

Definition xss002 (file : text) : Vulnerability :=
  {| id := lit "xss-002";
     title := lit "Unsafe URL Loading";
     description := lit "WebView loads URLs without proper validation";
     severity := medium;
     category := lit "Cross-Site Scripting";
     location := file;
     cvssScore := Some (61 # 10)%Q;
     recommendation := Some (lit "Validate URLs before loading and use HTTPS only") |}.

Definition xss003 (file : text) : Vulnerability :=
  {| id := lit "xss-003";
     title := lit "DOM-based XSS Risk";
     description := lit "Code uses innerHTML or document.write which can lead to XSS";
     severity := high;
     category := lit "Cross-Site Scripting";
     location := file;
     cvssScore := Some (82 # 10)%Q;
     recommendation := Some (lit "Use safe DOM manipulation methods and sanitize input") |}.

Definition startsWithHttps : text :=
  Eval cbv in lit "startsWith(" ++ dq :: lit "https://" ++ dq :: lit ")".

Definition checkJavaScript (file content : text) (acc : Found) : Found :=
  if includes content (lit "setJavaScriptEnabled(true)") then
    if negb (includes content (lit "addJavascriptInterface"))
       || negb (includes content (lit "@JavascriptInterface"))
    then
      push (lit "JavaScript enabled without proper interface protection in "
              ++ PathParts.basename file)
        (xss001 file)
        (lit "Use @JavascriptInterface annotation and validate all JavaScript interactions")
        (lit "setJavaScriptEnabled(true)") acc
    else acc
  else acc.

Definition checkLoadUrl (file content : text) (acc : Found) : Found :=
  if includes content (lit "loadUrl(") && negb (includes content startsWithHttps) then
    push (lit "Potentially unsafe URL loading in " ++ PathParts.basename file)
      (xss002 file)
      (lit "Validate all URLs and enforce HTTPS")
      (lit "loadUrl(userInput)") acc
  else acc.

Definition checkDom (file content : text) (acc : Found) : Found :=
  if includes content (lit "innerHTML") || includes content (lit "document.write") then
    push (lit "Potential DOM-based XSS in " ++ PathParts.basename file)
      (xss003 file)
      (lit "Use textContent instead of innerHTML and sanitize all user input")
      (lit "element.innerHTML = userInput") acc
  else acc.

Definition scanFile (acc : Found) (f : text * text) : Found :=
  let (file, content) := f in
  checkDom file content (checkLoadUrl file content (checkJavaScript file content acc)).

Definition extensions : list text :=
  [lit ".java"; lit ".kt"; lit ".js"; lit ".html"].

Definition scan (scratch : option Tree) (extractedPath : text) : Found :=
  fold_left scanFile (findFiles scratch extractedPath extensions) nothingFound.

End XSS.

(** What an archive holds, and what the archive reader hands over: the
    entries in order, each a name and its data. *)
Definition Archive := list (text * text).

(** The files outside the extraction directory that the analyzer and the
    signer make and read, by path. *)
Definition Files := text -> option Archive.

Definition writeFile (p : text) (c : Archive) (fs : Files) : Files :=
  fun q => if text_eqb q p then Some c else fs q.

Definition removeFile (p : text) (fs : Files) : Files :=
  fun q => if text_eqb q p then None else fs q.

Definition isFile (fs : Files) (p : text) : bool :=
  match fs p with Some _ => true | None => false end.

(** The analyzer object and the part of the world it acts on. *)
Record State := mkState {
  apkPath : text;
  extractedPath : text;
  analysisResults : AnalysisResult;
  allVulnerabilities : list Vulnerability;  (* [this.vulnerabilities] *)
  scratch : option Tree;            (* the directory at [extractedPath], if any *)
  outside : list (text * text);     (* files extraction wrote anywhere else *)
  files : Files                     (* the archives made from it *)
}.

Definition withResults (st : State) (r : AnalysisResult) (vs : list Vulnerability)
  : State :=
  {| apkPath := apkPath st;
     extractedPath := extractedPath st;
     analysisResults := r;
     allVulnerabilities := vs;
     scratch := scratch st;
     outside := outside st;
     files := files st |}.

Definition withFiles (st : State) (t : option Tree) (out : list (text * text))
  : State :=
  {| apkPath := apkPath st;
     extractedPath := extractedPath st;
     analysisResults := analysisResults st;
     allVulnerabilities := allVulnerabilities st;
     scratch := t;
     outside := out;
     files := files st |}.

Definition withArchives (st : State) (fs : Files) : State :=
  {| apkPath := apkPath st;
     extractedPath := extractedPath st;
     analysisResults := analysisResults st;
     allVulnerabilities := allVulnerabilities st;
     scratch := scratch st;
     outside := outside st;
     files := fs |}.

(** The last two statements of a detector with findings: the assignment
    to its field and [this.vulnerabilities.push(...vulnerabilities)]. *)
Definition store (c : Category) (r : SecurityCheck) (st : State) : State :=
  withResults st (assign c r (analysisResults st))
    (allVulnerabilities st ++ vulnerabilities r).

Definition analyzeReconnaissance (st : State) : State :=
  store reconnaissance
    (checkOf (lit "reconnaissance issues") (Recon.scan (scratch st))) st.

Definition analyzeXSS (st : State) : State :=
  store xss
    (checkOf (lit "XSS vulnerabilities") (XSS.scan (scratch st) (extractedPath st))) st.

(** The remaining detectors assign a fixed record. *)
Definition fixedCheck (d : string) : SecurityCheck :=
  {| status := Status.passed;
     issueCount := 0;
     details := lit d;
     findings := [];
     vulnerabilities := [];
     recommendations := [];
     codeSnippets := [] |}.

Definition assignFixed (c : Category) (d : string) (st : State) : State :=
  withResults st (assign c (fixedCheck d) (analysisResults st)) (allVulnerabilities st).

Definition analyzeCSRF := assignFixed csrf "CSRF analysis completed".
Definition analyzeSSRF := assignFixed ssrf "SSRF analysis completed".
Definition analyzeIDOR := assignFixed idor "IDOR analysis completed".
Definition analyzeRCE := assignFixed rce "RCE analysis completed".
Definition analyzeAccessControl :=
  assignFixed accessControl "Access control analysis completed".
Definition analyzeInputValidation :=
  assignFixed inputValidation "Input validation analysis completed".
Definition analyzeSQLInjection :=
  assignFixed sqlInjection "SQL injection analysis completed".
Definition analyzeSessionManagement :=
  assignFixed sessionManagement "Session management analysis completed".
Definition analyzeAuthenticationTesting :=
  assignFixed authenticationTesting "Authentication testing completed".
Definition analyzeFileInclusion :=
  assignFixed fileInclusion "File inclusion analysis completed".
Definition analyzeClickjacking :=
  assignFixed clickjacking "Clickjacking analysis completed".
Definition analyzeRateLimiting :=
  assignFixed rateLimiting "Rate limiting analysis completed".
Definition analyzeBusinessLogic :=
  assignFixed businessLogic "Business logic analysis completed".
Definition analyzeAPITesting := assignFixed apiTesting "API testing completed".
Definition analyzeMobileAppSecurity :=
  assignFixed mobileAppTesting "Mobile app security analysis completed".
Definition analyzeClientSideVulns :=
  assignFixed clientSideVulns "Client-side vulnerability analysis completed".
Definition analyzeInformationDisclosure :=
  assignFixed informationDisclosure "Information disclosure analysis completed".
Definition analyzeServerSideVulns :=
  assignFixed serverSideVulns "Server-side vulnerability analysis completed".
Definition analyzeVulnerabilityScanning :=
  assignFixed vulnerabilityScanning "Vulnerability scanning completed".
Definition analyzeSubdomainEnumeration :=
  assignFixed subdomainEnumeration "Subdomain enumeration completed".
Definition analyzePortScanning := assignFixed portScanning "Port scanning completed".
Definition analyzeDirectoryEnumeration :=
  assignFixed directoryEnumeration "Directory enumeration completed".
Definition analyzeManualTesting :=
  assignFixed manualTesting "Manual testing guidelines provided".

(** The list [analyses] of [runSecurityAnalyses], in its order.  Each
    method comes with the field of [analysisResults] it assigns. *)
Definition analyses : list (Category * (State -> State)) :=
  [ (reconnaissance, analyzeReconnaissance);
    (xss, analyzeXSS);
    (csrf, analyzeCSRF);
    (ssrf, analyzeSSRF);
    (idor, analyzeIDOR);
    (rce, analyzeRCE);
    (accessControl, analyzeAccessControl);
    (inputValidation, analyzeInputValidation);
    (sqlInjection, analyzeSQLInjection);
    (sessionManagement, analyzeSessionManagement);
    (authenticationTesting, analyzeAuthenticationTesting);
    (fileInclusion, analyzeFileInclusion);
    (clickjacking, analyzeClickjacking);
    (rateLimiting, analyzeRateLimiting);
    (businessLogic, analyzeBusinessLogic);
    (apiTesting, analyzeAPITesting);
    (mobileAppTesting, analyzeMobileAppSecurity);
    (clientSideVulns, analyzeClientSideVulns);
    (informationDisclosure, analyzeInformationDisclosure);
    (serverSideVulns, analyzeServerSideVulns);
    (vulnerabilityScanning, analyzeVulnerabilityScanning);
    (subdomainEnumeration, analyzeSubdomainEnumeration);
    (portScanning, analyzePortScanning);
    (directoryEnumeration, analyzeDirectoryEnumeration);
    (manualTesting, analyzeManualTesting) ].

(** ** Code that throws and changes state

    A computation takes the state it runs in and gives back what it
    returned or threw together with the state it left behind: what a
    function did before it threw stays done. *)

Inductive Outcome (A : Type) :=
| Returned (a : A)
| Thrown (error : text).

Arguments Returned {A} a.
Arguments Thrown {A} error.

Definition Eff (S A : Type) : Type := S -> Outcome A * S.

Definition pure {S A : Type} (a : A) : Eff S A := fun s => (Returned a, s).

Definition throw {S A : Type} (error : text) : Eff S A := fun s => (Thrown error, s).

Definition andThen {S A B : Type} (m : Eff S A) (k : A -> Eff S B) : Eff S B :=
  fun s =>
    match m s with
    | (Returned a, s') => k a s'
    | (Thrown e, s') => (Thrown e, s')
    end.

(** [try { body } catch (error) { handler }] *)
Definition tryCatch {S A : Type} (body : Eff S A) (handler : text -> Eff S A)
  : Eff S A :=
  fun s =>
    match body s with
    | (Returned a, s') => (Returned a, s')
    | (Thrown e, s') => handler e s'
    end.

Definition getState {S : Type} : Eff S S := fun s => (Returned s, s).

Definition update {S : Type} (f : S -> S) : Eff S unit := fun s => (Returned tt, f s).

Declare Scope eff_scope.
Delimit Scope eff_scope with eff.
Notation "x <- m ;; k" := (andThen m (fun x => k))
  (at level 61, m at next level, right associativity) : eff_scope.
Notation "m ;; k" := (andThen m (fun _ => k))
  (at level 61, right associativity) : eff_scope.

(** ** Extraction ([extractAPK]) *)

(** [/\/$/.test(entry.fileName)] *)
Definition isDirectoryEntry (fileName : text) : bool :=
  ends_with fileName [Path.slash].

(** [path.join(this.extractedPath, entry.fileName)] *)
Definition outputPath (extractedPath fileName : text) : text :=
  Path.join extractedPath fileName.

(** The handler of the [entry] event for one entry of the archive: a
    directory entry is skipped; a file entry is written at its output
    path, below the extraction directory or wherever else that path
    lies.  A write that cannot be made leaves everything as it was. *)
Definition onEntry (root : text) (files : Tree * list (text * text))
  (entry : text * text) : Tree * list (text * text) :=
  let (fileName, data) := entry in
  let (tree, elsewhere) := files in
  if isDirectoryEntry fileName then files
  else
    let p := outputPath root fileName in
    if text_eqb p root then files
    else if starts_with (root ++ [Path.slash]) p then
      (writeAt (Path.split (skipn (length root + 1) p)) data tree, elsewhere)
    else (tree, elsewhere ++ [(p, data)]).

(** The write stream of a file entry fails to open when its path is that
    of a directory: the extraction directory itself or one below it.  The
    stream then emits [error] and [close], and each of the two handlers
    calls [readEntry]. *)
Definition streamFails (root : text) (tree : Tree) (fileName : text) : bool :=
  negb (isDirectoryEntry fileName)
  && let p := outputPath root fileName in
     if text_eqb p root then true
     else if starts_with (root ++ [Path.slash]) p then
       match nodeAt (Path.split (skipn (length root + 1) p)) tree with
       | Some (Dir _) => true
       | _ => false
       end
     else false.

(** What the archive reader (yauzl with its default options) does with
    the name of an entry before it emits the entry: backslashes become
    slashes, and a name that starts with a drive letter or a slash, or
    that has a [..] segment, makes the reader emit [error] instead. *)
Definition backslash : ascii := Eval cbv in ascii_of_nat 92.
Definition colon : ascii := Eval cbv in ascii_of_nat 58.

Definition unixName (fileName : text) : text :=
  map (fun c => if Ascii.eqb c backslash then Path.slash else c) fileName.

Definition isLetter (c : ascii) : bool :=
  let n := nat_of_ascii c in
  ((65 <=? n) && (n <=? 90) || (97 <=? n) && (n <=? 122))%nat.

Definition hasDrive (fileName : text) : bool :=
  match fileName with
  | c :: d :: _ => isLetter c && Ascii.eqb d colon
  | _ => false
  end.

Definition validFileName (fileName : text) : bool :=
  negb (hasDrive fileName)
  && negb (Path.isAbsolute fileName)
  && negb (existsb (text_eqb Path.dotdot) (Path.split fileName)).

(** The entries the reader emits once [readEntry] was called twice with
    entries left to read.  Both calls read at the same place, so what
    follows depends on the bytes of the archive: [delivered] are the
    entries emitted from then on, whatever they are, and [ends] tells
    whether the reader then emits [end] or [error].  Every name is
    checked as before. *)
Fixpoint deliver (root : text) (delivered : Archive) (ends : bool)
  (files : Tree * list (text * text))
  : Outcome unit * (Tree * list (text * text)) :=
  match delivered with
  | [] => (if ends then Returned tt else Thrown (lit "reader error"), files)
  | entry :: rest =>
      let fileName := unixName (fst entry) in
      if validFileName fileName
      then deliver root rest ends (onEntry root files (fileName, snd entry))
      else (Thrown (lit "invalid file name"), files)
  end.

(** The loop that [readEntry] and the [entry] handler make over the
    entries of the archive.  After the last entry the reader emits [end]
    and the promise resolves; a name the reader refuses rejects it. *)
Fixpoint readEntries (garbled : Archive -> Archive * bool) (root : text)
  (entries : Archive) (files : Tree * list (text * text))
  : Outcome unit * (Tree * list (text * text)) :=
  match entries with
  | [] => (Returned tt, files)
  | entry :: rest =>
      let fileName := unixName (fst entry) in
      if validFileName fileName then
        if streamFails root (fst files) fileName then
          match rest with
          | [] => (Returned tt, files)
          | _ => let (delivered, ends) := garbled rest in
                 deliver root delivered ends files
          end
        else readEntries garbled root rest (onEntry root files (fileName, snd entry))
      else (Thrown (lit "invalid file name"), files)
  end.

(** [opened] holds the entries of the archive in the order of its
    directory, or nothing when the archive cannot be opened. *)
Definition extractAPK (garbled : Archive -> Archive * bool)
  (opened : option Archive) : Eff State unit :=
  fun st =>
    match opened with
    | None => (Thrown (lit "cannot open archive"), st)
    | Some entries =>
        let tree := match scratch st with Some t => t | None => [] end in
        let (result, files) :=
          readEntries garbled (extractedPath st) entries (tree, outside st) in
        (result, withFiles st (Some (fst files)) (snd files))
    end.

(** ** Cleanup ([cleanup], [removeDirectory]) *)

(** What is left of a node once [removeDirectory] (for a directory) or
    [unlinkSync] (for a file) went over it: nothing when it is gone. *)
Fixpoint removeNode (node : Node) : option Node :=
  match node with
  | File _ => None
  | Dir items =>
      let remaining :=
        (fix each (items : list (text * Node)) : list (text * Node) :=
           match items with
           | [] => []
           | (name, x) :: rest =>
               match removeNode x with
               | None => each rest
               | Some x' => (name, x') :: each rest
               end
           end) items in
      match remaining with
      | [] => None
      | _ => Some (Dir remaining)
      end
  end.

Definition removeDirectory (t : Tree) : option Tree :=
  match removeNode (Dir t) with
  | Some (Dir remaining) => Some remaining
  | _ => None
  end.

Definition cleanup : Eff State unit :=
  fun st =>
    match scratch st with
    | Some t => (Returned tt, withFiles st (removeDirectory t) (outside st))
    | None => (Returned tt, st)
    end.

(** Induction over a tree, items included. *)
Section NodeInduction.
Variable P : Node -> Prop.
Hypothesis P_File : forall content, P (File content).
Hypothesis P_Dir : forall items, Forall (fun nx => P (snd nx)) items -> P (Dir items).

Fixpoint Node_nested_ind (node : Node) : P node :=
  match node with
  | File content => P_File content
  | Dir items =>
      P_Dir items
        ((fix each (l : list (text * Node)) : Forall (fun nx => P (snd nx)) l :=
            match l with
            | [] => Forall_nil _
            | nx :: rest => Forall_cons nx (Node_nested_ind (snd nx)) (each rest)
            end) items)
  end.
End NodeInduction.


(** ** Repackaging ([generateDevModeAPK] and its helpers) *)

Module Manifest.

Definition applicationOpen : text := Eval cbv in lit "<application".
Definition gt : ascii := Eval cbv in ascii_of_nat 62.
Definition closeManifest : text := Eval cbv in lit "</manifest>".

Definition debuggableAttr : text := Eval cbv in lit "android:debuggable=".
Definition allowBackupAttr : text := Eval cbv in lit "android:allowBackup=".
Definition networkSecurityConfigAttr : text :=
  Eval cbv in lit "android:networkSecurityConfig=".

Definition quoted (s : text) : text := dq :: s ++ [dq].

Definition debuggableFalse : text := Eval cbv in debuggableAttr ++ quoted (lit "false").
Definition debuggableTrue : text := Eval cbv in debuggableAttr ++ quoted (lit "true").
Definition allowBackupFalse : text := Eval cbv in allowBackupAttr ++ quoted (lit "false").
Definition allowBackupTrue : text := Eval cbv in allowBackupAttr ++ quoted (lit "true").
Definition networkSecurityConfigRef : text :=
  Eval cbv in networkSecurityConfigAttr ++ quoted (lit "@xml/network_security_config").

(** The first match of the regular expression of the three [replace]
    calls, which reads: the text [<application], a group of any number of
    characters other than [>], and a [>].  The result is the text before
    the match, the group and the text after the match.  The search finds
    the first [<application]; the group then runs up to the next [>], and
    without one neither this nor any later start can match. *)
Definition matchApplicationTag (s : text) : option (text * text * text) :=
  match split_first applicationOpen s with
  | None => None
  | Some (before, rest) =>
      match split_first [gt] rest with
      | None => None
      | Some (group, after) => Some (before, group, after)
      end
  end.

(** [s.replace(re, '<application$1 attr>')] with that expression. *)
Definition addApplicationAttribute (attr : text) (s : text) : text :=
  match matchApplicationTag s with
  | None => s
  | Some (before, group, after) =>
      before ++ applicationOpen ++ group ++ lit " " ++ attr ++ gt :: after
  end.

Definition testPermissions : list text :=
  Eval cbv in
  [ lit "android.permission.WRITE_EXTERNAL_STORAGE";
    lit "android.permission.READ_EXTERNAL_STORAGE";
    lit "android.permission.INTERNET";
    lit "android.permission.ACCESS_NETWORK_STATE";
    lit "android.permission.ACCESS_WIFI_STATE";
    lit "com.android.vending.BILLING" ].

(** The line put in front of [</manifest>] for one permission. *)
Definition usesPermission (permission : text) : text :=
  lit "    <uses-permission android:name=" ++ quoted permission ++ lit " />" ++ [lf].

(** The body of the [forEach] over the test permissions. *)
Definition addPermission (modifiedManifest permission : text) : text :=
  if negb (includes modifiedManifest permission) then
    replace_first closeManifest (usesPermission permission ++ closeManifest)
      modifiedManifest
  else modifiedManifest.

Definition enableDebuggable (m : text) : text :=
  if negb (includes m debuggableAttr) then addApplicationAttribute debuggableTrue m
  else replace_all debuggableFalse debuggableTrue m.

Definition enableAllowBackup (m : text) : text :=
  if negb (includes m allowBackupAttr) then addApplicationAttribute allowBackupTrue m
  else replace_all allowBackupFalse allowBackupTrue m.

Definition enableNetworkSecurityConfig (m : text) : text :=
  if negb (includes m networkSecurityConfigAttr)
  then addApplicationAttribute networkSecurityConfigRef m
  else m.

Definition enhanceManifestForDevMode (manifestContent : text) : text :=
  let m1 := enableDebuggable manifestContent in
  let m2 := enableAllowBackup m1 in
  let m3 := enableNetworkSecurityConfig m2 in
  fold_left addPermission testPermissions m3.

End Manifest.

(** A string literal in which every apostrophe stands for a double
    quote. *)
Definition litq (s : string) : text :=
  map (fun c => if Ascii.eqb c (ascii_of_nat 39) then dq else c) (lit s).

(** The lines of a template literal. *)
Fixpoint lines (ls : list text) : text :=
  match ls with
  | [] => []
  | [l] => l
  | l :: rest => l ++ lf :: lines rest
  end.

Definition networkSecurityConfigName : text :=
  Eval cbv in lit "res/xml/network_security_config.xml".

Definition createNetworkSecurityConfig : text :=
  lines
    [ litq "<?xml version='1.0' encoding='utf-8'?>";
      litq "<network-security-config>";
      litq "    <domain-config cleartextTrafficPermitted='true'>";
      litq "        <domain includeSubdomains='true'>localhost</domain>";
      litq "        <domain includeSubdomains='true'>10.0.2.2</domain>";
      litq "        <domain includeSubdomains='true'>127.0.0.1</domain>";
      litq "    </domain-config>";
      litq "    <debug-overrides>";
      litq "        <trust-anchors>";
      litq "            <certificates src='user'/>";
      litq "            <certificates src='system'/>";
      litq "        </trust-anchors>";
      litq "    </debug-overrides>";
      litq "</network-security-config>" ].

(** The test of [addRemainingFiles] on the name of a file. *)
Definition passedThrough (item : text) : bool :=
  negb (ends_with item (lit ".java"))
  && negb (ends_with item (lit ".kt"))
  && negb (ends_with item (lit ".smali"))
  && negb (text_eqb item manifestName).

(** [archivePath ? path.join(archivePath, item) : item] *)
Definition archiveItemPath (archivePath item : text) : text :=
  match archivePath with
  | [] => item
  | _ => Path.join archivePath item
  end.

(** What [addDirectory] adds for one item that sits at [itemPath] in the
    archive. *)
Fixpoint addItem (itemPath item : text) (node : Node) : Archive :=
  match node with
  | Dir sub =>
      (fix addDirectory (items : list (text * Node)) : Archive :=
         match items with
         | [] => []
         | (i, n) :: rest =>
             addItem (archiveItemPath itemPath i) i n ++ addDirectory rest
         end) sub
  | File content =>
      if passedThrough item then [(itemPath, content)] else []
  end.

(** [addDirectory(dirPath, archivePath)] over the items of [dirPath]. *)
Fixpoint addDirectory (archivePath : text) (items : list (text * Node)) : Archive :=
  match items with
  | [] => []
  | (item, node) :: rest =>
      addItem (archiveItemPath archivePath item) item node
      ++ addDirectory archivePath rest
  end.

(** [addRemainingFiles(archive)]: the entries it appends. *)
Definition addRemainingFiles (scratch : option Tree) : Archive :=
  match scratch with
  | None => []
  | Some t => addDirectory [] t
  end.

Section Repackaging.

(** The text transforms [processSourceFilesForDevMode] applies to a
    source file, composed. *)
Variable devModeSource : text -> text.

Definition sourceExtensions : list text :=
  [lit ".java"; lit ".kt"; lit ".smali"].

(** [path.relative(extractedPath, file)] for a file found below
    [extractedPath]. *)
Definition relativeBelow (extractedPath file : text) : text :=
  skipn (length extractedPath + 1) file.

Definition processSourceFilesForDevMode (scratch : option Tree)
  (extractedPath : text) : Archive :=
  map (fun f => (relativeBelow extractedPath (fst f), devModeSource (snd f)))
    (findFiles scratch extractedPath sourceExtensions).

(** What the run finds outside the program: the clock, whether the
    output directory can be made, and whether the archive stream
    breaks. *)
Record Repackager := {
  repackagedAt : N;
  outputDirFails : bool;
  archiveFails : bool
}.

Definition fixedApkPathAt (now : N) (apkPath : text) : text :=
  Path.join (lit "fixed_apks")
    (lit "dev_mode_" ++ decimal now ++ lit "_" ++ PathParts.basename apkPath).

(** The entries appended to the archive, or nothing when reading the
    manifest fails. *)
Definition devModeEntries (scratch : option Tree) (extractedPath : text)
  : option Archive :=
  match match scratch with Some t => lookup manifestName t | None => None end with
  | Some (File manifestContent) =>
      Some ([ (manifestName, Manifest.enhanceManifestForDevMode manifestContent);
              (networkSecurityConfigName, createNetworkSecurityConfig) ]
            ++ processSourceFilesForDevMode scratch extractedPath
            ++ addRemainingFiles scratch)
  | Some (Dir _) => None
  | None => Some (addRemainingFiles scratch)
  end.

(** [generateDevModeAPK]: [null] when the set-up throws, a rejection
    when reading the manifest or writing the archive fails, the path of
    the new archive otherwise.  The output stream is opened before the
    manifest is read, so a rejected run leaves a file at the output path
    into which no entry was written. *)
Definition generateDevModeAPK (env : Repackager) : Eff State (option text) :=
  fun st =>
    if outputDirFails env then (Returned None, st)
    else
      let fixedApkPath := fixedApkPathAt (repackagedAt env) (apkPath st) in
      let opened := withArchives st (writeFile fixedApkPath [] (files st)) in
      match devModeEntries (scratch st) (extractedPath st) with
      | None => (Thrown (lit "cannot read manifest"), opened)
      | Some entries =>
          if archiveFails env then (Thrown (lit "archive error"), opened)
          else (Returned (Some fixedApkPath),
                withArchives st (writeFile fixedApkPath entries (files st)))
      end.

End Repackaging.

(** ** Signing ([server/apk-signer.ts]) *)

Module Signer.

(** What [signApk] finds outside the program: the two external tools,
    each of which either fails or turns the archive it is given into
    another; whether the keystore file is there when [signApk] looks; and
    which directories exist ([signApk] makes none). *)
Record Tools := {
  zipalign : Archive -> option Archive;
  jarsigner : Archive -> option Archive;
  keystoreExists : bool;
  directoryExists : text -> bool
}.

(** The tools in a world in which the directory [d] has been made. *)
Definition withDirectory (tools : Tools) (d : text) : Tools :=
  {| zipalign := zipalign tools;
     jarsigner := jarsigner tools;
     keystoreExists := keystoreExists tools;
     directoryExists := fun q => text_eqb q d || directoryExists tools q |}.

(** A file can be made at a path whose directory exists; otherwise the
    call fails with ENOENT. *)
Definition writable (tools : Tools) (p : text) : bool :=
  directoryExists tools (PathParts.dirname p).

Definition existsSync (p : text) : Eff Files bool :=
  fun fs => (Returned (isFile fs p), fs).

Definition copyFileSync (tools : Tools) (src dest : text) : Eff Files unit :=
  fun fs =>
    match fs src with
    | Some c =>
        if writable tools dest then (Returned tt, writeFile dest c fs)
        else (Thrown (lit "ENOENT"), fs)
    | None => (Thrown (lit "ENOENT"), fs)
    end.

Definition renameSync (tools : Tools) (oldPath newPath : text) : Eff Files unit :=
  fun fs =>
    match fs oldPath with
    | Some c =>
        if writable tools newPath
        then (Returned tt, writeFile newPath c (removeFile oldPath fs))
        else (Thrown (lit "ENOENT"), fs)
    | None => (Thrown (lit "ENOENT"), fs)
    end.

(** [execAsync] of a tool that reads [input] and writes [output]. *)
Definition exec (tools : Tools) (tool : Archive -> option Archive)
  (input output : text) : Eff Files unit :=
  fun fs =>
    match fs input with
    | Some c =>
        match tool c with
        | Some c' =>
            if writable tools output then (Returned tt, writeFile output c' fs)
            else (Thrown (lit "command failed"), fs)
        | None => (Thrown (lit "command failed"), fs)
        end
    | None => (Thrown (lit "command failed"), fs)
    end.

Definition dotApk : text := Eval cbv in lit ".apk".

Definition alignApk (tools : Tools) (inputPath outputPath : text) : Eff Files unit :=
  tryCatch
    (exec tools (zipalign tools) inputPath outputPath)
    (fun _ => copyFileSync tools inputPath outputPath).

Definition signApk (tools : Tools) (unsignedApkPath : text) : Eff Files text :=
  tryCatch
    (found <- existsSync unsignedApkPath ;;
     (if found then pure tt else throw (lit "Unsigned APK file not found")) ;;
     let signedApkPath := replace_first dotApk (lit "_signed.apk") unsignedApkPath in
     let alignedApkPath := replace_first dotApk (lit "_aligned.apk") unsignedApkPath in
     alignApk tools unsignedApkPath alignedApkPath ;;
     (if keystoreExists tools then
        tryCatch
          (exec tools (jarsigner tools) alignedApkPath alignedApkPath)
          (fun _ => copyFileSync tools alignedApkPath signedApkPath)
      else copyFileSync tools alignedApkPath signedApkPath) ;;
     aligned <- existsSync alignedApkPath ;;
     signed <- existsSync signedApkPath ;;
     (if aligned && negb signed then renameSync tools alignedApkPath signedApkPath
      else pure tt) ;;
     pure signedApkPath)%eff
    (fun _ => pure unsignedApkPath).

End Signer.

(** ** The pipeline ([runSecurityAnalyses], [analyzeAPK]) *)

(** [await analysis()] for one element of [analyses].  A detector
    catches what its file access throws; the one statement of it that
    can throw all the same is the last, [this.vulnerabilities.push(...
    vulnerabilities)], which spreads the list into the arguments of a
    call and throws a RangeError when they are more than the engine
    takes, [spreadLimit].  The field of the detector is assigned by
    then, [this.vulnerabilities] is as before. *)
Definition invoke (spreadLimit : nat) (analysis : Category * (State -> State))
  : Eff State unit :=
  fun st =>
    let st' := snd analysis st in
    if (length (vulnerabilities (analysisResults st' (fst analysis)))
        <=? spreadLimit)%nat
    then (Returned tt, st')
    else (Thrown (lit "RangeError"),
          withResults st' (analysisResults st') (allVulnerabilities st)).

(** The loop of [runSecurityAnalyses]: each call sits in its own
    [try]/[catch], which logs what was thrown. *)
Fixpoint runEach (spreadLimit : nat)
  (l : list (Category * (State -> State))) : Eff State unit :=
  match l with
  | [] => pure tt
  | analysis :: rest =>
      (tryCatch (invoke spreadLimit analysis) (fun _ => pure tt) ;;
       runEach spreadLimit rest)%eff
  end.

Definition runSecurityAnalyses (spreadLimit : nat) : Eff State unit :=
  runEach spreadLimit analyses.

(** ** What [xml2js] makes of a manifest

    The parser runs with [explicitArray: false]: an element without
    attributes and children is its text, any other is an object that has
    the attributes under [$] when there are some; one child of a name is
    that child, several are an array. *)
Module Xml.

Definition Attributes := list (text * text).

Inductive Item :=
| Str (s : text)
| Obj (attributes : option Attributes).

Inductive Children :=
| NoChild
| Single (i : Item)
| Several (l : list Item).

(** The root element, with its children named [uses-permission]. *)
Inductive Root :=
| RootStr (s : text)
| RootObj (attributes : option Attributes) (usesPermission : Children).

(** [o[key]] *)
Fixpoint get (key : text) (o : Attributes) : option text :=
  match o with
  | [] => None
  | (k, v) :: o' => if text_eqb k key then Some v else get key o'
  end.

(** A string, or [undefined], is truthy unless it is missing or empty. *)
Definition truthy (v : option text) : bool :=
  match v with
  | Some (_ :: _) => true
  | _ => false
  end.

(** [a || b] on two of them. *)
Definition either (a b : option text) : option text :=
  if truthy a then a else b.

End Xml.

Section Analysis.

Variable devModeSource : text -> text.

(** What a run of the analyzer finds outside the program. *)
Record Env := {
  apkExists : bool;
  opened : option Archive;
  garbled : Archive -> Archive * bool;
  xml2js : text -> option Xml.Root;
  spreadLimit : nat;
  repackager : Repackager;
  tools : Signer.Tools
}.

(** [parseManifest]: nothing when the manifest is missing, cannot be
    read or does not parse, or when its root is not a [manifest]
    element. *)
Definition parseManifest (env : Env) : Eff State (option Xml.Root) :=
  fun st =>
    (Returned
       match match scratch st with Some t => lookup manifestName t | None => None end with
       | Some (File manifestContent) => xml2js env manifestContent
       | _ => None
       end, st).

(** The signer works on the files, the analyzer on the whole state. *)
Definition onFiles {A : Type} (m : Eff Files A) : Eff State A :=
  fun st => let (r, fs) := m (files st) in (r, withArchives st fs).

Record Analysis := {
  a_analysisResults : AnalysisResult;
  a_vulnerabilities : list Vulnerability;
  a_packageInfo : option Xml.Root;
  a_fixedApkPath : option text
}.

(** The signer is made once [generateDevModeAPK] has returned a path, in
    whose directory it made the file. *)
Definition analyzeAPK (env : Env) : Eff State Analysis :=
  tryCatch
    ((if apkExists env then pure tt else throw (lit "APK file not found")) ;;
     extractAPK (garbled env) (opened env) ;;
     packageInfo <- parseManifest env ;;
     runSecurityAnalyses (spreadLimit env) ;;
     fixedApkPath <- generateDevModeAPK devModeSource (repackager env) ;;
     match fixedApkPath with
     | Some p =>
         signedApkPath <-
           onFiles (Signer.signApk
                      (Signer.withDirectory (tools env) (PathParts.dirname p)) p) ;;
         cleanup ;;
         st <- getState ;;
         pure {| a_analysisResults := analysisResults st;
                 a_vulnerabilities := allVulnerabilities st;
                 a_packageInfo := packageInfo;
                 a_fixedApkPath := Some signedApkPath |}
     | None =>
         st <- getState ;;
         pure {| a_analysisResults := analysisResults st;
                 a_vulnerabilities := allVulnerabilities st;
                 a_packageInfo := packageInfo;
                 a_fixedApkPath := None |}
     end)%eff
    (fun error => (cleanup ;; throw error)%eff).

(** [new APKAnalyzer(apkPath)], made at time [now], in a world where the
    extraction directory does not exist yet. *)
Definition newAnalyzer (apkPath : text) (now : N) (fs : Files) : State :=
  {| apkPath := apkPath;
     extractedPath :=
       Path.join (PathParts.dirname apkPath) (lit "extracted_" ++ decimal now);
     analysisResults := initializeAnalysisResults;
     allVulnerabilities := [];
     scratch := None;
     outside := [];
     files := fs |}.

End Analysis.

(** ** The job ([performAnalysis], upload route) *)

Module Job.

Inductive AnalysisStatus := pending | analyzing | completed | failed.

(** The fields of the analysis record that [performAnalysis] computes.
    The target SDK is left out: [Number.parseInt] does not throw, and no
    property here reads its value. *)
Record ApkAnalysis := {
  analysisStatus : AnalysisStatus;
  packageName : option text;
  version : option text;
  permissions : option (list text);
  securityScore : option Z;
  criticalIssues : Z;
  warningIssues : Z;
  vulnerabilities : option (list Vulnerability);
  analysisResults : option AnalysisResult;
  fixedApkPath : option text
}.

(** The record as the upload handler creates it. *)
Definition created : ApkAnalysis :=
  {| analysisStatus := analyzing;
     packageName := None;
     version := None;
     permissions := None;
     securityScore := None;
     criticalIssues := 0;
     warningIssues := 0;
     vulnerabilities := None;
     analysisResults := None;
     fixedApkPath := None |}.

(** What is read off the parsed manifest. *)
Record PackageFields := {
  f_packageName : option text;
  f_version : option text;
  f_permissions : list text
}.

(** [perm.$["android:name"] || perm.$.name || ""] for one element of
    the array; reading a key of [perm.$] throws when the element has no
    attributes. *)
Definition permissionName (perm : Xml.Item) : Outcome text :=
  match perm with
  | Xml.Obj (Some attributes) =>
      Returned
        match Xml.either (Xml.get (lit "android:name") attributes)
                (Xml.get (lit "name") attributes) with
        | Some name => if Xml.truthy (Some name) then name else []
        | None => []
        end
  | _ => Thrown (lit "TypeError")
  end.

(** [array.map(...)]: the first element at which the function throws
    ends it. *)
Fixpoint permissionNames (perms : list Xml.Item) : Outcome (list text) :=
  match perms with
  | [] => Returned []
  | perm :: rest =>
      match permissionName perm with
      | Thrown e => Thrown e
      | Returned name =>
          match permissionNames rest with
          | Thrown e => Thrown e
          | Returned names => Returned (name :: names)
          end
      end
  end.

(** [manifest["uses-permission"].map(...).filter(Boolean)], guarded by
    the truth of [manifest["uses-permission"]]: a single child is an
    object or a text, neither of which has a [map]. *)
Definition permissionsOf (usesPermission : Xml.Children) : Outcome (list text) :=
  match usesPermission with
  | Xml.NoChild => Returned []
  | Xml.Single (Xml.Str []) => Returned []
  | Xml.Single _ => Thrown (lit "TypeError")
  | Xml.Several perms =>
      match permissionNames perms with
      | Thrown e => Thrown e
      | Returned names =>
          Returned (filter (fun name => Xml.truthy (Some name)) names)
      end
  end.

(** The statements of [performAnalysis] between the score and the
    update of the record. *)
Definition packageFields (packageInfo : option Xml.Root) : Outcome PackageFields :=
  match packageInfo with
  | Some (Xml.RootObj attributes usesPermission) =>
      let packageName :=
        match attributes with
        | Some a => if Xml.truthy (Xml.get (lit "package") a)
                    then Xml.get (lit "package") a else None
        | None => None
        end in
      let version :=
        match attributes with
        | Some a => Xml.either (Xml.get (lit "android:versionName") a)
                      (Xml.get (lit "versionName") a)
        | None => None
        end in
      match permissionsOf usesPermission with
      | Thrown e => Thrown e
      | Returned permissions =>
          Returned {| f_packageName := packageName;
                      f_version := version;
                      f_permissions := permissions |}
      end
  | _ =>
      Returned {| f_packageName := None; f_version := None; f_permissions := [] |}
  end.

(** The record after a run that threw: only the status has changed. *)
Definition failedRecord : ApkAnalysis :=
  {| analysisStatus := failed;
     packageName := packageName created;
     version := version created;
     permissions := permissions created;
     securityScore := securityScore created;
     criticalIssues := criticalIssues created;
     warningIssues := warningIssues created;
     vulnerabilities := vulnerabilities created;
     analysisResults := analysisResults created;
     fixedApkPath := fixedApkPath created |}.

Definition performAnalysis (devModeSource : text -> text) (env : Env)
  (filePath : text) (now : N) (fs : Files) : ApkAnalysis * State :=
  let analyzer := newAnalyzer filePath now fs in
  match analyzeAPK devModeSource env analyzer with
  | (Returned analysisResult, st) =>
      match packageFields (a_packageInfo analysisResult) with
      | Returned fields =>
          ({| analysisStatus := completed;
              packageName := f_packageName fields;
              version := f_version fields;
              permissions := Some (f_permissions fields);
              securityScore :=
                Some (Score.securityScore (a_vulnerabilities analysisResult));
              criticalIssues := Score.criticalCount (a_vulnerabilities analysisResult);
              warningIssues := Score.warningIssues (a_vulnerabilities analysisResult);
              vulnerabilities := Some (a_vulnerabilities analysisResult);
              analysisResults := Some (a_analysisResults analysisResult);
              fixedApkPath := a_fixedApkPath analysisResult |}, st)
      | Thrown _ => (failedRecord, st)
      end
  | (Thrown _, st) => (failedRecord, st)
  end.

End Job.

(** ** Predicates the properties are stated with *)

(** Some vulnerability in the list is of severity critical or high. *)
Definition hasSevere (vs : list Vulnerability) : Prop :=
  exists v, In v vs /\ (severity v = critical \/ severity v = high).

(** The invariant of the status of a category result. *)
Definition statusInvariant (r : SecurityCheck) : Prop :=
  (status r = Status.critical <-> hasSevere (vulnerabilities r)) /\
  (~ hasSevere (vulnerabilities r) ->
   (status r = Status.warning <-> 0 < issueCount r)) /\
  (~ hasSevere (vulnerabilities r) -> ~ 0 < issueCount r ->
   status r = Status.passed) /\
  issueCount r = Z.of_nat (length (vulnerabilities r)).

(** The state after extraction of the entries of an archive, and the
    state after [cleanup]. *)
Definition extracted (garbled : Archive -> Archive * bool) (entries : Archive)
  (st : State) : State :=
  snd (extractAPK garbled (Some entries) st).

(** The reader got to the end of the archive: the promise of
    [extractAPK] resolves. *)
Definition resolves (garbled : Archive -> Archive * bool) (entries : Archive)
  (st : State) : bool :=
  match fst (extractAPK garbled (Some entries) st) with
  | Returned _ => true
  | Thrown _ => false
  end.

Definition cleaned (st : State) : State := snd (cleanup st).

(** The object [analyzeAPK] returns, read off a state. *)
Definition analysisOf (env : Env) (entries : Archive) (st0 st : State)
  (fixedApkPath : option text) : Analysis :=
  {| a_analysisResults := analysisResults st;
     a_vulnerabilities := allVulnerabilities st;
     a_packageInfo := match fst (parseManifest env
                                   (extracted (garbled env) entries st0)) with
                      | Returned p => p
                      | Thrown _ => None
                      end;
     a_fixedApkPath := fixedApkPath |}.

(** ** Sample inputs *)

(** A manifest with the three attributes, alone in the extraction
    directory. *)
Definition sampleManifest : text :=
  litq "<manifest><application android:debuggable='true' android:allowBackup='true'><activity android:exported='true'/></application></manifest>".

Definition sampleState : State :=
  {| apkPath := lit "/srv/uploads/17-app.apk";
     extractedPath := lit "/srv/uploads/extracted_17";
     analysisResults := initializeAnalysisResults;
     allVulnerabilities := [];
     scratch := Some [(manifestName, File sampleManifest)];
     outside := [];
     files := fun _ => None |}.


(** ** More predicates for the properties *)

(** The part of the state that is not the analyzer's findings. *)
Definition world (st : State)
  : text * text * option Tree * list (text * text) * Files :=
  (apkPath st, extractedPath st, scratch st, outside st, files st).

(** The state the loop of [runSecurityAnalyses] leaves. *)
Definition afterAnalyses (spreadLimit : nat)
  (l : list (Category * (State -> State))) (st : State) : State :=
  fold_left (fun s a => snd (invoke spreadLimit a s)) l st.

(** A detector that leaves the world alone, assigns no field but its
    own, and whose record depends on the world only. *)
Definition wellBehaved (a : Category * (State -> State)) : Prop :=
  forall st,
    world (snd a st) = world st /\
    (forall c', c' <> fst a ->
                analysisResults (snd a st) c' = analysisResults st c') /\
    (forall st', world st = world st' ->
                 analysisResults (snd a st) (fst a)
                 = analysisResults (snd a st') (fst a)).

(** Tools that work, in a world whose only directory is the one of the
    repackaged archives. *)
Definition sampleTools : Signer.Tools :=
  {| Signer.zipalign := fun a => Some a;
     Signer.jarsigner := fun a => Some (a ++ [(lit "META-INF/CERT.RSA", lit "signature")]);
     Signer.keystoreExists := true;
     Signer.directoryExists := fun d => text_eqb d (lit "fixed_apks") |}.

Definition sampleArchive : Archive :=
  [ (lit "AndroidManifest.xml", sampleManifest);
    (lit "res/", []);
    (lit "classes.dex", lit "dex") ].

(** A run in which everything works, or everything except making the
    output directory; a push takes up to [limit] arguments. *)
Definition sampleEnv (nullRepackaging : bool) (limit : nat) : Env :=
  {| apkExists := true;
     opened := Some sampleArchive;
     garbled := fun _ => ([], false);
     xml2js := fun _ => None;
     spreadLimit := limit;
     repackager := {| repackagedAt := 18;
                      outputDirFails := nullRepackaging;
                      archiveFails := false |};
     tools := sampleTools |}.

Definition sampleAnalyzer : State :=
  newAnalyzer (lit "/srv/uploads/17-app.apk") 17 (fun _ => None).

(** The paths [signApk] derives from its argument. *)
Definition signedPathOf (unsignedApkPath : text) : text :=
  replace_first Signer.dotApk (lit "_signed.apk") unsignedApkPath.

Definition alignedPathOf (unsignedApkPath : text) : text :=
  replace_first Signer.dotApk (lit "_aligned.apk") unsignedApkPath.

(** What the aligned file holds: the output of the alignment tool, or the
    input itself when the tool fails. *)
Definition alignedContent (tools : Signer.Tools) (c : Archive) : Archive :=
  match Signer.zipalign tools c with
  | Some c' => c'
  | None => c
  end.

(** A file system that holds the repackaged sample archive. *)
Definition samplePath : text := Eval cbv in lit "fixed_apks/dev_mode_18_17-app.apk".

Definition sampleFiles : Files :=
  writeFile samplePath sampleArchive (fun _ => None).

(** Tools that both fail. *)
Definition brokenTools : Signer.Tools :=
  {| Signer.zipalign := fun _ => None;
     Signer.jarsigner := fun _ => None;
     Signer.keystoreExists := true;
     Signer.directoryExists := fun d => text_eqb d (lit "fixed_apks") |}.

(** Every file below a directory: the name of the file, the path
    [addDirectory] computes for it, and its text. *)
Fixpoint entriesAt (itemPath item : text) (node : Node) : list (text * text * text) :=
  match node with
  | Dir sub =>
      (fix each (items : list (text * Node)) : list (text * text * text) :=
         match items with
         | [] => []
         | (i, n) :: rest =>
             entriesAt (archiveItemPath itemPath i) i n ++ each rest
         end) sub
  | File content => [(item, itemPath, content)]
  end.

Fixpoint treeEntries (archivePath : text) (items : list (text * Node))
  : list (text * text * text) :=
  match items with
  | [] => []
  | (item, node) :: rest =>
      entriesAt (archiveItemPath archivePath item) item node
      ++ treeEntries archivePath rest
  end.

(** An extraction directory without a manifest, and a run of the
    repackager in which nothing fails. *)
Definition bareTree : Tree :=
  [ (lit "classes.dex", File (lit "dex"));
    (lit "res", Dir [ (lit "icon.png", File (lit "png")) ]) ].

Definition bareState : State :=
  {| apkPath := lit "/srv/uploads/17-app.apk";
     extractedPath := lit "/srv/uploads/extracted_17";
     analysisResults := initializeAnalysisResults;
     allVulnerabilities := [];
     scratch := Some bareTree;
     outside := [];
     files := fun _ => None |}.

Definition workingRepackager : Repackager :=
  {| repackagedAt := 18; outputDirFails := false; archiveFails := false |}.

(** The entries [addDirectory] appends: the files whose name passes the
    test, under their path, with their text. *)
Definition passedEntries (es : list (text * text * text)) : Archive :=
  map (fun e => (snd (fst e), snd e))
    (filter (fun e => passedThrough (fst (fst e))) es).

(** An extraction directory as the analyzer names it, and an archive with
    an entry that climbs out of it. *)
Definition sampleRoot : text := Eval cbv in lit "/srv/uploads/extracted_17".

Definition climbingArchive : Archive :=
  [ (lit "../evil.txt", lit "x") ].

(** No segment of the name is [..]. *)
Definition noParentSegment (fileName : text) : Prop :=
  ~ In Path.dotdot (Path.split fileName).

(** A detector whose pushes onto [this.vulnerabilities] are the
    vulnerabilities of the record it assigns. *)
Definition pushesWhatItStores (a : Category * (State -> State)) : Prop :=
  forall st,
    allVulnerabilities (snd a st) =
    allVulnerabilities st ++ vulnerabilities (analysisResults (snd a st) (fst a)).

(** The vulnerability lists of the categories, in the order of the
    pipeline, one after the other. *)
Definition flattened (results : AnalysisResult) : list Vulnerability :=
  concat (map (fun a => vulnerabilities (results (fst a))) analyses).

(** The entry [AndroidManifest.xml] at the top of the extraction
    directory is itself a directory. *)
Definition manifestIsDirectory (scratch : option Tree) : bool :=
  match match scratch with Some t => lookup manifestName t | None => None end with
  | Some (Dir _) => true
  | _ => false
  end.

(** The runs in which [analyzeAPK] returns: the file is there, the
    archive opens and is read to its end, and repackaging either gives up
    at its set-up or gets through reading the manifest and writing the
    archive. *)
Definition returns (env : Env) (st : State) : bool :=
  apkExists env &&
  match opened env with
  | None => false
  | Some entries =>
      resolves (garbled env) entries st
      && (outputDirFails (repackager env)
          || (negb (manifestIsDirectory
                      (scratch (extracted (garbled env) entries st)))
              && negb (archiveFails (repackager env))))
  end.

(** What [parseManifest] returns in a run that gets to it. *)
Definition parsedManifest (env : Env) (st : State) : option Xml.Root :=
  match opened env with
  | None => None
  | Some entries =>
      match fst (parseManifest env (extracted (garbled env) entries st)) with
      | Returned p => p
      | Thrown _ => None
      end
  end.

(** The runs in which the job completes: [analyzeAPK] returns and
    reading the package fields off the parsed manifest does not throw. *)
Definition completes (env : Env) (st : State) : bool :=
  returns env st
  && match Job.packageFields (parsedManifest env st) with
     | Returned _ => true
     | Thrown _ => false
     end.

(** The lists the detectors pushed onto [this.vulnerabilities]: those of
    the categories, in the order of the pipeline, whose length the spread
    takes. *)
Definition pushed (spreadLimit : nat) (results : AnalysisResult)
  : list Vulnerability :=
  concat (map (fun a =>
                 if (length (vulnerabilities (results (fst a))) <=? spreadLimit)%nat
                 then vulnerabilities (results (fst a))
                 else [])
            analyses).

(** [signApk] on an input that holds [c], step by step: what it returns
    and what it leaves.  Without the directory of the aligned path
    neither the alignment tool nor the copy can make the aligned file,
    and the input path is returned.  Otherwise the aligned copy is
    written, then either signed in place and renamed to the signed path
    unless a file is there already, or copied to the signed path; when
    the rename or the copy fails for want of the directory of the signed
    path, the input path is returned. *)
Definition signedRun (tools : Signer.Tools) (p : text) (c : Archive) (fs : Files)
  : text * Files :=
  let a := alignedContent tools c in
  if Signer.writable tools (alignedPathOf p) then
    let fs0 := writeFile (alignedPathOf p) a fs in
    match (if Signer.keystoreExists tools then Signer.jarsigner tools a else None) with
    | Some s =>
        let fs1 := writeFile (alignedPathOf p) s fs0 in
        if isFile fs1 (signedPathOf p) then (signedPathOf p, fs1)
        else if Signer.writable tools (signedPathOf p)
             then (signedPathOf p,
                   writeFile (signedPathOf p) s (removeFile (alignedPathOf p) fs1))
             else (p, fs1)
    | None =>
        if Signer.writable tools (signedPathOf p)
        then (signedPathOf p, writeFile (signedPathOf p) a fs0)
        else (p, fs0)
    end
  else (p, fs).

(** An archive in a directory whose name holds [.apk]: the aligned and
    the signed path lie in directories that do not exist. *)
Definition detachedPath : text := Eval cbv in lit "out.apk.d/app.apk".

Definition detachedFiles : Files :=
  writeFile detachedPath sampleArchive (fun _ => None).

Definition detachedTools : Signer.Tools :=
  {| Signer.zipalign := fun _ => None;
     Signer.jarsigner := fun _ => None;
     Signer.keystoreExists := true;
     Signer.directoryExists := fun d => text_eqb d (lit "out.apk.d") |}.

(** The files [signApk] leaves when its input holds [c] and the
    directories of the aligned and the signed path exist: the aligned copy
    is written, then either signed in place and renamed to the signed
    path unless a file is there already, or copied to the signed path. *)
Definition signedFiles (tools : Signer.Tools) (p : text) (c : Archive) (fs : Files)
  : Files :=
  let a := alignedContent tools c in
  let fs0 := writeFile (alignedPathOf p) a fs in
  match (if Signer.keystoreExists tools then Signer.jarsigner tools a else None) with
  | Some s =>
      let fs1 := writeFile (alignedPathOf p) s fs0 in
      if isFile fs1 (signedPathOf p) then fs1
      else writeFile (signedPathOf p) s (removeFile (alignedPathOf p) fs1)
  | None => writeFile (signedPathOf p) a fs0
  end.

(** An archive of three files without directories. *)
Definition flatArchive : Archive :=
  [ (lit "classes.dex", lit "dex");
    (lit "resources.arsc", lit "arsc");
    (lit "AndroidManifest.xml", lit "<manifest/>") ].

(** The test of [findFiles] on the name of a file. *)
Definition hasExtension (extensions : list text) (item : text) : bool :=
  existsb (fun ext => ends_with item ext) extensions.

(** The number of files below a directory whose name passes a test. *)
Definition countFiles (test : text -> bool) (t : Tree) : nat :=
  length (filter (fun e => test (fst (fst e))) (treeEntries [] t)).

(** The four arrays of a detector have the same length. *)
Definition inLockstep (r : SecurityCheck) : Prop :=
  length (findings r) = length (vulnerabilities r) /\
  length (recommendations r) = length (vulnerabilities r) /\
  length (codeSnippets r) = length (vulnerabilities r).

(** The condition under which [analyzeXSS] reports xss-001 for a file. *)
Definition unsafeJavaScript (content : text) : bool :=
  includes content (lit "setJavaScriptEnabled(true)")
  && (negb (includes content (lit "addJavascriptInterface"))
      || negb (includes content (lit "@JavascriptInterface"))).

(** A source file that enables JavaScript in a web view and nothing
    else. *)
Definition webViewSource : text :=
  lit "class Main { void f(WebView w) { w.getSettings().setJavaScriptEnabled(true); } }".

Definition webViewTree : Tree :=
  [ (lit "src", Dir [ (lit "Main.java", File webViewSource) ]) ].

(** The same for the arrays while they are filled. *)
Definition foundInLockstep (a : Found) : Prop :=
  length (f_findings a) = length (f_vulnerabilities a) /\
  length (f_recommendations a) = length (f_vulnerabilities a) /\
  length (f_codeSnippets a) = length (f_vulnerabilities a).

(** What [scanFile] pushes for one file, in order. *)
Definition fileFindings (f : text * text) : list Vulnerability :=
  f_vulnerabilities (XSS.scanFile nothingFound f).

(** ** The upload handler ([POST], upload route) *)

Module Upload.

(** The name of the uploaded file is any string: a list of UTF-16 code
    units, on each of which the regular expression works. *)
Definition FileName := list N.

(** The code units of a text of 8-bit characters. *)
Definition units (s : text) : FileName := map N_of_ascii s.

Definition between (lo hi : nat) (c : ascii) : bool :=
  (lo <=? nat_of_ascii c)%nat && (nat_of_ascii c <=? hi)%nat.

(** The code units the class [a-zA-Z0-9.-] holds. *)
Definition allowed (u : N) : bool :=
  ((97 <=? u) && (u <=? 122) || (65 <=? u) && (u <=? 90)
   || (48 <=? u) && (u <=? 57) || (u =? 46) || (u =? 45))%N.

Definition underscore : ascii := Eval cbv in ascii_of_nat 95.

(** The characters [decimal] prints. *)
Definition isDigit (c : ascii) : bool := between 48 57 c.

(** [file.name.replace(/[^a-zA-Z0-9.-]/g, "_")]: every unit that is kept
    is below 128. *)
Definition sanitize (name : FileName) : text :=
  map (fun u => if allowed u then ascii_of_N u else underscore) name.

(** The name under which the upload is saved, made at time [now]. *)
Definition storedName (now : N) (name : FileName) : text :=
  decimal now ++ lit "-" ++ sanitize name.

(** [path.join(uploadsDir, fileName)] *)
Definition filePath (uploadsDir : text) (now : N) (name : FileName) : text :=
  Path.join uploadsDir (storedName now name).

End Upload.

(** The name of the extraction directory an analyzer made at [now]
    uses. *)
Definition extractedName (now : N) : text := lit "extracted_" ++ decimal now.

(** Some [<application] in the text has a [>] behind it: the regular
    expression of [addApplicationAttribute] matches. *)
Fixpoint hasApplicationTag (s : text) : bool :=
  (starts_with Manifest.applicationOpen s && existsb (Ascii.eqb Manifest.gt) s)
  || match s with
     | [] => false
     | _ :: t => hasApplicationTag t
     end.

(** ** What the steps of [enhanceManifestForDevMode] leave settled *)

Definition space : ascii := Eval cbv in ascii_of_nat 32.
Definition lessThan : ascii := Eval cbv in ascii_of_nat 60.
Definition letterT : ascii := Eval cbv in ascii_of_nat 116.
Definition letterB : ascii := Eval cbv in ascii_of_nat 66.
Definition falseTail : text := Eval cbv in lit "false" ++ [dq].
Definition trueTail : text := Eval cbv in lit "rue" ++ [dq].

(** The two branches of the steps for [android:debuggable] and
    [android:allowBackup]. *)
Definition enableFlag (attr falsified truthy m : text) : text :=
  if negb (includes m attr) then Manifest.addApplicationAttribute truthy m
  else replace_all falsified truthy m.

(** A flag is settled in a manifest on which its step does nothing: the
    attribute is there and never set to false, or it is missing and there
    is no application tag to put it in. *)
Definition flagSettled (attr falsified m : text) : Prop :=
  (includes m attr = true /\ includes m falsified = false)
  \/ (includes m attr = false /\ hasApplicationTag m = false).

Definition configSettled (m : text) : Prop :=
  includes m Manifest.networkSecurityConfigAttr = true
  \/ hasApplicationTag m = false.

Definition permissionSettled (m permission : text) : Prop :=
  includes m permission = true \/ includes m Manifest.closeManifest = false.

(** The line of a permission behind its first space. *)
Definition permissionTail (permission : text) : text :=
  tl (Manifest.usesPermission permission).

(** What the proofs use of a permission name: it has no space and no
    [<], and its line mentions neither flag nor opens an application
    tag. *)
Definition plainPermission (p : text) : bool :=
  negb (existsb (Ascii.eqb space) p)
  && negb (existsb (Ascii.eqb lessThan) p)
  && negb (includes (permissionTail p) Manifest.debuggableAttr)
  && negb (includes (permissionTail p) Manifest.allowBackupAttr)
  && negb (includes (permissionTail p ++ [lessThan]) Manifest.applicationOpen).

Definition closeTail : text := Eval cbv in lit "/manifest>".
Definition closeName : text := Eval cbv in lit "manifest>".

(** The backup flag around its capital letter. *)
Definition allowPrefix : text := Eval cbv in lit "android:allow".
Definition backupFalse : text :=
  Eval cbv in lit "ackup=" ++ Manifest.quoted (lit "false").
Definition backupTrue : text :=
  Eval cbv in lit "ackup=" ++ Manifest.quoted (lit "true").

(** A manifest without any of the test permissions. *)
Definition plainManifest : text :=
  lit "<manifest><application></application></manifest>".

(** ** The report ([GET], download-report route) *)

Module Report.

Inductive RiskLevel := HIGH | MEDIUM | LOW.

(** The fields of an [AnalysisResult] object, in the order of
    [initializeAnalysisResults]. *)
Definition categories : list Category :=
  [ reconnaissance; subdomainEnumeration; portScanning; directoryEnumeration;
    vulnerabilityScanning; manualTesting; authenticationTesting;
    sessionManagement; inputValidation; sqlInjection; xss; csrf; ssrf; idor;
    rce; fileInclusion; clickjacking; rateLimiting; accessControl;
    businessLogic; apiTesting; mobileAppTesting; clientSideVulns;
    informationDisclosure; serverSideVulns ].

(** The list the optional chains on [analysis.vulnerabilities] work on:
    each of them gives 0 or the empty list for a record without one. *)
Definition stored (analysis : Job.ApkAnalysis) : list Vulnerability :=
  match Job.vulnerabilities analysis with
  | Some vs => vs
  | None => []
  end.

(** [Object.values(analysis.analysisResults || {})] *)
Definition checks (analysis : Job.ApkAnalysis) : list SecurityCheck :=
  match Job.analysisResults analysis with
  | Some results => map results categories
  | None => []
  end.

Definition isPassed (r : SecurityCheck) : bool :=
  match status r with
  | Status.passed => true
  | _ => false
  end.

Definition isFailed (r : SecurityCheck) : bool :=
  match status r with
  | Status.critical | Status.failed => true
  | _ => false
  end.

(** The conditional of [overallRiskLevel] and [riskLevel]; on a number,
    [|| 0] changes nothing. *)
Definition riskLevelOf (analysis : Job.ApkAnalysis) : RiskLevel :=
  if 0 <? Job.criticalIssues analysis then HIGH
  else if 0 <? Job.warningIssues analysis then MEDIUM
  else LOW.

(** [vulnerabilities.filter((v) => v.severity === "critical")] *)
Definition criticalOnes (vs : list Vulnerability) : list Vulnerability :=
  filter (fun v => Severity_eqb (severity v) critical) vs.

Record ExecutiveSummary := {
  overallRiskLevel : RiskLevel;
  securityScore : option Z;
  totalVulnerabilities : Z;
  criticalFindings : Z;
  riskFactors : list text
}.

Record SecurityAssessment := {
  overallScore : option Z;
  riskLevel : RiskLevel;
  criticalIssues : Z;
  warningIssues : Z;
  passedChecks : Z;
  failedChecks : Z
}.

Record Summary := {
  total : Z;
  critical : Z;
  high : Z;
  medium : Z;
  low : Z
}.

Record DetailedReport := {
  executiveSummary : ExecutiveSummary;
  securityAssessment : SecurityAssessment;
  summary : Summary
}.

Definition detailedReport (analysis : Job.ApkAnalysis) : DetailedReport :=
  {| executiveSummary :=
       {| overallRiskLevel := riskLevelOf analysis;
          securityScore := Job.securityScore analysis;
          totalVulnerabilities := Z.of_nat (length (stored analysis));
          criticalFindings := Job.criticalIssues analysis;
          riskFactors := map title (criticalOnes (stored analysis)) |};
     securityAssessment :=
       {| overallScore := Job.securityScore analysis;
          riskLevel := riskLevelOf analysis;
          criticalIssues := Job.criticalIssues analysis;
          warningIssues := Job.warningIssues analysis;
          passedChecks := Z.of_nat (length (filter isPassed (checks analysis)));
          failedChecks := Z.of_nat (length (filter isFailed (checks analysis))) |};
     summary :=
       {| total := Z.of_nat (length (stored analysis));
          critical := Score.criticalCount (stored analysis);
          high := Score.highCount (stored analysis);
          medium := Score.mediumCount (stored analysis);
          low := Score.lowCount (stored analysis) |} |}.

End Report.

(** The record [performAnalysis] writes when the analyzer returned and
    the package fields were read. *)
Definition completedRecord (a : Analysis) (fields : Job.PackageFields)
  : Job.ApkAnalysis :=
  {| Job.analysisStatus := Job.completed;
     Job.packageName := Job.f_packageName fields;
     Job.version := Job.f_version fields;
     Job.permissions := Some (Job.f_permissions fields);
     Job.securityScore := Some (Score.securityScore (a_vulnerabilities a));
     Job.criticalIssues := Score.criticalCount (a_vulnerabilities a);
     Job.warningIssues := Score.warningIssues (a_vulnerabilities a);
     Job.vulnerabilities := Some (a_vulnerabilities a);
     Job.analysisResults := Some (a_analysisResults a);
     Job.fixedApkPath := a_fixedApkPath a |}.

(** A category result as the analyzer leaves it: the status follows the
    vulnerabilities, and is never [failed]. *)
Definition soundCheck (r : SecurityCheck) : Prop :=
  statusInvariant r /\ status r <> Status.failed.

(** The sample run with a manifest in which the parser finds one
    [uses-permission] element: the element itself, not an array. *)
Definition singlePermissionEnv : Env :=
  {| apkExists := true;
     opened := Some sampleArchive;
     garbled := fun _ => ([], false);
     xml2js := fun _ =>
       Some (Xml.RootObj (Some [(lit "package", lit "com.example.app")])
               (Xml.Single
                  (Xml.Obj (Some [(lit "android:name",
                                   lit "android.permission.INTERNET")]))));
     spreadLimit := 1000;
     repackager := {| repackagedAt := 18;
                      outputDirFails := false;
                      archiveFails := false |};
     tools := sampleTools |}.

(** An archive whose second entry is to be written where the first made
    a directory, with a third left to read; and the sample run on it,
    the reader ending in an error once it is called twice. *)
Definition blockedArchive : Archive :=
  [ (lit "z/w", lit "1"); (lit "z", lit "2"); (lit "zz", lit "3") ].

Definition blockedEnv : Env :=
  {| apkExists := true;
     opened := Some blockedArchive;
     garbled := fun _ => ([], false);
     xml2js := fun _ => None;
     spreadLimit := 1000;
     repackager := {| repackagedAt := 18;
                      outputDirFails := false;
                      archiveFails := false |};
     tools := sampleTools |}.

(** A directory that holds files only. *)
Definition isFileNode (x : Node) : bool :=
  match x with
  | File _ => true
  | Dir _ => false
  end.

(** The names of a listing go up in the order of [readdirSync]: each is
    in front of all that follow it. *)
Definition listedInOrder (t : Tree) : Prop :=
  StronglySorted (fun a b => text_ltb (fst a) (fst b) = true) t.

(** The name of an entry that is a file at the top of the archive, as the
    reader takes it: one segment, without a drive letter. *)
Definition flatName (fileName : text) : bool :=
  Path.properSegment (unixName fileName) && negb (hasDrive (unixName fileName)).

(** The directory once the entries were written into it as files, one
    after the other. *)
Definition filed (entries : Archive) (tree : Tree) : Tree :=
  fold_left (fun t e => bind (fst e) (File (snd e)) t) entries tree.

(** A file below the extraction directory as the two walks of
    repackaging come to it: its name, its full path as [findFiles] joins
    it, its path in the archive as [addDirectory] joins it, and its
    text. *)
Record Listed := {
  l_item : text;
  l_full : text;
  l_archive : text;
  l_content : text
}.

Fixpoint listedAt (fullPath itemPath item : text) (node : Node) : list Listed :=
  match node with
  | Dir sub =>
      (fix each (items : list (text * Node)) : list Listed :=
         match items with
         | [] => []
         | (i, n) :: rest =>
             listedAt (Path.join fullPath i) (archiveItemPath itemPath i) i n
             ++ each rest
         end) sub
  | File content =>
      [{| l_item := item; l_full := fullPath; l_archive := itemPath;
          l_content := content |}]
  end.

(** Every file below the directory [dir], in the order both walks take. *)
Fixpoint listedIn (dir archivePath : text) (items : list (text * Node))
  : list Listed :=
  match items with
  | [] => []
  | (item, node) :: rest =>
      listedAt (Path.join dir item) (archiveItemPath archivePath item) item node
      ++ listedIn dir archivePath rest
  end.

(** The directory [generateDevModeAPK] makes for the repackaged
    archives. *)
Definition outputDir : text := Eval cbv in lit "fixed_apks".

(** ** A large archive

    Its files are named by binary numerals, lowest digit first. *)
Definition digitZero : ascii := Eval cbv in ascii_of_nat 48.
Definition digitOne : ascii := Eval cbv in ascii_of_nat 49.

Fixpoint bits (p : positive) : text :=
  match p with
  | xH => [digitOne]
  | xO q => digitZero :: bits q
  | xI q => digitOne :: bits q
  end.

Definition sourceName (i : nat) : text :=
  lit "F" ++ bits (Pos.of_succ_nat i) ++ lit ".java".

(** A source file that writes into the DOM. *)
Definition domWriter : text := Eval cbv in lit "view.innerHTML = input;".

(** An archive of [n] such files. *)
Definition manySources (n : nat) : Archive :=
  map (fun i => (sourceName i, domWriter)) (seq 0 n).

(** A run in which everything works, on an archive of [n] such files,
    in an engine in which a call takes up to [limit] arguments. *)
Definition crowdEnv (n limit : nat) : Env :=
  {| apkExists := true;
     opened := Some (manySources n);
     garbled := fun _ => ([], false);
     xml2js := fun _ => None;
     spreadLimit := limit;
     repackager := workingRepackager;
     tools := sampleTools |}.

(** 500000 files, and calls that take up to 125000 arguments. *)
Definition crowdedArchive : Archive := manySources (N.to_nat 500000).

Definition crowdedEnv : Env := crowdEnv (N.to_nat 500000) (N.to_nat 125000).
(** * Properties *)

(** ** Strings *)

Lemma text_eqb_eq (a b : text) : text_eqb a b = true <-> a = b.
Proof.
  unfold text_eqb. destruct (list_eq_dec ascii_dec a b); split; congruence.
Qed.

Lemma text_eqb_refl (a : text) : text_eqb a a = true.
Proof. now apply text_eqb_eq. Qed.

(** ** Scoring *)

Module ScoreFacts.
Import Score.

Lemma countSeverity_nonneg s vs : 0 <= countSeverity s vs.
Proof. unfold countSeverity. lia. Qed.

Lemma countSeverity_cons s v vs :
  countSeverity s (v :: vs) =
  (if Severity_eqb (severity v) s then 1 else 0) + countSeverity s vs.
Proof.
  unfold countSeverity. simpl.
  destruct (Severity_eqb (severity v) s); simpl length; lia.
Qed.

Lemma countSeverity_app s vs ws :
  countSeverity s (vs ++ ws) = countSeverity s vs + countSeverity s ws.
Proof.
  unfold countSeverity. rewrite filter_app, length_app. lia.
Qed.

Lemma penalty_counts vs :
  penalty vs =
  criticalCount vs * 25 + highCount vs * 15 + mediumCount vs * 8 + lowCount vs * 3.
Proof.
  unfold criticalCount, highCount, mediumCount, lowCount.
  induction vs as [|v vs IH]; [reflexivity|].
  rewrite !countSeverity_cons. simpl penalty. rewrite IH.
  destruct (severity v); cbn [Severity_eqb weight]; lia.
Qed.

Lemma penalty_nonneg vs : 0 <= penalty vs.
Proof.
  rewrite penalty_counts.
  pose proof (countSeverity_nonneg critical vs).
  pose proof (countSeverity_nonneg high vs).
  pose proof (countSeverity_nonneg medium vs).
  pose proof (countSeverity_nonneg low vs).
  unfold criticalCount, highCount, mediumCount, lowCount. lia.
Qed.

Lemma penalty_app vs ws : penalty (vs ++ ws) = penalty vs + penalty ws.
Proof.
  induction vs as [|v vs IH]; simpl; [reflexivity|]. rewrite IH. lia.
Qed.

Lemma securityScore_penalty vs : securityScore vs = Z.max 0 (100 - penalty vs).
Proof. unfold securityScore. rewrite penalty_counts. f_equal. lia. Qed.

Lemma securityScore_range vs : 0 <= securityScore vs <= 100.
Proof.
  rewrite securityScore_penalty. pose proof (penalty_nonneg vs). lia.
Qed.

(** C3. The score the code computes is 100 minus 25 per critical, 15 per
    high, 8 per medium and 3 per low vulnerability, clamped to [0, 100];
    with no vulnerability it is exactly 100. *)
Theorem securityScore_spec :
  (forall vs,
      securityScore vs = spec_score vs /\
      securityScore vs =
      clamp 0 100
        (100 - 25 * criticalCount vs - 15 * highCount vs
             - 8 * mediumCount vs - 3 * lowCount vs)) /\
  securityScore [] = 100.
Proof.
  split; [|reflexivity].
  intros vs. unfold spec_score, clamp.
  rewrite securityScore_penalty.
  pose proof (penalty_nonneg vs) as Hp.
  pose proof (penalty_counts vs) as Hc.
  split; lia.
Qed.

(** C9. Appending a vulnerability never raises the score, and the score
    before and after lies in [0, 100]. *)
Theorem securityScore_append_le (L : list Vulnerability) (v : Vulnerability) :
  securityScore (L ++ [v]) <= securityScore L /\
  0 <= securityScore L <= 100 /\
  0 <= securityScore (L ++ [v]) <= 100.
Proof.
  split; [|split; apply securityScore_range].
  rewrite !securityScore_penalty, penalty_app.
  pose proof (penalty_nonneg [v]). lia.
Qed.

End ScoreFacts.

(** *** Facts about [starts_with], [split] and [normalize] *)

Lemma starts_with_app (p x : text) : starts_with p (p ++ x) = true.
Proof.
  induction p as [|a p IH]; simpl; [reflexivity|].
  now rewrite Ascii.eqb_refl, IH.
Qed.

Lemma starts_with_spec (p s : text) :
  starts_with p s = true <-> exists x, s = p ++ x.
Proof.
  revert s. induction p as [|a p IH]; intros s; simpl.
  - split; [intros _; now exists s | reflexivity].
  - destruct s as [|b s]; [split; [discriminate | intros [x Hx]; discriminate]|].
    rewrite andb_true_iff, Ascii.eqb_eq, IH. split.
    + intros [-> [x ->]]. now exists x.
    + intros [x Hx]. injection Hx as -> ->. split; [reflexivity | now exists x].
Qed.

Module PathFacts.
Import Path.

Lemma split_nonempty (s : text) : split s <> [].
Proof.
  destruct s as [|c t]; simpl; [discriminate|].
  destruct (Ascii.eqb c slash); [discriminate|].
  destruct (split t); discriminate.
Qed.

Lemma split_app_slash (x y : text) :
  split (x ++ slash :: y) = split x ++ split y.
Proof.
  induction x as [|c x IH]; simpl.
  - reflexivity.
  - destruct (Ascii.eqb c slash); [now rewrite IH|].
    rewrite IH. pose proof (split_nonempty x) as Hx.
    destruct (split x) as [|seg rest]; [contradiction|]. reflexivity.
Qed.

Lemma split_no_slash (s : text) :
  existsb (Ascii.eqb slash) s = false -> split s = [s].
Proof.
  induction s as [|c s IH]; simpl; [reflexivity|].
  rewrite orb_false_iff. intros [Hc Hs].
  rewrite Ascii.eqb_sym, Hc, (IH Hs). reflexivity.
Qed.

Lemma properSegment_spec (s : text) :
  properSegment s = true ->
  s <> [] /\ text_eqb s [] = false /\ text_eqb s dot = false /\
  text_eqb s dotdot = false /\ existsb (Ascii.eqb slash) s = false.
Proof.
  unfold properSegment. rewrite !andb_true_iff, !negb_true_iff.
  intros [[[H1 H2] H3] H4]. repeat split; try assumption.
  intros ->. discriminate.
Qed.

Lemma split_slash_cons (s : text) (r : text) :
  existsb (Ascii.eqb slash) s = false ->
  split (s ++ r) =
  match split r with
  | seg :: rest => (s ++ seg) :: rest
  | [] => [s]
  end.
Proof.
  induction s as [|c s IH]; simpl.
  - intros _. pose proof (split_nonempty r). destruct (split r); [contradiction|reflexivity].
  - rewrite orb_false_iff. intros [Hc Hs].
    rewrite Ascii.eqb_sym, Hc, (IH Hs).
    pose proof (split_nonempty r). destruct (split r); [contradiction|reflexivity].
Qed.

Lemma split_absolute (rs : list text) :
  Forall (fun s => properSegment s = true) rs ->
  rs <> [] ->
  split (absolute rs) = [] :: rs.
Proof.
  induction 1 as [|s rs Hs Hrs IH]; [congruence|]. intros _.
  unfold absolute. simpl. f_equal.
  apply properSegment_spec in Hs. destruct Hs as (_ & _ & _ & _ & Hs).
  destruct rs as [|s' rs'].
  - simpl. rewrite app_nil_r. now apply split_no_slash.
  - rewrite (split_slash_cons _ _ Hs). fold (absolute (s' :: rs')).
    rewrite IH by discriminate. now rewrite app_nil_r.
Qed.

(** Segments that survive normalization when no [..] is around. *)
Definition kept (seg : text) : bool :=
  negb (text_eqb seg [] || text_eqb seg dot).

Lemma normalizeSegs_no_dotdot (b : bool) (segs res : list text) :
  ~ In dotdot segs ->
  normalizeSegs b res segs = rev res ++ filter kept segs.
Proof.
  revert res. induction segs as [|seg segs IH]; intros res Hn; simpl.
  - now rewrite app_nil_r.
  - assert (Hseg : text_eqb seg dotdot = false).
    { destruct (text_eqb seg dotdot) eqn:E; [|reflexivity].
      apply text_eqb_eq in E. exfalso. apply Hn. now left. }
    assert (Hrest : ~ In dotdot segs) by (intros H; apply Hn; now right).
    unfold kept at 1.
    destruct (text_eqb seg [] || text_eqb seg dot); simpl.
    + now apply IH.
    + rewrite Hseg, IH by assumption. simpl. now rewrite <- app_assoc.
Qed.

Lemma filter_kept_proper (rs : list text) :
  Forall (fun s => properSegment s = true) rs -> filter kept rs = rs.
Proof.
  induction 1 as [|s rs Hs _ IH]; simpl; [reflexivity|].
  apply properSegment_spec in Hs. destruct Hs as (_ & H1 & H2 & _).
  unfold kept at 1. now rewrite H1, H2, IH.
Qed.

Lemma proper_not_dotdot (rs : list text) :
  Forall (fun s => properSegment s = true) rs -> ~ In dotdot rs.
Proof.
  intros H Hin. rewrite Forall_forall in H. specialize (H _ Hin).
  discriminate.
Qed.

Lemma slash_unsplit (l : list text) :
  l <> [] -> slash :: unsplit l = absolute l.
Proof.
  induction l as [|s l IH]; [congruence|]. intros _.
  destruct l as [|s' l'].
  - unfold absolute. simpl. now rewrite app_nil_r.
  - change (unsplit (s :: s' :: l')) with (s ++ slash :: unsplit (s' :: l')).
    rewrite IH by discriminate. reflexivity.
Qed.

Lemma absolute_app (l1 l2 : list text) :
  absolute (l1 ++ l2) = absolute l1 ++ absolute l2.
Proof. unfold absolute. now rewrite map_app, concat_app. Qed.

Lemma absolute_nonempty (l : list text) : l <> [] -> absolute l <> [].
Proof. destruct l; [congruence|]. discriminate. Qed.

Lemma isAbsolute_absolute (rs : list text) (x : text) :
  rs <> [] -> isAbsolute (absolute rs ++ x) = true.
Proof.
  destruct rs; [congruence|]. intros _. reflexivity.
Qed.

Lemma inside_below (root x : text) :
  inside root (root ++ x) = true <-> x = [] \/ exists y, x = slash :: y.
Proof.
  unfold inside. rewrite orb_true_iff, text_eqb_eq, starts_with_spec. split.
  - intros [H | [y Hy]].
    + left. rewrite <- (app_nil_r root) in H at 2. now apply app_inv_head in H.
    + right. rewrite <- app_assoc in Hy. apply app_inv_head in Hy. now exists y.
  - intros [-> | [y ->]].
    + left. apply app_nil_r.
    + right. exists y. now rewrite <- app_assoc.
Qed.

Lemma normalizeString_below (rs : list text) (name : text) :
  rs <> [] ->
  Forall (fun s => properSegment s = true) rs ->
  ~ In dotdot (split name) ->
  normalizeString (absolute rs ++ slash :: name) false =
  unsplit (rs ++ filter kept (split name)).
Proof.
  intros Hne Hrs Hname. unfold normalizeString. f_equal.
  rewrite split_app_slash, split_absolute by assumption.
  rewrite normalizeSegs_no_dotdot.
  - change (rev []) with (@nil text). rewrite app_nil_l.
    change (([] :: rs) ++ split name) with (([] : text) :: (rs ++ split name)).
    change (filter kept (([] : text) :: (rs ++ split name)))
      with (filter kept (rs ++ split name)).
    now rewrite filter_app, (filter_kept_proper _ Hrs).
  - simpl. intros [H|H]; [discriminate|]. apply in_app_or in H.
    destruct H as [H|H]; [now apply (proper_not_dotdot _ Hrs)|now apply Hname].
Qed.

Lemma unsplit_nonempty (rs extra : list text) :
  rs <> [] ->
  Forall (fun s => properSegment s = true) rs ->
  unsplit (rs ++ extra) <> [].
Proof.
  intros Hne Hrs Eu. destruct rs as [|s rs']; [congruence|].
  inversion Hrs as [|? ? Hs _]; subst.
  apply properSegment_spec in Hs. destruct Hs as (Hs & _).
  destruct s as [|a s]; [congruence|].
  simpl in Eu. destruct (rs' ++ extra); discriminate.
Qed.

Lemma trailingSeparator_absolute (rs : list text) :
  rs <> [] ->
  Forall (fun s => properSegment s = true) rs ->
  trailingSeparator (absolute rs) = false.
Proof.
  intros Hne Hrs. unfold trailingSeparator.
  destruct (rev (absolute rs)) as [|c r] eqn:Er; [reflexivity|].
  destruct (Ascii.eqb c slash) eqn:Ec; [|reflexivity].
  apply Ascii.eqb_eq in Ec. subst c. exfalso.
  destruct (exists_last Hne) as (rs0 & s & ->).
  apply Forall_app in Hrs. destruct Hrs as [_ Hs].
  inversion Hs as [|? ? Hs' _]; subst.
  apply properSegment_spec in Hs'. destruct Hs' as (Hs1 & _ & _ & _ & Hs2).
  rewrite absolute_app in Er. unfold absolute at 2 in Er. simpl in Er.
  rewrite app_nil_r in Er.
  change (slash :: s) with ([slash] ++ s) in Er.
  rewrite !rev_app_distr in Er.
  destruct (rev s) as [|c' r'] eqn:Es.
  - apply (f_equal (@rev ascii)) in Es. rewrite rev_involutive in Es. now subst s.
  - simpl in Er. injection Er as -> _.
    assert (Hin : In slash s) by (apply in_rev; rewrite Es; now left).
    assert (existsb (Ascii.eqb slash) s = true).
    { apply existsb_exists. exists slash. split; [assumption|apply Ascii.eqb_refl]. }
    congruence.
Qed.

(** What [normalize] makes of a normalized absolute directory followed by
    anything that has no [..] segment. *)
Lemma normalize_below (rs : list text) (name : text) :
  rs <> [] ->
  Forall (fun s => properSegment s = true) rs ->
  ~ In dotdot (split name) ->
  exists tail,
    normalize (absolute rs ++ slash :: name) =
    absolute rs ++ absolute (filter kept (split name)) ++ tail /\
    (tail = [] \/ tail = [slash]).
Proof.
  intros Hne Hrs Hname.
  unfold normalize.
  destruct (absolute rs ++ slash :: name) as [|c0 t0] eqn:Epath.
  { exfalso. destruct rs; [congruence|]. discriminate. }
  rewrite <- Epath.
  rewrite (isAbsolute_absolute _ _ Hne). simpl negb.
  rewrite normalizeString_below by assumption.
  set (extra := filter kept (split name)).
  assert (Hl : rs ++ extra <> []) by (destruct rs; [congruence|discriminate]).
  pose proof (slash_unsplit _ Hl) as Hu.
  pose proof (unsplit_nonempty rs extra Hne Hrs) as Hnz.
  destruct (unsplit (rs ++ extra)) as [|u0 ut] eqn:Eu; [congruence|].
  destruct (trailingSeparator (absolute rs ++ slash :: name)).
  - exists [slash]. split; [|now right].
    change (slash :: (u0 :: ut) ++ [slash]) with ((slash :: u0 :: ut) ++ [slash]).
    rewrite Hu, absolute_app, <- app_assoc. reflexivity.
  - exists []. split; [|now left].
    rewrite Hu, absolute_app, app_nil_r. reflexivity.
Qed.

Lemma normalize_absolute (rs : list text) :
  rs <> [] ->
  Forall (fun s => properSegment s = true) rs ->
  normalize (absolute rs) = absolute rs.
Proof.
  intros Hne Hrs. unfold normalize.
  destruct (absolute rs) as [|c0 t0] eqn:Epath.
  { exfalso. now apply (absolute_nonempty _ Hne). }
  rewrite <- Epath.
  pose proof (isAbsolute_absolute _ [] Hne) as Ha.
  rewrite app_nil_r in Ha. rewrite Ha. simpl negb.
  rewrite (trailingSeparator_absolute _ Hne Hrs).
  unfold normalizeString. rewrite split_absolute by assumption.
  rewrite normalizeSegs_no_dotdot.
  2:{ simpl. intros [H|H]; [discriminate|]. now apply (proper_not_dotdot _ Hrs). }
  change (rev []) with (@nil text). rewrite app_nil_l.
  change (filter kept (([] : text) :: rs)) with (filter kept rs).
  rewrite (filter_kept_proper _ Hrs).
  pose proof (slash_unsplit _ Hne) as Hu.
  pose proof (unsplit_nonempty rs [] Hne Hrs) as Hnz. rewrite app_nil_r in Hnz.
  destruct (unsplit rs) as [|u0 ut] eqn:Eu; [congruence|assumption].
Qed.

End PathFacts.

(** ** Examples of path arithmetic *)

Example join_plain :
  Path.join (lit "/srv/uploads/extracted_17") (lit "res/xml/a.xml")
  = lit "/srv/uploads/extracted_17/res/xml/a.xml".
Proof. vm_compute. reflexivity. Qed.

Example join_rooted_name :
  Path.join (lit "/srv/uploads/extracted_17") (lit "/etc/passwd")
  = lit "/srv/uploads/extracted_17/etc/passwd".
Proof. vm_compute. reflexivity. Qed.

Example join_parent :
  Path.join (lit "/srv/uploads/extracted_17") (lit "a/./b/../../../x//y")
  = lit "/srv/uploads/x/y".
Proof. vm_compute. reflexivity. Qed.

Example join_relative_up :
  Path.join (lit "a") (lit "../../b/") = lit "../b/".
Proof. vm_compute. reflexivity. Qed.

Example absolute_segments :
  Path.absolute [lit "srv"; lit "uploads"] = lit "/srv/uploads".
Proof. vm_compute. reflexivity. Qed.

Example basename_file :
  PathParts.basename (lit "/srv/uploads/17-app.apk") = lit "17-app.apk".
Proof. vm_compute. reflexivity. Qed.

Example dirname_file :
  PathParts.dirname (lit "/srv/uploads/17-app.apk") = lit "/srv/uploads".
Proof. vm_compute. reflexivity. Qed.

Example dirname_top : PathParts.dirname (lit "/app.apk") = lit "/".
Proof. vm_compute. reflexivity. Qed.

Example dirname_bare : PathParts.dirname (lit "app.apk") = lit ".".
Proof. vm_compute. reflexivity. Qed.

Example dirname_double : PathParts.dirname (lit "a//b") = lit "a/".
Proof. vm_compute. reflexivity. Qed.


(** ** The file tree *)

Lemma findFilesAt_Dir (extensions : list text) (fullPath item : text)
  (sub : list (text * Node)) :
  findFilesAt extensions fullPath item (Dir sub) = findFilesIn extensions fullPath sub.
Proof.
  simpl. induction sub as [|[i n] rest IH]; simpl; [reflexivity|]. now rewrite IH.
Qed.

Lemma removeNode_gone (node : Node) : removeNode node = None.
Proof.
  induction node as [content | items IH] using Node_nested_ind; [reflexivity|].
  simpl.
  assert (E : (fix each (items : list (text * Node)) : list (text * Node) :=
                 match items with
                 | [] => []
                 | (name, x) :: rest =>
                     match removeNode x with
                     | None => each rest
                     | Some x' => (name, x') :: each rest
                     end
                 end) items = []).
  { induction IH as [|[name x] rest Hx _ IHrest]; [reflexivity|].
    simpl in Hx. rewrite Hx. exact IHrest. }
  now rewrite E.
Qed.

Lemma removeDirectory_gone (t : Tree) : removeDirectory t = None.
Proof. unfold removeDirectory. now rewrite removeNode_gone. Qed.

Lemma cleanup_removes (st : State) : scratch (snd (cleanup st)) = None.
Proof.
  unfold cleanup. destruct (scratch st) as [t|] eqn:E; simpl.
  - apply removeDirectory_gone.
  - exact E.
Qed.

(** ** Detectors *)

Lemma assign_same (c : Category) (r : SecurityCheck) (results : AnalysisResult) :
  assign c r results c = r.
Proof. unfold assign. destruct (Category_eq_dec c c); congruence. Qed.

Lemma assign_other (c c' : Category) (r : SecurityCheck) (results : AnalysisResult) :
  c <> c' -> assign c r results c' = results c'.
Proof. unfold assign. destruct (Category_eq_dec c c'); congruence. Qed.

Lemma existsb_severe (vs : list Vulnerability) :
  existsb (fun v => Severity_eqb (severity v) high
                    || Severity_eqb (severity v) critical) vs = true
  <-> hasSevere vs.
Proof.
  unfold hasSevere. rewrite existsb_exists. split.
  - intros (v & Hin & Hv). exists v. split; [assumption|].
    destruct (severity v); simpl in Hv; try discriminate; auto.
  - intros (v & Hin & [Hv|Hv]); exists v; (split; [assumption|]); now rewrite Hv.
Qed.

Lemma hasSevere_nonempty (vs : list Vulnerability) :
  hasSevere vs -> (0 < Z.of_nat (length vs))%Z.
Proof.
  intros (v & Hin & _). destruct vs; [contradiction|]. simpl length. lia.
Qed.

Lemma statusOf_invariant (a : Found) (noun : text) :
  statusInvariant (checkOf noun a).
Proof.
  unfold statusInvariant, checkOf. simpl.
  set (vs := f_vulnerabilities a). unfold statusOf.
  pose proof (existsb_severe vs) as Hex.
  pose proof (hasSevere_nonempty vs) as Hne.
  destruct (0 <? Z.of_nat (length vs))%Z eqn:Epos;
    [apply Z.ltb_lt in Epos | apply Z.ltb_ge in Epos];
    destruct (existsb _ vs) eqn:Esev.
  - assert (hasSevere vs) by now apply Hex.
    repeat split; intros; try discriminate; try tauto; try lia.
  - assert (~ hasSevere vs) by (intros H; apply Hex in H; discriminate).
    repeat split; intros; try discriminate; try tauto; try lia.
  - assert (hasSevere vs) by now apply Hex.
    exfalso. specialize (Hne H). lia.
  - assert (~ hasSevere vs) by (intros H; apply Hex in H; discriminate).
    repeat split; intros; try discriminate; try tauto; try lia.
Qed.

Lemma fixedCheck_invariant (d : string) : statusInvariant (fixedCheck d).
Proof.
  unfold statusInvariant, fixedCheck, hasSevere. simpl.
  repeat split; intros; try discriminate; try lia; try reflexivity.
  destruct H as (v & [] & _).
Qed.

Lemma store_result (c : Category) (r : SecurityCheck) (st : State) :
  analysisResults (store c r st) c = r.
Proof. unfold store, withResults. simpl. apply assign_same. Qed.

Lemma assignFixed_result (c : Category) (d : string) (st : State) :
  analysisResults (assignFixed c d st) c = fixedCheck d.
Proof. unfold assignFixed, withResults. simpl. apply assign_same. Qed.

Lemma store_invariant (c : Category) (noun : text) (a : Found) (st : State) :
  statusInvariant (analysisResults (store c (checkOf noun a) st) c).
Proof. rewrite store_result. apply statusOf_invariant. Qed.

Lemma assignFixed_invariant (c : Category) (d : string) (st : State) :
  statusInvariant (analysisResults (assignFixed c d st) c).
Proof. rewrite assignFixed_result. apply fixedCheck_invariant. Qed.

(** C4. Whatever state a detector of the pipeline runs in, the record it
    leaves in its category has status critical exactly when one of its
    vulnerabilities is critical or high, otherwise warning exactly when
    its issue count is positive, otherwise passed; and its issue count is
    the number of its vulnerabilities. *)
Theorem detector_status_invariant
  (c : Category) (analysis : State -> State) (st : State) :
  In (c, analysis) analyses ->
  statusInvariant (analysisResults (analysis st) c).
Proof.
  intros Hin. unfold analyses in Hin. simpl in Hin.
  repeat (destruct Hin as [Hin|Hin];
          [injection Hin as <- <-;
           first [ apply store_invariant | apply assignFixed_invariant ]|]).
  contradiction.
Qed.

Lemma scanManifest_all_three (content : text) :
  includes content Recon.debuggableTrue = true ->
  includes content Recon.allowBackupTrue = true ->
  includes content Recon.exportedTrue = true ->
  includes content Recon.permissionAttr = false ->
  f_vulnerabilities (Recon.scanManifest content)
  = [Recon.recon001; Recon.recon002; Recon.recon003].
Proof.
  intros Hd Hb He Hp.
  unfold Recon.scanManifest, Recon.checkExported, Recon.checkAllowBackup,
    Recon.checkDebuggable.
  rewrite Hd, Hb, He, Hp. reflexivity.
Qed.

(** C8. On a manifest text that contains [android:debuggable="true"],
    [android:allowBackup="true"] and [android:exported="true"] and nowhere
    [android:permission=], the reconnaissance detector finds exactly the
    three vulnerabilities recon-001 (medium), recon-002 (low) and
    recon-003 (high), and with no vulnerability found before it the score
    is 74. *)
Theorem reconnaissance_three_findings (content : text) (t : Tree) (st : State) :
  includes content Recon.debuggableTrue = true ->
  includes content Recon.allowBackupTrue = true ->
  includes content Recon.exportedTrue = true ->
  includes content Recon.permissionAttr = false ->
  scratch st = Some t ->
  lookup manifestName t = Some (File content) ->
  allVulnerabilities st = [] ->
  let r := analysisResults (analyzeReconnaissance st) reconnaissance in
  vulnerabilities r = [Recon.recon001; Recon.recon002; Recon.recon003] /\
  map severity (vulnerabilities r) = [medium; low; high] /\
  map id (vulnerabilities r) = [lit "recon-001"; lit "recon-002"; lit "recon-003"] /\
  issueCount r = 3 /\
  Score.securityScore (allVulnerabilities (analyzeReconnaissance st)) = 74.
Proof.
  intros Hd Hb He Hp Hs Hm Hv r.
  assert (Hr : vulnerabilities r = [Recon.recon001; Recon.recon002; Recon.recon003]).
  { unfold r, analyzeReconnaissance. rewrite store_result. simpl.
    unfold Recon.scan. rewrite Hs, Hm. now apply scanManifest_all_three. }
  assert (Hi : issueCount r = Z.of_nat (length (vulnerabilities r))).
  { unfold r, analyzeReconnaissance. rewrite store_result. reflexivity. }
  repeat split.
  - exact Hr.
  - now rewrite Hr.
  - now rewrite Hr.
  - now rewrite Hi, Hr.
  - unfold analyzeReconnaissance, store, withResults. simpl allVulnerabilities.
    rewrite Hv. simpl app. unfold Recon.scan. rewrite Hs, Hm.
    rewrite scanManifest_all_three by assumption. reflexivity.
Qed.

Lemma reconnaissance_three_findings_witness :
  includes sampleManifest Recon.debuggableTrue = true /\
  Score.securityScore (allVulnerabilities (analyzeReconnaissance sampleState)) = 74.
Proof.
  split; [vm_compute; reflexivity|].
  apply (reconnaissance_three_findings sampleManifest
           [(manifestName, File sampleManifest)] sampleState);
    vm_compute; reflexivity.
Defined.

Lemma detector_status_invariant_witness :
  In (xss, analyzeXSS) analyses /\
  statusInvariant (analysisResults (analyzeXSS sampleState) xss).
Proof.
  split; [simpl; right; left; reflexivity|].
  apply (detector_status_invariant xss analyzeXSS sampleState).
  simpl. right. left. reflexivity.
Defined.

(** ** The pipeline *)

Lemma invoke_state (spreadLimit : nat) (a : Category * (State -> State)) (st : State) :
  snd (invoke spreadLimit a st)
  = if (length (vulnerabilities (analysisResults (snd a st) (fst a)))
        <=? spreadLimit)%nat
    then snd a st
    else withResults (snd a st) (analysisResults (snd a st)) (allVulnerabilities st).
Proof. unfold invoke. now destruct (_ <=? _)%nat. Qed.

Lemma invoke_results (spreadLimit : nat) (a : Category * (State -> State)) (st : State) :
  analysisResults (snd (invoke spreadLimit a st)) = analysisResults (snd a st).
Proof. rewrite invoke_state. now destruct (_ <=? _)%nat. Qed.

Lemma invoke_world (spreadLimit : nat) (a : Category * (State -> State)) (st : State) :
  world (snd (invoke spreadLimit a st)) = world (snd a st).
Proof. rewrite invoke_state. now destruct (_ <=? _)%nat. Qed.

Lemma runEach_returns (spreadLimit : nat)
  (l : list (Category * (State -> State))) (st : State) :
  runEach spreadLimit l st = (Returned tt, afterAnalyses spreadLimit l st).
Proof.
  revert st. induction l as [|a l IH]; intros st; [reflexivity|].
  cbn [runEach]. unfold afterAnalyses. cbn [fold_left].
  fold (afterAnalyses spreadLimit l (snd (invoke spreadLimit a st))).
  unfold andThen, tryCatch, pure.
  destruct (invoke spreadLimit a st) as [[u|e] s']; cbn [snd]; apply IH.
Qed.

Lemma store_wellBehaved (c : Category) (noun : text) (scan : State -> Found) :
  (forall st st', world st = world st' -> scan st = scan st') ->
  wellBehaved (c, fun st => store c (checkOf noun (scan st)) st).
Proof.
  intros Hscan st. cbn [fst snd]. repeat split.
  - intros c' Hc'. unfold store, withResults. simpl. now apply assign_other.
  - intros st' Hw. rewrite !store_result. now rewrite (Hscan st st' Hw).
Qed.

Lemma assignFixed_wellBehaved (c : Category) (d : string) :
  wellBehaved (c, assignFixed c d).
Proof.
  intros st. cbn [fst snd]. repeat split.
  - intros c' Hc'. unfold assignFixed, withResults. simpl. now apply assign_other.
  - intros st' _. now rewrite !assignFixed_result.
Qed.

Lemma analyses_wellBehaved : Forall wellBehaved analyses.
Proof.
  unfold analyses.
  constructor.
  { apply (store_wellBehaved reconnaissance (lit "reconnaissance issues")
             (fun st => Recon.scan (scratch st))).
    intros st st' Hw. unfold world in Hw. now injection Hw as _ _ -> _ _. }
  constructor.
  { apply (store_wellBehaved xss (lit "XSS vulnerabilities")
             (fun st => XSS.scan (scratch st) (extractedPath st))).
    intros st st' Hw. unfold world in Hw. now injection Hw as _ -> -> _ _. }
  repeat (constructor; [apply assignFixed_wellBehaved|]).
  constructor.
Qed.

Lemma analyses_distinct : NoDup (map fst analyses).
Proof.
  unfold analyses. simpl.
  repeat (constructor;
          [simpl; intros H;
           repeat (destruct H as [H|H]; [discriminate|]); exact H|]).
  constructor.
Qed.

Lemma afterAnalyses_cons (spreadLimit : nat) (a : Category * (State -> State))
  (l : list (Category * (State -> State))) (st : State) :
  afterAnalyses spreadLimit (a :: l) st
  = afterAnalyses spreadLimit l (snd (invoke spreadLimit a st)).
Proof. reflexivity. Qed.

Lemma afterAnalyses_world (spreadLimit : nat)
  (l : list (Category * (State -> State))) (st : State) :
  Forall wellBehaved l -> world (afterAnalyses spreadLimit l st) = world st.
Proof.
  intros Hl. revert st. induction Hl as [|a l Ha _ IH]; intros st; [reflexivity|].
  rewrite afterAnalyses_cons, IH, invoke_world. apply (Ha st).
Qed.

Lemma afterAnalyses_untouched (spreadLimit : nat)
  (l : list (Category * (State -> State))) (st : State) (c : Category) :
  Forall wellBehaved l -> ~ In c (map fst l) ->
  analysisResults (afterAnalyses spreadLimit l st) c = analysisResults st c.
Proof.
  intros Hl. revert st. induction Hl as [|a l Ha _ IH]; intros st Hc; [reflexivity|].
  cbn [map In] in Hc.
  assert (Hne : c <> fst a) by (intros ->; apply Hc; now left).
  assert (Hrest : ~ In c (map fst l)) by (intros H; apply Hc; now right).
  rewrite afterAnalyses_cons, IH, invoke_results by assumption.
  now apply (Ha st).
Qed.

(** Whether its push throws or not, a detector leaves in its field the
    record it assigns, and the later detectors leave it there. *)
Lemma afterAnalyses_result (spreadLimit : nat)
  (l : list (Category * (State -> State))) :
  Forall wellBehaved l -> NoDup (map fst l) ->
  forall (st : State) (c : Category) (d : State -> State),
    In (c, d) l ->
    analysisResults (afterAnalyses spreadLimit l st) c = analysisResults (d st) c.
Proof.
  intros Hl. induction Hl as [|a l Ha Hl IH]; intros Hnd st c d Hin; [contradiction|].
  cbn [map] in Hnd. inversion Hnd as [|? ? Hfresh Hnd']; subst.
  rewrite afterAnalyses_cons.
  destruct Hin as [->|Hin].
  - cbn [fst] in Hfresh.
    rewrite afterAnalyses_untouched, invoke_results by assumption. reflexivity.
  - rewrite (IH Hnd' _ c d Hin).
    assert (Hd : wellBehaved (c, d)).
    { rewrite Forall_forall in Hl. now apply Hl. }
    destruct (Hd (snd (invoke spreadLimit a st))) as (_ & _ & Hdep).
    cbn [fst snd] in Hdep. apply Hdep.
    rewrite invoke_world. apply (Ha st).
Qed.

(** ** Signing *)

Lemma tryCatch_pure_returns {S A : Type} (body : Eff S A) (a : A) (s : S) :
  exists r s', tryCatch body (fun _ => pure a) s = (Returned r, s').
Proof.
  unfold tryCatch, pure. destruct (body s) as [[r|e] s'].
  - now exists r, s'.
  - now exists a, s'.
Qed.

Lemma signApk_returns (tools : Signer.Tools) (unsignedApkPath : text) (fs : Files) :
  exists r fs', Signer.signApk tools unsignedApkPath fs = (Returned r, fs').
Proof. unfold Signer.signApk. apply tryCatch_pure_returns. Qed.

(** ** The analyzer run *)

Section AnalyzerRun.

Variable devModeSource : text -> text.

Lemma generateDevModeAPK_frame (r : Repackager) (st : State) :
  analysisResults (snd (generateDevModeAPK devModeSource r st)) = analysisResults st /\
  allVulnerabilities (snd (generateDevModeAPK devModeSource r st)) = allVulnerabilities st /\
  scratch (snd (generateDevModeAPK devModeSource r st)) = scratch st.
Proof.
  unfold generateDevModeAPK.
  destruct (outputDirFails r); [now repeat split|].
  destruct (devModeEntries devModeSource (scratch st) (extractedPath st));
    [|now repeat split].
  destruct (archiveFails r); now repeat split.
Qed.

Lemma cleanup_returns (st : State) : cleanup st = (Returned tt, cleaned st).
Proof. unfold cleaned, cleanup. now destruct (scratch st). Qed.

Lemma extractAPK_outcome (garbled : Archive -> Archive * bool)
  (entries : Archive) (st : State) :
  extractAPK garbled (Some entries) st
  = (fst (extractAPK garbled (Some entries) st), extracted garbled entries st).
Proof. unfold extracted. now destruct (extractAPK _ _ _). Qed.

(** [analyzeAPK], path by path. *)
Lemma analyzeAPK_paths (env : Env) (st : State) :
  analyzeAPK devModeSource env st =
  if apkExists env then
    match opened env with
    | None => (Thrown (lit "cannot open archive"), cleaned st)
    | Some entries =>
        let st1 := extracted (garbled env) entries st in
        match fst (extractAPK (garbled env) (Some entries) st) with
        | Thrown e => (Thrown e, cleaned st1)
        | Returned _ =>
            let st2 := afterAnalyses (spreadLimit env) analyses st1 in
            match generateDevModeAPK devModeSource (repackager env) st2 with
            | (Returned (Some p), st3) =>
                match Signer.signApk
                        (Signer.withDirectory (tools env) (PathParts.dirname p))
                        p (files st3) with
                | (Returned signedApkPath, fs) =>
                    (Returned (analysisOf env entries st
                                 (cleaned (withArchives st3 fs))
                                 (Some signedApkPath)),
                     cleaned (withArchives st3 fs))
                | (Thrown e, fs) => (Thrown e, cleaned (withArchives st3 fs))
                end
            | (Returned None, st3) =>
                (Returned (analysisOf env entries st st3 None), st3)
            | (Thrown e, st3) => (Thrown e, cleaned st3)
            end
        end
    end
  else (Thrown (lit "APK file not found"), cleaned st).
Proof.
  unfold analyzeAPK, tryCatch, andThen.
  destruct (apkExists env).
  2:{ unfold throw at 1. now rewrite cleanup_returns. }
  unfold pure at 1.
  destruct (opened env) as [entries|].
  2:{ unfold extractAPK, throw. now rewrite cleanup_returns. }
  rewrite extractAPK_outcome. cbv zeta.
  destruct (fst (extractAPK (garbled env) (Some entries) st)) as [u|e].
  2:{ unfold throw. now rewrite cleanup_returns. }
  unfold parseManifest at 1.
  unfold runSecurityAnalyses. rewrite runEach_returns.
  destruct (generateDevModeAPK devModeSource (repackager env)
              (afterAnalyses (spreadLimit env) analyses
                 (extracted (garbled env) entries st)))
    as [[[p|]|e] st3].
  - unfold onFiles.
    destruct (Signer.signApk _ p (files st3)) as [[signed|e] fs].
    + rewrite cleanup_returns. unfold getState, pure, analysisOf, parseManifest.
      reflexivity.
    + unfold throw. rewrite cleanup_returns. reflexivity.
  - unfold getState, pure, analysisOf, parseManifest. reflexivity.
  - unfold throw. rewrite cleanup_returns. reflexivity.
Qed.

End AnalyzerRun.

(** ** Cleanup on the exit paths of [analyzeAPK] *)

Section ExitPaths.

Variable devModeSource : text -> text.

Lemma cleaned_scratch (st : State) : scratch (cleaned st) = None.
Proof. apply cleanup_removes. Qed.

Lemma cleaned_results (st : State) :
  analysisResults (cleaned st) = analysisResults st /\
  allVulnerabilities (cleaned st) = allVulnerabilities st.
Proof. unfold cleaned, cleanup. now destruct (scratch st). Qed.

Lemma extracted_scratch (garbled : Archive -> Archive * bool)
  (entries : Archive) (st : State) :
  scratch (extracted garbled entries st) <> None.
Proof.
  unfold extracted, extractAPK. destruct (readEntries _ _ _ _). discriminate.
Qed.

Lemma extracted_results (garbled : Archive -> Archive * bool)
  (entries : Archive) (st : State) :
  analysisResults (extracted garbled entries st) = analysisResults st /\
  allVulnerabilities (extracted garbled entries st) = allVulnerabilities st.
Proof.
  unfold extracted, extractAPK. destruct (readEntries _ _ _ _). now split.
Qed.

Lemma world_scratch (st st' : State) :
  world st = world st' -> scratch st = scratch st'.
Proof. unfold world. intros H. now injection H. Qed.

Lemma afterAnalyses_scratch (spreadLimit : nat) (st : State) :
  scratch (afterAnalyses spreadLimit analyses st) = scratch st.
Proof.
  apply world_scratch. apply afterAnalyses_world. apply analyses_wellBehaved.
Qed.

(** On an exceptional exit the extraction directory is gone. *)
Lemma analyzeAPK_thrown_cleans (env : Env) (st st' : State) (e : text) :
  analyzeAPK devModeSource env st = (Thrown e, st') -> scratch st' = None.
Proof.
  rewrite analyzeAPK_paths.
  destruct (apkExists env).
  2:{ intros H. injection H as _ <-. apply cleaned_scratch. }
  destruct (opened env) as [entries|].
  2:{ intros H. injection H as _ <-. apply cleaned_scratch. }
  cbv zeta.
  destruct (fst (extractAPK _ _ _)).
  2:{ intros H. injection H as _ <-. apply cleaned_scratch. }
  destruct (generateDevModeAPK _ _ _) as [[[p|]|e'] st3].
  - destruct (Signer.signApk _ _ _) as [[signed|e'] fs]; intros H;
      [discriminate|]. injection H as _ <-. apply cleaned_scratch.
  - discriminate.
  - intros H. injection H as _ <-. apply cleaned_scratch.
Qed.

(** On a return with a repackaged artifact it is gone as well. *)
Lemma analyzeAPK_signed_cleans (env : Env) (st st' : State) (a : Analysis) (p : text) :
  analyzeAPK devModeSource env st = (Returned a, st') ->
  a_fixedApkPath a = Some p ->
  scratch st' = None.
Proof.
  rewrite analyzeAPK_paths.
  destruct (apkExists env); [|discriminate].
  destruct (opened env) as [entries|]; [|discriminate].
  cbv zeta.
  destruct (fst (extractAPK _ _ _)); [|discriminate].
  destruct (generateDevModeAPK _ _ _) as [[[p'|]|e'] st3].
  - destruct (Signer.signApk _ _ _) as [[signed|e'] fs]; intros H;
      [|discriminate]. injection H as _ <-. intros _. apply cleaned_scratch.
  - intros H. injection H as <- _. discriminate.
  - discriminate.
Qed.

(** On a return without one, the directory that extraction made is still
    there: this path does not call [cleanup]. *)
Lemma analyzeAPK_null_keeps (env : Env) (st : State) (entries : Archive) :
  apkExists env = true ->
  opened env = Some entries ->
  resolves (garbled env) entries st = true ->
  outputDirFails (repackager env) = true ->
  exists a st',
    analyzeAPK devModeSource env st = (Returned a, st') /\
    a_fixedApkPath a = None /\
    scratch st' = scratch (extracted (garbled env) entries st) /\
    scratch st' <> None.
Proof.
  intros Ha Ho Hr Hf. rewrite analyzeAPK_paths, Ha, Ho. cbv zeta.
  unfold resolves in Hr.
  destruct (fst (extractAPK _ _ _)); [|discriminate].
  unfold generateDevModeAPK. rewrite Hf.
  eexists. eexists. split; [reflexivity|]. split; [reflexivity|].
  rewrite afterAnalyses_scratch. split; [reflexivity|apply extracted_scratch].
Qed.

End ExitPaths.

(** C2, at a run in which the archive opens and unpacks, the detectors
    run, and making the output directory fails so that repackaging
    returns null: [analyzeAPK] returns normally, without an artifact, and
    the extraction directory with the unpacked files is still there. *)
Theorem cleanup_skipped_when_repackaging_returns_null :
  exists a st',
    analyzeAPK (fun s => s) (sampleEnv true 1000) sampleAnalyzer
    = (Returned a, st') /\
    a_fixedApkPath a = None /\
    scratch st' =
    Some [ (manifestName, File sampleManifest);
           (lit "classes.dex", File (lit "dex")) ].
Proof.
  assert (Hr : resolves (garbled (sampleEnv true 1000)) sampleArchive
                 sampleAnalyzer = true) by (vm_compute; reflexivity).
  destruct (analyzeAPK_null_keeps (fun s => s) (sampleEnv true 1000)
              sampleAnalyzer sampleArchive eq_refl eq_refl Hr eq_refl)
    as (a & st' & Hrun & Hpath & Hscratch & _).
  exists a, st'. split; [exact Hrun|]. split; [exact Hpath|].
  rewrite Hscratch. vm_compute. reflexivity.
Qed.

(** ** What the pipeline leaves *)

Lemma analyses_cover (c : Category) : exists d, In (c, d) analyses.
Proof.
  destruct c; eexists; unfold analyses;
    repeat first [ left; reflexivity | right ].
Qed.

Lemma store_pushes (c : Category) (noun : text) (scan : State -> Found) :
  pushesWhatItStores (c, fun st => store c (checkOf noun (scan st)) st).
Proof.
  intros st. cbn [fst snd]. rewrite store_result. reflexivity.
Qed.

Lemma assignFixed_pushes (c : Category) (d : string) :
  pushesWhatItStores (c, assignFixed c d).
Proof.
  intros st. cbn [fst snd]. rewrite assignFixed_result.
  unfold assignFixed, withResults, fixedCheck. simpl. now rewrite app_nil_r.
Qed.

Lemma analyses_push : Forall pushesWhatItStores analyses.
Proof.
  unfold analyses.
  constructor.
  { apply (store_pushes reconnaissance (lit "reconnaissance issues")
             (fun st => Recon.scan (scratch st))). }
  constructor.
  { apply (store_pushes xss (lit "XSS vulnerabilities")
             (fun st => XSS.scan (scratch st) (extractedPath st))). }
  repeat (constructor; [apply assignFixed_pushes|]).
  constructor.
Qed.

(** What one call adds to [this.vulnerabilities]: the list of its field,
    or nothing when the push throws. *)
Lemma invoke_pushes (spreadLimit : nat) (a : Category * (State -> State)) (st : State) :
  pushesWhatItStores a ->
  allVulnerabilities (snd (invoke spreadLimit a st))
  = allVulnerabilities st
    ++ (if (length (vulnerabilities (analysisResults (snd a st) (fst a)))
            <=? spreadLimit)%nat
        then vulnerabilities (analysisResults (snd a st) (fst a))
        else []).
Proof.
  intros Hp. rewrite invoke_state. destruct (_ <=? _)%nat.
  - apply Hp.
  - cbn [allVulnerabilities withResults]. now rewrite app_nil_r.
Qed.

Lemma afterAnalyses_pushes (spreadLimit : nat)
  (l : list (Category * (State -> State))) :
  Forall wellBehaved l -> Forall pushesWhatItStores l -> NoDup (map fst l) ->
  forall st,
    allVulnerabilities (afterAnalyses spreadLimit l st) =
    allVulnerabilities st
    ++ concat
         (map (fun a =>
                 if (length (vulnerabilities
                               (analysisResults (afterAnalyses spreadLimit l st) (fst a)))
                     <=? spreadLimit)%nat
                 then vulnerabilities
                        (analysisResults (afterAnalyses spreadLimit l st) (fst a))
                 else [])
            l).
Proof.
  intros Hw. induction Hw as [|a l Ha Hl IH]; intros Hp Hnd st.
  - cbn [map concat]. now rewrite app_nil_r.
  - inversion Hp as [|? ? Hpa Hpl]; subst.
    inversion Hnd as [|? ? Hfresh Hnd']; subst.
    rewrite afterAnalyses_cons. cbn [map concat].
    rewrite (IH Hpl Hnd').
    rewrite (afterAnalyses_untouched spreadLimit l _ (fst a) Hl Hfresh).
    rewrite invoke_results, (invoke_pushes spreadLimit a st Hpa).
    now rewrite <- app_assoc.
Qed.

Lemma pipeline_pushes (spreadLimit : nat) (st : State) :
  allVulnerabilities (afterAnalyses spreadLimit analyses st)
  = allVulnerabilities st
    ++ pushed spreadLimit (analysisResults (afterAnalyses spreadLimit analyses st)).
Proof.
  apply (afterAnalyses_pushes spreadLimit analyses analyses_wellBehaved
           analyses_push analyses_distinct).
Qed.

(** When no list is longer than the spread takes, all are pushed. *)
Lemma pushed_all (spreadLimit : nat) (results : AnalysisResult) :
  (forall c, (length (vulnerabilities (results c)) <= spreadLimit)%nat) ->
  pushed spreadLimit results = flattened results.
Proof.
  intros H. unfold pushed, flattened. f_equal. apply map_ext. intros a.
  destruct (Nat.leb_spec (length (vulnerabilities (results (fst a)))) spreadLimit)
    as [_|Hgt]; [reflexivity|].
  specialize (H (fst a)). lia.
Qed.

(** *** The status of the records *)

Lemma fixedCheck_sound (d : string) : soundCheck (fixedCheck d).
Proof. split; [apply fixedCheck_invariant | discriminate]. Qed.

Lemma checkOf_sound (noun : text) (a : Found) : soundCheck (checkOf noun a).
Proof.
  split; [apply statusOf_invariant|].
  unfold checkOf, statusOf. cbn [status].
  destruct (0 <? _); [destruct (existsb _ _)|]; discriminate.
Qed.

Lemma store_sound (c : Category) (noun : text) (a : Found) (st : State) :
  soundCheck (analysisResults (store c (checkOf noun a) st) c).
Proof. rewrite store_result. apply checkOf_sound. Qed.

Lemma assignFixed_sound (c : Category) (d : string) (st : State) :
  soundCheck (analysisResults (assignFixed c d st) c).
Proof. rewrite assignFixed_result. apply fixedCheck_sound. Qed.

Lemma analyses_sound (c : Category) (d : State -> State) (st : State) :
  In (c, d) analyses -> soundCheck (analysisResults (d st) c).
Proof.
  intros Hin. unfold analyses in Hin. simpl in Hin.
  repeat (destruct Hin as [Hin|Hin];
          [injection Hin as <- <-;
           first [ apply store_sound | apply assignFixed_sound ]|]).
  contradiction.
Qed.

(** A sound record with a vulnerability is not a passed one. *)
Lemma sound_nonempty (r : SecurityCheck) :
  soundCheck r -> vulnerabilities r <> [] ->
  status r <> Status.passed /\ 0 < issueCount r.
Proof.
  intros [(Hc & Hw & _ & Hn) _] Hne.
  assert (Hpos : 0 < issueCount r).
  { rewrite Hn. destruct (vulnerabilities r); [congruence|]. cbn [length]. lia. }
  split; [|exact Hpos]. intros Hs.
  assert (Hno : ~ hasSevere (vulnerabilities r)).
  { intros Hsev. apply Hc in Hsev. congruence. }
  apply (Hw Hno) in Hpos. congruence.
Qed.

(** ** How a run of the analyzer and of the job ends *)

Section JobFacts.

Variable devModeSource : text -> text.

Lemma devModeEntries_none (t : option Tree) (root : text) :
  devModeEntries devModeSource t root = None <-> manifestIsDirectory t = true.
Proof.
  unfold devModeEntries, manifestIsDirectory.
  destruct (match t with Some t0 => lookup manifestName t0 | None => None end)
    as [[c|items]|]; split; intros H; try discriminate; reflexivity.
Qed.

(** [generateDevModeAPK] by its result. *)
Lemma generateDevModeAPK_outcome (r : Repackager) (st : State) :
  match generateDevModeAPK devModeSource r st with
  | (Returned None, st') => outputDirFails r = true /\ st' = st
  | (Returned (Some p), st') =>
      outputDirFails r = false /\
      manifestIsDirectory (scratch st) = false /\
      archiveFails r = false /\
      p = fixedApkPathAt (repackagedAt r) (apkPath st) /\
      exists archive,
        devModeEntries devModeSource (scratch st) (extractedPath st) = Some archive /\
        st' = withArchives st (writeFile p archive (files st))
  | (Thrown _, st') =>
      outputDirFails r = false /\
      (manifestIsDirectory (scratch st) = true \/ archiveFails r = true)
  end.
Proof.
  unfold generateDevModeAPK.
  destruct (outputDirFails r); [now split|].
  destruct (devModeEntries devModeSource (scratch st) (extractedPath st))
    as [archive|] eqn:Ed.
  - assert (Hm : manifestIsDirectory (scratch st) = false).
    { destruct (manifestIsDirectory (scratch st)) eqn:Em; [|reflexivity].
      apply (devModeEntries_none _ (extractedPath st)) in Em. congruence. }
    destruct (archiveFails r).
    + split; [reflexivity|]. now right.
    + repeat split; try assumption. now exists archive.
  - split; [reflexivity|]. left. now apply (devModeEntries_none _ (extractedPath st)).
Qed.

Lemma extracted_paths (garbled : Archive -> Archive * bool)
  (entries : Archive) (st : State) :
  apkPath (extracted garbled entries st) = apkPath st /\
  extractedPath (extracted garbled entries st) = extractedPath st /\
  files (extracted garbled entries st) = files st.
Proof.
  unfold extracted, extractAPK. destruct (readEntries _ _ _ _). now repeat split.
Qed.

Lemma world_extractedPath (st st' : State) :
  world st = world st' -> extractedPath st = extractedPath st'.
Proof. unfold world. intros H. now injection H. Qed.

Lemma world_apkPath (st st' : State) :
  world st = world st' -> apkPath st = apkPath st'.
Proof. unfold world. intros H. now injection H. Qed.

Lemma cleaned_files (st : State) : files (cleaned st) = files st.
Proof. unfold cleaned, cleanup. now destruct (scratch st). Qed.

(** [analyzeAPK] by its result: it returns exactly in the runs
    [returns] describes, and then with what the pipeline left. *)
Lemma analyzeAPK_outcome (env : Env) (st : State) :
  match analyzeAPK devModeSource env st with
  | (Returned a, st') =>
      returns env st = true /\
      exists entries,
        opened env = Some entries /\
        a_analysisResults a =
        analysisResults (afterAnalyses (spreadLimit env) analyses
                           (extracted (garbled env) entries st)) /\
        a_vulnerabilities a =
        allVulnerabilities (afterAnalyses (spreadLimit env) analyses
                              (extracted (garbled env) entries st)) /\
        a_packageInfo a = parsedManifest env st
  | (Thrown _, st') => returns env st = false
  end.
Proof.
  rewrite analyzeAPK_paths. unfold returns, resolves, parsedManifest.
  destruct (apkExists env); [|reflexivity].
  destruct (opened env) as [entries|]; [|reflexivity].
  cbv zeta. cbn [andb].
  destruct (fst (extractAPK (garbled env) (Some entries) st)) as [u|e];
    [|reflexivity].
  cbn [andb].
  pose proof (generateDevModeAPK_outcome (repackager env)
                (afterAnalyses (spreadLimit env) analyses
                   (extracted (garbled env) entries st))) as Hg.
  pose proof (generateDevModeAPK_frame devModeSource (repackager env)
                (afterAnalyses (spreadLimit env) analyses
                   (extracted (garbled env) entries st))) as (Hr & Hv & _).
  rewrite afterAnalyses_scratch in Hg.
  destruct (generateDevModeAPK _ _ _) as [[[p|]|e'] st3]; cbn [snd] in Hr, Hv.
  - destruct Hg as (Hd & Hm & Ha & _).
    destruct (signApk_returns
                (Signer.withDirectory (tools env) (PathParts.dirname p))
                p (files st3)) as (signed & fs' & Hs).
    rewrite Hs, Hd, Hm, Ha. split; [reflexivity|].
    exists entries. split; [reflexivity|].
    cbn [a_analysisResults a_vulnerabilities a_packageInfo analysisOf].
    destruct (cleaned_results (withArchives st3 fs')) as [-> ->].
    cbn [analysisResults allVulnerabilities withArchives]. now repeat split.
  - destruct Hg as (Hd & _). rewrite Hd. split; [reflexivity|].
    exists entries. split; [reflexivity|].
    cbn [a_analysisResults a_vulnerabilities a_packageInfo analysisOf].
    now repeat split.
  - destruct Hg as (Hd & [Hm|Ha]); rewrite Hd; [rewrite Hm|rewrite Ha];
      cbn [orb negb andb]; [reflexivity|apply andb_false_r].
Qed.

(** The record of a job: that of a failed run, or that of a completed
    one with what the pipeline left. *)
Lemma performAnalysis_cases
  (env : Env) (filePath : text) (now : N) (fs : Files) :
  (completes env (newAnalyzer filePath now fs) = false /\
   fst (Job.performAnalysis devModeSource env filePath now fs) = Job.failedRecord)
  \/ (completes env (newAnalyzer filePath now fs) = true /\
      exists a fields entries,
        fst (Job.performAnalysis devModeSource env filePath now fs)
        = completedRecord a fields /\
        opened env = Some entries /\
        a_analysisResults a =
        analysisResults (afterAnalyses (spreadLimit env) analyses
                           (extracted (garbled env) entries
                              (newAnalyzer filePath now fs))) /\
        a_vulnerabilities a =
        allVulnerabilities (afterAnalyses (spreadLimit env) analyses
                              (extracted (garbled env) entries
                                 (newAnalyzer filePath now fs)))).
Proof.
  unfold Job.performAnalysis, completes.
  pose proof (analyzeAPK_outcome env (newAnalyzer filePath now fs)) as H.
  destruct (analyzeAPK devModeSource env (newAnalyzer filePath now fs))
    as [[a|e] st'].
  - destruct H as (Hret & entries & Ho & Hres & Hvs & Hpkg).
    rewrite Hret, <- Hpkg. cbn [andb].
    destruct (Job.packageFields (a_packageInfo a)) as [fields|e].
    + right. split; [reflexivity|]. exists a, fields, entries.
      now repeat split.
    + left. now split.
  - rewrite H. left. now split.
Qed.

(** What the pipeline left in the record of a completed job. *)
Lemma completed_results (env : Env) (entries : Archive) (st : State) :
  analysisResults st = initializeAnalysisResults ->
  allVulnerabilities st = [] ->
  let st2 := afterAnalyses (spreadLimit env) analyses
               (extracted (garbled env) entries st) in
  (forall c d, In (c, d) analyses ->
     analysisResults st2 c
     = analysisResults (d (extracted (garbled env) entries st)) c) /\
  (forall c, soundCheck (analysisResults st2 c)) /\
  allVulnerabilities st2 = pushed (spreadLimit env) (analysisResults st2).
Proof.
  intros Hr0 Hv0 st2.
  assert (Hres : forall c d, In (c, d) analyses ->
            analysisResults st2 c
            = analysisResults (d (extracted (garbled env) entries st)) c).
  { intros c d Hin.
    apply (afterAnalyses_result (spreadLimit env) analyses analyses_wellBehaved
             analyses_distinct _ c d Hin). }
  split; [exact Hres|]. split.
  - intros c. destruct (analyses_cover c) as [d Hd].
    rewrite (Hres c d Hd). now apply analyses_sound.
  - unfold st2. rewrite pipeline_pushes.
    destruct (extracted_results (garbled env) entries st) as [_ ->].
    rewrite Hv0. apply app_nil_l.
Qed.


End JobFacts.


(** The same in small, were calls to take two arguments only: the push
    of the reconnaissance detector, which finds three vulnerabilities in
    the sample archive, throws; its field holds its record, and its
    vulnerabilities are not in the list of the job. *)
Example failing_reconnaissance :
  let env := sampleEnv false 2 in
  let job :=
    fst (Job.performAnalysis (fun s => s) env
           (lit "/srv/uploads/17-app.apk") 17 (fun _ => None)) in
  (exists e,
     fst (invoke (spreadLimit env) (reconnaissance, analyzeReconnaissance)
            (extracted (garbled env) sampleArchive sampleAnalyzer))
     = Thrown e) /\
  Job.analysisStatus job = Job.completed /\
  option_map (fun res => status (res reconnaissance)) (Job.analysisResults job)
  = Some Status.critical /\
  option_map (fun res => issueCount (res reconnaissance)) (Job.analysisResults job)
  = Some 3 /\
  option_map (fun res => details (res csrf)) (Job.analysisResults job)
  = Some (lit "CSRF analysis completed") /\
  Job.vulnerabilities job = Some [] /\
  Job.securityScore job = Some 100.
Proof.
  split; [eexists; vm_compute; reflexivity|]. vm_compute. repeat split.
Qed.

Example working_reconnaissance :
  let job :=
    fst (Job.performAnalysis (fun s => s) (sampleEnv false 1000)
           (lit "/srv/uploads/17-app.apk") 17 (fun _ => None)) in
  Job.analysisStatus job = Job.completed /\
  option_map (fun res => status (res reconnaissance)) (Job.analysisResults job)
  = Some Status.critical /\
  Job.securityScore job = Some 74 /\
  Job.fixedApkPath job = Some (lit "fixed_apks/dev_mode_18_17-app_signed.apk").
Proof. vm_compute. repeat split. Qed.

(** ** Signing never fails *)

Lemma writeFile_same (p : text) (c : Archive) (fs : Files) :
  writeFile p c fs p = Some c.
Proof. unfold writeFile. now rewrite text_eqb_refl. Qed.

Lemma writeFile_other (p q : text) (c : Archive) (fs : Files) :
  q <> p -> writeFile p c fs q = fs q.
Proof.
  intros H. unfold writeFile. destruct (text_eqb q p) eqn:E; [|reflexivity].
  apply text_eqb_eq in E. contradiction.
Qed.

Lemma removeFile_other (p q : text) (fs : Files) :
  q <> p -> removeFile p fs q = fs q.
Proof.
  intros H. unfold removeFile. destruct (text_eqb q p) eqn:E; [|reflexivity].
  apply text_eqb_eq in E. contradiction.
Qed.

Lemma removeFile_same (p : text) (fs : Files) : removeFile p fs p = None.
Proof. unfold removeFile. now rewrite text_eqb_refl. Qed.

Lemma writeFile_keeps (p q : text) (c : Archive) (fs : Files) :
  isFile fs q = true -> isFile (writeFile p c fs) q = true.
Proof. unfold isFile, writeFile. now destruct (text_eqb q p). Qed.

(** [alignApk] on an input that exists: the output of the tool or a copy
    of the input when the output can be made, ENOENT from the copy
    when not. *)
Lemma alignApk_cases (tools : Signer.Tools) (input output : text)
  (c : Archive) (fs : Files) :
  fs input = Some c ->
  Signer.alignApk tools input output fs
  = if Signer.writable tools output
    then (Returned tt, writeFile output (alignedContent tools c) fs)
    else (Thrown (lit "ENOENT"), fs).
Proof.
  intros Hin.
  unfold Signer.alignApk, tryCatch, Signer.exec, Signer.copyFileSync, alignedContent.
  rewrite Hin.
  destruct (Signer.zipalign tools c); destruct (Signer.writable tools output);
    cbv beta; rewrite ?Hin; reflexivity.
Qed.

(** A run of [signApk] on an input that exists, in full. *)
Lemma signApk_run (tools : Signer.Tools) (p : text) (c : Archive) (fs : Files) :
  fs p = Some c ->
  Signer.signApk tools p fs
  = (Returned (fst (signedRun tools p c fs)), snd (signedRun tools p c fs)).
Proof.
  intros Hin. unfold Signer.signApk, signedRun.
  fold (signedPathOf p). fold (alignedPathOf p).
  set (signed := signedPathOf p). set (aligned := alignedPathOf p).
  unfold tryCatch, andThen, Signer.existsSync at 1, isFile at 1. rewrite Hin.
  unfold pure at 1.
  rewrite (alignApk_cases tools p aligned c fs Hin).
  set (a := alignedContent tools c). cbv zeta.
  destruct (Signer.writable tools aligned) eqn:Hwa; [|reflexivity].
  destruct (Signer.keystoreExists tools).
  - unfold Signer.exec at 1. rewrite writeFile_same.
    destruct (Signer.jarsigner tools a) as [s|] eqn:Ej.
    + rewrite Hwa.
      unfold Signer.existsSync. unfold isFile at 1. rewrite writeFile_same.
      destruct (isFile (writeFile aligned s (writeFile aligned a fs)) signed);
        cbn [andb negb].
      * reflexivity.
      * unfold Signer.renameSync. rewrite writeFile_same.
        destruct (Signer.writable tools signed); reflexivity.
    + unfold Signer.copyFileSync at 1. cbv beta. rewrite writeFile_same.
      destruct (Signer.writable tools signed); [|reflexivity].
      unfold Signer.existsSync, isFile. rewrite writeFile_same.
      rewrite andb_false_r. reflexivity.
  - unfold Signer.copyFileSync at 1. rewrite writeFile_same.
    destruct (Signer.writable tools signed); [|reflexivity].
    unfold Signer.existsSync, isFile. rewrite writeFile_same.
    rewrite andb_false_r. reflexivity.
Qed.

Lemma signApk_missing (tools : Signer.Tools) (p : text) (fs : Files) :
  fs p = None -> Signer.signApk tools p fs = (Returned p, fs).
Proof.
  intros Hin. unfold Signer.signApk, tryCatch, andThen, Signer.existsSync, isFile.
  now rewrite Hin.
Qed.

(** With both directories there, the signed path is returned. *)
Lemma signedRun_writable (tools : Signer.Tools) (p : text) (c : Archive) (fs : Files) :
  Signer.writable tools (alignedPathOf p) = true ->
  Signer.writable tools (signedPathOf p) = true ->
  signedRun tools p c fs = (signedPathOf p, signedFiles tools p c fs).
Proof.
  intros Hwa Hws. unfold signedRun, signedFiles. rewrite Hwa, Hws. cbv zeta.
  destruct (if Signer.keystoreExists tools then _ else None); [|reflexivity].
  now destruct (isFile _ _).
Qed.

(** The path returned is the input path or the signed path, and that of
    a file. *)
Lemma signedRun_file (tools : Signer.Tools) (p : text) (c : Archive) (fs : Files) :
  fs p = Some c ->
  (fst (signedRun tools p c fs) = p \/ fst (signedRun tools p c fs) = signedPathOf p) /\
  isFile (snd (signedRun tools p c fs)) (fst (signedRun tools p c fs)) = true.
Proof.
  intros Hin.
  assert (Hp : isFile fs p = true) by (unfold isFile; now rewrite Hin).
  unfold signedRun. cbv zeta.
  destruct (Signer.writable tools (alignedPathOf p)); [|now split; [left|]].
  destruct (if Signer.keystoreExists tools then _ else None) as [s|].
  - destruct (isFile _ (signedPathOf p)) eqn:Es; [now split; [right|]|].
    destruct (Signer.writable tools (signedPathOf p)); cbn [fst snd].
    + split; [now right|]. unfold isFile. now rewrite writeFile_same.
    + split; [now left|]. now apply writeFile_keeps, writeFile_keeps.
  - destruct (Signer.writable tools (signedPathOf p)); cbn [fst snd].
    + split; [now right|]. unfold isFile. now rewrite writeFile_same.
    + split; [now left|]. now apply writeFile_keeps.
Qed.

(** When signing fails or the keystore is missing, the signed path holds
    the aligned archive. *)
Lemma signedFiles_unsigned (tools : Signer.Tools) (p : text) (c : Archive) (fs : Files) :
  Signer.keystoreExists tools = false
  \/ Signer.jarsigner tools (alignedContent tools c) = None ->
  signedFiles tools p c fs (signedPathOf p) = Some (alignedContent tools c).
Proof.
  intros H. unfold signedFiles. cbv zeta.
  assert (E : (if Signer.keystoreExists tools
               then Signer.jarsigner tools (alignedContent tools c) else None) = None).
  { destruct H as [-> | H]; [reflexivity|]. rewrite H.
    now destruct (Signer.keystoreExists tools). }
  rewrite E. apply writeFile_same.
Qed.




(** ** Repackaging without a manifest *)

Lemma entriesAt_Dir (itemPath item : text) (sub : list (text * Node)) :
  entriesAt itemPath item (Dir sub) = treeEntries itemPath sub.
Proof.
  simpl. induction sub as [|[i n] rest IH]; simpl; [reflexivity|]. now rewrite IH.
Qed.

Lemma addItem_Dir (itemPath item : text) (sub : list (text * Node)) :
  addItem itemPath item (Dir sub) = addDirectory itemPath sub.
Proof.
  simpl. induction sub as [|[i n] rest IH]; simpl; [reflexivity|]. now rewrite IH.
Qed.

Lemma passedEntries_app (es fs : list (text * text * text)) :
  passedEntries (es ++ fs) = passedEntries es ++ passedEntries fs.
Proof. unfold passedEntries. now rewrite filter_app, map_app. Qed.

Lemma addItem_entries (node : Node) :
  forall itemPath item,
    addItem itemPath item node = passedEntries (entriesAt itemPath item node).
Proof.
  induction node as [content | items IH] using Node_nested_ind; intros itemPath item.
  - unfold passedEntries. simpl. now destruct (passedThrough item).
  - rewrite addItem_Dir, entriesAt_Dir.
    induction IH as [|[i n] rest Hn _ IHrest]; [reflexivity|].
    simpl. rewrite passedEntries_app, IHrest. f_equal. apply Hn.
Qed.

Lemma addDirectory_entries (archivePath : text) (items : list (text * Node)) :
  addDirectory archivePath items = passedEntries (treeEntries archivePath items).
Proof.
  induction items as [|[i n] rest IH]; [reflexivity|].
  simpl. now rewrite passedEntries_app, IH, addItem_entries.
Qed.

Lemma passedEntries_in (es : list (text * text * text)) (path content : text) :
  In (path, content) (passedEntries es) <->
  exists item, In (item, path, content) es /\ passedThrough item = true.
Proof.
  unfold passedEntries. rewrite in_map_iff. split.
  - intros ([[item p] c] & Heq & Hin). simpl in Heq. injection Heq as -> ->.
    apply filter_In in Hin. simpl in Hin. now exists item.
  - intros (item & Hin & Hp). exists (item, path, content). split; [reflexivity|].
    apply filter_In. now split.
Qed.




(** ** Where extraction writes *)

Section OutputPaths.
Import Path PathFacts.

Variable rs : list text.
Hypothesis rs_nonempty : rs <> [].
Hypothesis rs_proper : Forall (fun s => properSegment s = true) rs.

Lemma outputPath_below (fileName : text) :
  noParentSegment fileName ->
  exists x, outputPath (absolute rs) fileName = absolute rs ++ x /\
            (x = [] \/ exists y, x = slash :: y).
Proof.
  intros Hname. unfold outputPath, join.
  pose proof (absolute_nonempty rs rs_nonempty) as Hroot.
  destruct (absolute rs) as [|r0 root'] eqn:Eroot; [congruence|].
  rewrite <- Eroot.
  destruct fileName as [|n0 name'].
  - exists []. rewrite app_nil_r. split; [|now left].
    now apply normalize_absolute.
  - destruct (normalize_below rs (n0 :: name') rs_nonempty rs_proper Hname)
      as (tail & Hn & Htail).
    rewrite Hn. exists (absolute (filter kept (split (n0 :: name'))) ++ tail).
    split; [reflexivity|].
    destruct (filter kept (split (n0 :: name'))) as [|s l].
    + destruct Htail as [->| ->]; [now left|right; now exists []].
    + right. eexists. reflexivity.
Qed.

Lemma outputPath_inside_root (fileName : text) :
  noParentSegment fileName ->
  inside (absolute rs) (outputPath (absolute rs) fileName) = true.
Proof.
  intros Hname. destruct (outputPath_below fileName Hname) as (x & -> & Hx).
  now apply inside_below.
Qed.

Lemma onEntry_stays_inside (files : Tree * list (text * text))
  (entry : text * text) :
  noParentSegment (fst entry) ->
  snd (onEntry (absolute rs) files entry) = snd files.
Proof.
  intros Hname. destruct entry as [fileName data], files as [tree elsewhere].
  unfold onEntry. cbn [fst snd] in *.
  destruct (isDirectoryEntry fileName); [reflexivity|].
  pose proof (outputPath_inside_root fileName Hname) as Hin.
  unfold inside in Hin.
  destruct (text_eqb (outputPath (absolute rs) fileName) (absolute rs));
    [reflexivity|].
  simpl in Hin. now rewrite Hin.
Qed.

Lemma valid_noParentSegment (fileName : text) :
  validFileName fileName = true -> noParentSegment fileName.
Proof.
  unfold validFileName, noParentSegment. intros H Hin.
  apply andb_true_iff in H. destruct H as [_ H].
  apply negb_true_iff in H.
  assert (E : existsb (text_eqb Path.dotdot) (Path.split fileName) = true).
  { apply existsb_exists. exists Path.dotdot. split; [exact Hin|].
    apply text_eqb_refl. }
  congruence.
Qed.

Lemma deliver_stays_inside (delivered : Archive) (ends : bool) :
  forall files,
    snd (snd (deliver (absolute rs) delivered ends files)) = snd files.
Proof.
  induction delivered as [|entry rest IH]; intros files; [reflexivity|].
  cbn [deliver].
  destruct (validFileName (unixName (fst entry))) eqn:Ev; [|reflexivity].
  rewrite IH.
  apply (onEntry_stays_inside files (unixName (fst entry), snd entry)).
  now apply valid_noParentSegment.
Qed.

Lemma readEntries_stays_inside (garbled : Archive -> Archive * bool)
  (entries : Archive) :
  forall files,
    snd (snd (readEntries garbled (absolute rs) entries files)) = snd files.
Proof.
  induction entries as [|entry rest IH]; intros files; [reflexivity|].
  cbn [readEntries].
  destruct (validFileName (unixName (fst entry))) eqn:Ev; [|reflexivity].
  destruct (streamFails _ _ _).
  - destruct rest as [|e rest']; [reflexivity|].
    destruct (garbled (e :: rest')) as [delivered ends].
    apply deliver_stays_inside.
  - rewrite IH.
    apply (onEntry_stays_inside files (unixName (fst entry), snd entry)).
    now apply valid_noParentSegment.
Qed.

End OutputPaths.

(** The reader turns down a name with a [..] segment or a leading
    separator. *)
Lemma climbing_name_invalid (fileName : text) :
  In Path.dotdot (Path.split fileName) \/ Path.isAbsolute fileName = true ->
  validFileName fileName = false.
Proof.
  intros [H|H]; unfold validFileName.
  - assert (E : existsb (text_eqb Path.dotdot) (Path.split fileName) = true).
    { apply existsb_exists. exists Path.dotdot. split; [exact H|].
      apply text_eqb_refl. }
    rewrite E. apply andb_false_r.
  - rewrite H. cbn [negb]. now rewrite andb_false_r.
Qed.

(** C1.  The extraction directory being an absolute, normalized path,
    as the job makes it: whatever the archive holds, extraction writes no
    file anywhere but below that directory.  The reader hands an entry
    over only when its name, backslashes turned into slashes, has no
    [..] segment, no leading separator and no drive letter, and for such a
    name the path that is written is the directory or lies below it; an
    archive that starts with an entry of any other name is turned down
    with nothing written. *)
Theorem extraction_never_writes_outside
  (garbled : Archive -> Archive * bool) (rs : list text)
  (entries : Archive) (st : State) :
  rs <> [] ->
  Forall (fun s => Path.properSegment s = true) rs ->
  extractedPath st = Path.absolute rs ->
  outside (extracted garbled entries st) = outside st /\
  (forall fileName,
     validFileName (unixName fileName) = true ->
     Path.inside (Path.absolute rs)
       (outputPath (Path.absolute rs) (unixName fileName)) = true) /\
  (forall fileName,
     In Path.dotdot (Path.split (unixName fileName))
     \/ Path.isAbsolute (unixName fileName) = true ->
     validFileName (unixName fileName) = false) /\
  (forall entry rest,
     entries = entry :: rest ->
     validFileName (unixName (fst entry)) = false ->
     exists e,
       extractAPK garbled (Some entries) st
       = (Thrown e,
          withFiles st
            (Some (match scratch st with Some t => t | None => [] end))
            (outside st))).
Proof.
  intros Hne Hrs Hroot. split; [|split; [|split]].
  - unfold extracted, extractAPK. rewrite Hroot.
    pose proof (readEntries_stays_inside rs Hne Hrs garbled entries
                  (match scratch st with Some t => t | None => [] end, outside st))
      as H.
    destruct (readEntries _ _ _ _) as [result files]. exact H.
  - intros fileName Hv. apply outputPath_inside_root; try assumption.
    now apply valid_noParentSegment.
  - intros fileName. apply climbing_name_invalid.
  - intros entry rest -> Hv. unfold extractAPK. cbn [readEntries].
    rewrite Hv. eexists. reflexivity.
Qed.

Lemma extraction_never_writes_outside_witness :
  extractedPath sampleAnalyzer = sampleRoot /\
  outside (extracted (fun _ => ([], false)) climbingArchive sampleAnalyzer) = [] /\
  validFileName (unixName (lit "../evil.txt")) = false /\
  validFileName (unixName (lit "/etc/passwd")) = false /\
  Path.inside sampleRoot (outputPath sampleRoot (lit "res/layout/main.xml")) = true.
Proof.
  assert (Hroot : extractedPath sampleAnalyzer
                  = Path.absolute [lit "srv"; lit "uploads"; lit "extracted_17"])
    by (vm_compute; reflexivity).
  assert (Hne : [lit "srv"; lit "uploads"; lit "extracted_17"] <> [])
    by discriminate.
  assert (Hrs : Forall (fun s => Path.properSegment s = true)
                  [lit "srv"; lit "uploads"; lit "extracted_17"])
    by (repeat constructor).
  destruct (extraction_never_writes_outside (fun _ => ([], false))
              [lit "srv"; lit "uploads"; lit "extracted_17"]
              climbingArchive sampleAnalyzer Hne Hrs Hroot)
    as (Hout & Hin & Hbad & _).
  split; [vm_compute; reflexivity|]. split; [exact Hout|].
  split; [apply (Hbad (lit "../evil.txt")); left; vm_compute; left; reflexivity|].
  split; [apply (Hbad (lit "/etc/passwd")); right; reflexivity|].
  apply (Hin (lit "res/layout/main.xml")). vm_compute. reflexivity.
Defined.

(** * Further properties of the code *)

(** ** Counts and score of [performAnalysis] *)

Module CountFacts.
Import Score ScoreFacts.

(** The four severity counts split the list: critical issues and warning
    issues together are all the vulnerabilities. *)
Lemma counts_partition (vs : list Vulnerability) :
  criticalCount vs + warningIssues vs = Z.of_nat (length vs).
Proof.
  unfold warningIssues, criticalCount, highCount, mediumCount, lowCount.
  induction vs as [|v vs IH]; [reflexivity|].
  rewrite !countSeverity_cons. simpl length. rewrite Nat2Z.inj_succ.
  destruct (severity v); cbn [Severity_eqb]; lia.
Qed.

Lemma penalty_positive (v : Vulnerability) (vs : list Vulnerability) :
  0 < penalty (v :: vs).
Proof.
  change (penalty (v :: vs)) with (weight (severity v) + penalty vs).
  pose proof (penalty_nonneg vs). destruct (severity v); cbn [weight]; lia.
Qed.

(** Only a list without vulnerabilities scores 100. *)
Lemma securityScore_full_iff_clean (vs : list Vulnerability) :
  securityScore vs = 100 <-> vs = [].
Proof.
  split; [|intros ->; reflexivity].
  rewrite securityScore_penalty. destruct vs as [|v vs]; [reflexivity|].
  pose proof (penalty_positive v vs). lia.
Qed.

End CountFacts.

(** ** The report-level list of vulnerabilities *)

(** The pipeline returns, and it ends with [this.vulnerabilities]
    extended, in pipeline order, by the lists of the categories whose
    push did not throw, the lists that are no longer than a spread takes.
    When no list is longer, that is the lists of all categories put one
    after the other. *)
Theorem pipeline_flattens (spreadLimit : nat) (st : State) :
  exists st',
    runSecurityAnalyses spreadLimit st = (Returned tt, st') /\
    allVulnerabilities st'
    = allVulnerabilities st ++ pushed spreadLimit (analysisResults st') /\
    ((forall c, (length (vulnerabilities (analysisResults st' c)) <= spreadLimit)%nat) ->
     allVulnerabilities st'
     = allVulnerabilities st ++ flattened (analysisResults st')).
Proof.
  exists (afterAnalyses spreadLimit analyses st). split; [|split].
  - unfold runSecurityAnalyses. apply runEach_returns.
  - apply pipeline_pushes.
  - intros Hshort. rewrite pipeline_pushes. f_equal. now apply pushed_all.
Qed.

(** ** How a job ends *)

Section JobOutcome.

Variable devModeSource : text -> text.


End JobOutcome.

(** A manifest with one [uses-permission] element ends the job failed:
    the element is no array. *)
Example single_permission_fails_the_job :
  let run := Job.performAnalysis (fun s => s) singlePermissionEnv
               (lit "/srv/uploads/17-app.apk") 17 (fun _ => None) in
  returns singlePermissionEnv sampleAnalyzer = true /\
  completes singlePermissionEnv sampleAnalyzer = false /\
  fst run = Job.failedRecord.
Proof. vm_compute. repeat split. Qed.

(** A file entry that is to be written where a directory is, with
    entries behind it, ends the job failed as well. *)
Example failed_write_fails_the_job :
  let run := Job.performAnalysis (fun s => s) blockedEnv
               (lit "/srv/uploads/17-app.apk") 17 (fun _ => None) in
  resolves (garbled blockedEnv) blockedArchive sampleAnalyzer = false /\
  completes blockedEnv sampleAnalyzer = false /\
  fst run = Job.failedRecord /\
  scratch (snd run) = None.
Proof. vm_compute. repeat split. Qed.

(** ** What a completed job reports *)

Section JobReport.

Variable devModeSource : text -> text.

(** The record of a completed job: its list of vulnerabilities is, in
    pipeline order, the lists of those of its categories whose push did
    not throw, which are all of them when no list is longer than a
    spread takes; critical and warning issues add up to the length of
    that list, and the score lies in [0, 100] and is 100 exactly when
    the list is empty. *)
Theorem completed_job_is_consistent
  (env : Env) (filePath : text) (now : N) (fs : Files) :
  let job := fst (Job.performAnalysis devModeSource env filePath now fs) in
  Job.analysisStatus job = Job.completed ->
  exists vs res score,
    Job.vulnerabilities job = Some vs /\
    Job.analysisResults job = Some res /\
    Job.securityScore job = Some score /\
    vs = pushed (spreadLimit env) res /\
    ((forall c, (length (vulnerabilities (res c)) <= spreadLimit env)%nat) ->
     vs = flattened res) /\
    Job.criticalIssues job + Job.warningIssues job = Z.of_nat (length vs) /\
    0 <= score <= 100 /\
    (score = 100 <-> vs = []).
Proof.
  intros job. unfold job.
  destruct (performAnalysis_cases devModeSource env filePath now fs)
    as [[_ Hjob]|(_ & a & fields & entries & Hjob & _ & Hres & Hvs)];
    rewrite Hjob; [discriminate|]. intros _.
  destruct (completed_results env entries (newAnalyzer filePath now fs)
              eq_refl eq_refl) as (_ & _ & Hpushed).
  exists (a_vulnerabilities a), (a_analysisResults a),
    (Score.securityScore (a_vulnerabilities a)).
  cbn [completedRecord Job.vulnerabilities Job.analysisResults Job.securityScore
       Job.criticalIssues Job.warningIssues].
  assert (Hvs' : a_vulnerabilities a = pushed (spreadLimit env) (a_analysisResults a)).
  { rewrite Hres, Hvs. exact Hpushed. }
  split; [reflexivity|]. split; [reflexivity|]. split; [reflexivity|].
  split; [exact Hvs'|].
  split; [intros Hshort; rewrite Hvs'; now apply pushed_all|].
  split; [apply CountFacts.counts_partition|].
  split; [apply ScoreFacts.securityScore_range
         |apply CountFacts.securityScore_full_iff_clean].
Qed.

End JobReport.

Lemma completed_job_is_consistent_witness :
  let job := fst (Job.performAnalysis (fun s => s) (sampleEnv false 1000)
                    (lit "/srv/uploads/17-app.apk") 17 (fun _ => None)) in
  Job.analysisStatus job = Job.completed /\
  exists vs res score,
    Job.vulnerabilities job = Some vs /\
    Job.analysisResults job = Some res /\
    Job.securityScore job = Some score /\
    vs = pushed 1000 res /\
    ((forall c, (length (vulnerabilities (res c)) <= 1000)%nat) ->
     vs = flattened res) /\
    Job.criticalIssues job + Job.warningIssues job = Z.of_nat (length vs) /\
    0 <= score <= 100 /\
    (score = 100 <-> vs = []).
Proof.
  assert (H : Job.analysisStatus
                (fst (Job.performAnalysis (fun s => s) (sampleEnv false 1000)
                        (lit "/srv/uploads/17-app.apk") 17 (fun _ => None)))
              = Job.completed) by (vm_compute; reflexivity).
  split; [exact H|].
  exact (completed_job_is_consistent (fun s => s) (sampleEnv false 1000)
           (lit "/srv/uploads/17-app.apk") 17 (fun _ => None) H).
Defined.

(** ** Searching and splitting text *)

Lemma starts_with_skipn (p s : text) :
  starts_with p s = true -> s = p ++ skipn (length p) s.
Proof.
  revert s. induction p as [|a p IH]; intros s H; [reflexivity|].
  destruct s as [|b s]; [discriminate|]. simpl in H.
  apply andb_true_iff in H. destruct H as [Hab Hp].
  apply Ascii.eqb_eq in Hab. subst b. simpl. f_equal. now apply IH.
Qed.

Lemma split_first_some (p s a b : text) :
  split_first p s = Some (a, b) -> s = a ++ p ++ b.
Proof.
  revert a. induction s as [|c s IH]; intros a H.
  - simpl in H. destruct (starts_with p []) eqn:Ep; [|discriminate].
    injection H as <- <-. now apply starts_with_skipn.
  - cbn [split_first] in H. destruct (starts_with p (c :: s)) eqn:Ep.
    + injection H as <- <-. now apply starts_with_skipn.
    + destruct (split_first p s) as [[a' b']|]; [|discriminate].
      injection H as <- <-. simpl. f_equal. now apply IH.
Qed.

Lemma split_first_none (p s : text) :
  split_first p s = None <-> includes s p = false.
Proof.
  induction s as [|c s IH].
  - simpl. destruct (starts_with p []); split; intros H; try discriminate; reflexivity.
  - cbn [split_first includes]. destruct (starts_with p (c :: s)); simpl.
    + split; discriminate.
    + rewrite <- IH. destruct (split_first p s) as [[a b]|]; split; intros H;
        try discriminate; reflexivity.
Qed.

Lemma includes_split_first (p s : text) :
  includes s p = true -> exists a b, split_first p s = Some (a, b).
Proof.
  intros H. destruct (split_first p s) as [[a b]|] eqn:E; [now exists a, b|].
  apply split_first_none in E. congruence.
Qed.

Lemma includes_here (p x : text) : includes (p ++ x) p = true.
Proof.
  destruct p as [|a p]; [destruct x; reflexivity|].
  cbn [app includes]. change (a :: p ++ x) with ((a :: p) ++ x).
  now rewrite starts_with_app.
Qed.

Lemma includes_later (a s p : text) :
  includes s p = true -> includes (a ++ s) p = true.
Proof.
  intros H. induction a as [|c a IH]; [exact H|].
  cbn [app includes]. rewrite IH. apply orb_true_r.
Qed.

Lemma includes_iff (s p : text) :
  includes s p = true <-> exists a b, s = a ++ p ++ b.
Proof.
  split.
  - intros H. destruct (includes_split_first p s H) as (a & b & E).
    exists a, b. now apply split_first_some.
  - intros (a & b & ->). apply includes_later, includes_here.
Qed.

(** ** What signing leaves on disk *)

Lemma replaced_path_differs (p r r' : text) :
  includes p Signer.dotApk = true ->
  (forall x, r ++ x <> r' ++ x) ->
  replace_first Signer.dotApk r p <> replace_first Signer.dotApk r' p.
Proof.
  intros Hin Hne. unfold replace_first.
  destruct (includes_split_first _ _ Hin) as (a & b & ->).
  intros H. apply app_inv_head in H. now apply Hne in H.
Qed.

Lemma signing_paths_differ (p : text) :
  includes p Signer.dotApk = true ->
  signedPathOf p <> alignedPathOf p /\
  signedPathOf p <> p /\
  alignedPathOf p <> p.
Proof.
  intros Hin. unfold signedPathOf, alignedPathOf. repeat split.
  - apply replaced_path_differs; [exact Hin|]. intros x. discriminate.
  - unfold replace_first.
    destruct (includes_split_first _ _ Hin) as (a & b & E). rewrite E.
    apply split_first_some in E. intros H. rewrite E in H.
    apply app_inv_head in H. discriminate.
  - unfold replace_first.
    destruct (includes_split_first _ _ Hin) as (a & b & E). rewrite E.
    apply split_first_some in E. intros H. rewrite E in H.
    apply app_inv_head in H. discriminate.
Qed.

(** Whatever the run, only the aligned and the signed path change. *)
Lemma signedRun_frame (tools : Signer.Tools) (p : text) (c : Archive) (fs : Files)
  (q : text) :
  q <> signedPathOf p -> q <> alignedPathOf p ->
  snd (signedRun tools p c fs) q = fs q.
Proof.
  intros Hs Ha. unfold signedRun. cbv zeta.
  destruct (Signer.writable tools (alignedPathOf p)); [|reflexivity].
  destruct (if Signer.keystoreExists tools
            then Signer.jarsigner tools (alignedContent tools c) else None)
    as [s|].
  - destruct (isFile _ (signedPathOf p)); cbn [snd].
    + now rewrite !writeFile_other by assumption.
    + destruct (Signer.writable tools (signedPathOf p)); cbn [snd].
      * rewrite writeFile_other, removeFile_other by assumption.
        now rewrite !writeFile_other by assumption.
      * now rewrite !writeFile_other by assumption.
  - destruct (Signer.writable tools (signedPathOf p)); cbn [snd];
      now rewrite !writeFile_other by assumption.
Qed.

(** Given a path at which there is no file, [signApk] returns that path
    and changes nothing. *)
Theorem signApk_missing_input (tools : Signer.Tools) (p : text) (fs : Files) :
  fs p = None -> Signer.signApk tools p fs = (Returned p, fs).
Proof.
  intros Hin. unfold Signer.signApk, tryCatch, andThen, Signer.existsSync, isFile.
  now rewrite Hin.
Qed.

Lemma signApk_missing_input_witness :
  sampleFiles (lit "nowhere.apk") = None /\
  Signer.signApk sampleTools (lit "nowhere.apk") sampleFiles
  = (Returned (lit "nowhere.apk"), sampleFiles).
Proof.
  split; [reflexivity|].
  apply (signApk_missing_input sampleTools (lit "nowhere.apk") sampleFiles).
  reflexivity.
Defined.


(** When both tools work, the keystore is there, the input path contains
    [.apk], no file sits at the signed path yet and the directory of the
    aligned path exists: if that of the signed path exists as well, the
    file returned is the aligned archive signed, and the aligned copy is
    gone; if it does not, the rename fails, the input path is returned and
    the signed archive stays at the aligned path.  The input is left as
    it was. *)
Theorem signApk_signs (tools : Signer.Tools) (p : text) (c a s : Archive) (fs : Files) :
  fs p = Some c ->
  includes p Signer.dotApk = true ->
  fs (signedPathOf p) = None ->
  Signer.zipalign tools c = Some a ->
  Signer.keystoreExists tools = true ->
  Signer.jarsigner tools a = Some s ->
  Signer.writable tools (alignedPathOf p) = true ->
  exists fs',
    Signer.signApk tools p fs
    = (Returned (if Signer.writable tools (signedPathOf p)
                 then signedPathOf p else p), fs') /\
    fs' (signedPathOf p)
    = (if Signer.writable tools (signedPathOf p) then Some s else None) /\
    fs' (alignedPathOf p)
    = (if Signer.writable tools (signedPathOf p) then None else Some s) /\
    fs' p = Some c.
Proof.
  intros Hin Hdot Hfree Hz Hk Hj Hwa.
  destruct (signing_paths_differ p Hdot) as (Hsa & Hsp & Hap).
  exists (snd (signedRun tools p c fs)).
  rewrite (signApk_run tools p c fs Hin).
  unfold signedRun, alignedContent. rewrite Hwa, Hz, Hk, Hj. cbv zeta.
  unfold isFile. rewrite !(writeFile_other _ (signedPathOf p)) by assumption.
  rewrite Hfree.
  destruct (Signer.writable tools (signedPathOf p)); cbn [fst snd].
  - split; [reflexivity|]. split; [apply writeFile_same|]. split.
    + rewrite writeFile_other by congruence. apply removeFile_same.
    + rewrite writeFile_other, removeFile_other by congruence.
      rewrite !writeFile_other by congruence. exact Hin.
  - split; [reflexivity|]. split.
    + rewrite !writeFile_other by assumption. exact Hfree.
    + split; [apply writeFile_same|].
      rewrite !writeFile_other by congruence. exact Hin.
Qed.

Lemma signApk_signs_witness :
  sampleFiles samplePath = Some sampleArchive /\
  exists fs',
    Signer.signApk sampleTools samplePath sampleFiles
    = (Returned (signedPathOf samplePath), fs') /\
    fs' (signedPathOf samplePath)
    = Some (sampleArchive ++ [(lit "META-INF/CERT.RSA", lit "signature")]) /\
    fs' (alignedPathOf samplePath) = None /\
    fs' samplePath = Some sampleArchive.
Proof.
  split; [vm_compute; reflexivity|].
  apply (signApk_signs sampleTools samplePath sampleArchive sampleArchive
           (sampleArchive ++ [(lit "META-INF/CERT.RSA", lit "signature")])
           sampleFiles); vm_compute; reflexivity.
Defined.

(** The same tools and archive where the directory of the signed path
    is missing: the input path is returned. *)
Example signApk_cannot_rename :
  let tools :=
    {| Signer.zipalign := fun a => Some a;
       Signer.jarsigner := fun a => Some (a ++ [(lit "META-INF/CERT.RSA", lit "signature")]);
       Signer.keystoreExists := true;
       Signer.directoryExists := fun d => text_eqb d (lit "a_aligned.apk") |} in
  let fs := writeFile (lit "a.apk/b") sampleArchive (fun _ => None) in
  signedPathOf (lit "a.apk/b") = lit "a_signed.apk/b" /\
  fst (Signer.signApk tools (lit "a.apk/b") fs) = Returned (lit "a.apk/b") /\
  snd (Signer.signApk tools (lit "a.apk/b") fs) (lit "a_signed.apk/b") = None.
Proof. vm_compute. repeat split. Qed.

(** ** Cleanup and extraction, step by step *)

(** [cleanup] never throws and removes the extraction directory with all
    it holds; nothing else changes. *)
Theorem cleanup_only_removes_scratch (st : State) :
  cleanup st = (Returned tt, withFiles st None (outside st)).
Proof.
  unfold cleanup. destruct (scratch st) as [t|] eqn:E.
  - now rewrite removeDirectory_gone.
  - f_equal. destruct st. simpl in *. now subst.
Qed.

Section FailedStart.

Variable devModeSource : text -> text.

(** When the uploaded file is gone or the archive cannot be opened, the
    job fails, and no extraction directory, no extracted file and no
    output archive is left behind. *)
Theorem job_fails_without_archive
  (env : Env) (filePath : text) (now : N) (fs : Files) :
  apkExists env = false \/ opened env = None ->
  let run := Job.performAnalysis devModeSource env filePath now fs in
  Job.analysisStatus (fst run) = Job.failed /\
  Job.fixedApkPath (fst run) = None /\
  snd run = newAnalyzer filePath now fs.
Proof.
  intros H run. unfold run, Job.performAnalysis. rewrite analyzeAPK_paths.
  assert (Hclean : cleaned (newAnalyzer filePath now fs) = newAnalyzer filePath now fs)
    by reflexivity.
  destruct (apkExists env).
  - destruct H as [H|H]; [discriminate|]. rewrite H. rewrite Hclean. now repeat split.
  - rewrite Hclean. now repeat split.
Qed.

End FailedStart.

Lemma job_fails_without_archive_witness :
  let env := {| apkExists := true; opened := None;
                garbled := fun _ => ([], false); xml2js := fun _ => None;
                spreadLimit := 1000; repackager := workingRepackager;
                tools := sampleTools |} in
  opened env = None /\
  Job.analysisStatus
    (fst (Job.performAnalysis (fun s => s) env (lit "/srv/uploads/17-app.apk") 17
            (fun _ => None))) = Job.failed.
Proof.
  split; [reflexivity|].
  apply (job_fails_without_archive (fun s => s)
           {| apkExists := true; opened := None;
              garbled := fun _ => ([], false); xml2js := fun _ => None;
              spreadLimit := 1000; repackager := workingRepackager;
              tools := sampleTools |}
           (lit "/srv/uploads/17-app.apk") 17 (fun _ => None)).
  right. reflexivity.
Defined.

(** Directory entries are skipped: an archive that holds nothing else
    leaves the extraction directory as it was made, and writes nothing
    anywhere else.  The reader gets to the end of it when it takes every
    name, and turns it down otherwise. *)
Theorem directory_entries_are_skipped (garbled : Archive -> Archive * bool)
  (entries : Archive) (st : State) :
  Forall (fun e => isDirectoryEntry (unixName (fst e)) = true) entries ->
  extractAPK garbled (Some entries) st =
  (if forallb (fun e => validFileName (unixName (fst e))) entries
   then Returned tt else Thrown (lit "invalid file name"),
   withFiles st (Some (match scratch st with Some t => t | None => [] end))
     (outside st)).
Proof.
  intros Hall. unfold extractAPK.
  assert (H : forall files,
             readEntries garbled (extractedPath st) entries files
             = (if forallb (fun e => validFileName (unixName (fst e))) entries
                then Returned tt else Thrown (lit "invalid file name"), files)).
  { induction Hall as [|[name data] entries Hd _ IH]; intros files; [reflexivity|].
    cbn [readEntries forallb fst snd]. cbn [fst] in Hd.
    destruct (validFileName (unixName name)); [|reflexivity].
    unfold streamFails. rewrite Hd. cbn [negb andb].
    destruct files as [tree elsewhere].
    unfold onEntry at 1. rewrite Hd. apply IH. }
  now rewrite H.
Qed.

Lemma directory_entries_are_skipped_witness :
  Forall (fun e => isDirectoryEntry (unixName (fst e)) = true)
    [(lit "res/", lit ""); (lit "META-INF/", lit "")] /\
  extractAPK (fun _ => ([], false))
    (Some [(lit "res/", lit ""); (lit "META-INF/", lit "")]) sampleAnalyzer
  = (Returned tt, withFiles sampleAnalyzer (Some []) []).
Proof.
  assert (H : Forall (fun e => isDirectoryEntry (unixName (fst e)) = true)
                [(lit "res/", lit ""); (lit "META-INF/", lit "")])
    by (repeat constructor).
  split; [exact H|].
  exact (directory_entries_are_skipped (fun _ => ([], false)) _ sampleAnalyzer H).
Defined.

(** ** Extraction of a flat archive *)

Module PathMore.
Import Path PathFacts.

Lemma trailingSeparator_name (x name : text) :
  properSegment name = true ->
  trailingSeparator (x ++ slash :: name) = false.
Proof.
  intros Hp. apply properSegment_spec in Hp.
  destruct Hp as (Hne & _ & _ & _ & Hslash).
  unfold trailingSeparator.
  change (slash :: name) with ([slash] ++ name).
  rewrite !rev_app_distr.
  destruct (rev name) as [|c r] eqn:Er.
  - apply (f_equal (@rev ascii)) in Er. rewrite rev_involutive in Er. now subst.
  - cbn [app]. destruct (Ascii.eqb c slash) eqn:Ec; [|reflexivity].
    apply Ascii.eqb_eq in Ec. subst c. exfalso.
    assert (Hin : In slash name) by (apply in_rev; rewrite Er; now left).
    assert (existsb (Ascii.eqb slash) name = true).
    { apply existsb_exists. exists slash. split; [assumption|apply Ascii.eqb_refl]. }
    congruence.
Qed.

Lemma proper_split (name : text) :
  properSegment name = true ->
  split name = [name] /\ filter kept [name] = [name] /\ name <> [].
Proof.
  intros Hp. apply properSegment_spec in Hp.
  destruct Hp as (Hne & H1 & H2 & _ & Hslash).
  repeat split; [now apply split_no_slash| |assumption].
  cbn [filter]. unfold kept. now rewrite H1, H2.
Qed.

(** Joining a proper segment onto a normalized absolute directory puts
    it behind a separator. *)
Lemma join_proper (rs : list text) (name : text) :
  rs <> [] ->
  Forall (fun s => properSegment s = true) rs ->
  properSegment name = true ->
  join (absolute rs) name = absolute rs ++ slash :: name.
Proof.
  intros Hne Hrs Hp.
  destruct (proper_split name Hp) as (Hsplit & Hkept & Hnz).
  unfold join.
  pose proof (absolute_nonempty rs Hne) as Hroot.
  destruct (absolute rs) as [|r0 root'] eqn:Eroot; [congruence|].
  destruct name as [|n0 name']; [congruence|].
  rewrite <- Eroot.
  unfold normalize.
  destruct (absolute rs ++ slash :: n0 :: name') as [|c0 t0] eqn:Epath.
  { exfalso. rewrite Eroot in Epath. discriminate. }
  rewrite <- Epath.
  rewrite (isAbsolute_absolute _ _ Hne). cbn [negb].
  rewrite normalizeString_below; try assumption.
  2:{ rewrite Hsplit. intros [H|[]]. apply properSegment_spec in Hp.
      destruct Hp as (_ & _ & _ & Hdd & _). rewrite <- H in Hdd.
      rewrite text_eqb_refl in Hdd. discriminate. }
  rewrite Hsplit, Hkept.
  rewrite (trailingSeparator_name _ _ Hp).
  assert (Hl : rs ++ [n0 :: name'] <> []) by (destruct rs; discriminate).
  match goal with
  | |- context [unsplit ?l] =>
      pose proof (slash_unsplit l Hl) as Hu;
      pose proof (unsplit_nonempty rs [n0 :: name'] Hne Hrs : unsplit l <> []) as Hz;
      destruct (unsplit l) as [|u0 ut]; [congruence|]
  end.
  rewrite Hu, absolute_app. unfold absolute at 2. simpl. now rewrite app_nil_r.
Qed.

Lemma no_slash_not_directory (name : text) :
  properSegment name = true -> isDirectoryEntry name = false.
Proof.
  intros Hp. pose proof (trailingSeparator_name [] name Hp) as H.
  unfold trailingSeparator in H. cbn [app] in H.
  unfold isDirectoryEntry, ends_with. cbn [rev app].
  apply properSegment_spec in Hp. destruct Hp as (Hne & _).
  destruct name as [|n0 name']; [congruence|].
  change (slash :: n0 :: name') with ([slash] ++ n0 :: name') in H.
  rewrite rev_app_distr in H.
  destruct (rev (n0 :: name')) as [|c r]; [reflexivity|].
  cbn [app] in H. cbn [starts_with]. now rewrite Ascii.eqb_sym, H.
Qed.

End PathMore.

Module TreeFacts.

Lemma text_ltb_irrefl (a : text) : text_ltb a a = false.
Proof.
  induction a as [|x a IH]; [reflexivity|].
  cbn [text_ltb]. rewrite Nat.ltb_irrefl, Ascii.eqb_refl, IH. reflexivity.
Qed.

Lemma code_eq (x y : ascii) : nat_of_ascii x = nat_of_ascii y -> x = y.
Proof.
  intros H. rewrite <- (ascii_nat_embedding x), <- (ascii_nat_embedding y).
  now rewrite H.
Qed.

Lemma text_ltb_trans (a b c : text) :
  text_ltb a b = true -> text_ltb b c = true -> text_ltb a c = true.
Proof.
  revert b c. induction a as [|x a IH]; intros [|y b] [|z c] Hab Hbc;
    try discriminate; try reflexivity.
  cbn [text_ltb] in *.
  apply orb_true_iff in Hab. apply orb_true_iff in Hbc. apply orb_true_iff.
  destruct Hab as [Hab|Hab], Hbc as [Hbc|Hbc].
  - left. apply Nat.ltb_lt in Hab, Hbc. apply Nat.ltb_lt. lia.
  - apply andb_true_iff in Hbc. destruct Hbc as [E _].
    apply Ascii.eqb_eq in E. subst z. now left.
  - apply andb_true_iff in Hab. destruct Hab as [E _].
    apply Ascii.eqb_eq in E. subst y. now left.
  - apply andb_true_iff in Hab. apply andb_true_iff in Hbc.
    destruct Hab as [E1 Hab], Hbc as [E2 Hbc].
    apply Ascii.eqb_eq in E1, E2. subst y z. right.
    rewrite Ascii.eqb_refl. cbn [andb]. now apply (IH b c).
Qed.

Lemma text_ltb_total (a b : text) :
  a <> b -> text_ltb a b = false -> text_ltb b a = true.
Proof.
  revert b. induction a as [|x a IH]; intros [|y b] Hne Hab;
    try congruence; try discriminate; try reflexivity.
  cbn [text_ltb] in *. apply orb_false_iff in Hab. destruct Hab as [Hlt Hrest].
  apply Nat.ltb_ge in Hlt.
  destruct (Nat.eq_dec (nat_of_ascii x) (nat_of_ascii y)) as [E|E].
  - apply code_eq in E. subst y. rewrite Ascii.eqb_refl in *. cbn [andb] in *.
    rewrite Nat.ltb_irrefl. cbn [orb]. apply IH; [congruence|assumption].
  - assert (H : (nat_of_ascii y <? nat_of_ascii x)%nat = true)
      by (apply Nat.ltb_lt; lia).
    now rewrite H.
Qed.

Lemma text_eqb_false (a b : text) : a <> b -> text_eqb a b = false.
Proof.
  intros H. destruct (text_eqb a b) eqn:E; [|reflexivity].
  apply text_eqb_eq in E. contradiction.
Qed.

Lemma text_eqb_sym (a b : text) : text_eqb a b = text_eqb b a.
Proof.
  destruct (text_eqb b a) eqn:E.
  - apply text_eqb_eq in E. subst. apply text_eqb_refl.
  - apply text_eqb_false. intros ->. now rewrite text_eqb_refl in E.
Qed.

Lemma lookup_rebind (name n : text) (x : Node) (t : Tree) :
  lookup name t <> None ->
  lookup n (rebind name x t) = if text_eqb n name then Some x else lookup n t.
Proof.
  induction t as [|[m y] t IH]; intros H; [now contradiction H|].
  cbn [lookup rebind] in *. destruct (text_eqb m name) eqn:Em.
  - apply text_eqb_eq in Em. subst m. cbn [lookup].
    destruct (text_eqb name n) eqn:En.
    + apply text_eqb_eq in En. subst n. now rewrite text_eqb_refl.
    + rewrite text_eqb_false; [reflexivity|].
      intros ->. now rewrite text_eqb_refl in En.
  - cbn [lookup]. destruct (text_eqb m n) eqn:En.
    + apply text_eqb_eq in En. subst m. now rewrite Em.
    + now apply IH.
Qed.

Lemma lookup_place (name n : text) (x : Node) (t : Tree) :
  lookup name t = None ->
  lookup n (place name x t) = if text_eqb n name then Some x else lookup n t.
Proof.
  induction t as [|[m y] t IH]; intros H.
  - cbn [place lookup]. rewrite (text_eqb_sym name n). reflexivity.
  - cbn [lookup place] in *. destruct (text_eqb m name) eqn:Em; [discriminate|].
    destruct (text_ltb name m).
    + cbn [lookup]. rewrite (text_eqb_sym name n).
      destruct (text_eqb n name); reflexivity.
    + cbn [lookup]. destruct (text_eqb m n) eqn:En.
      * apply text_eqb_eq in En. subst m. now rewrite Em.
      * now apply IH.
Qed.

Lemma lookup_bind (name n : text) (x : Node) (t : Tree) :
  lookup n (bind name x t) = if text_eqb n name then Some x else lookup n t.
Proof.
  unfold bind. destruct (lookup name t) as [y|] eqn:E.
  - apply lookup_rebind. congruence.
  - now apply lookup_place.
Qed.

Lemma lookup_bind_same (name : text) (x : Node) (t : Tree) :
  lookup name (bind name x t) = Some x.
Proof. now rewrite lookup_bind, text_eqb_refl. Qed.

Lemma lookup_In (n : text) (x : Node) (t : Tree) :
  lookup n t = Some x -> In (n, x) t.
Proof.
  induction t as [|[m y] t IH]; [discriminate|].
  cbn [lookup]. destruct (text_eqb m n) eqn:E.
  - apply text_eqb_eq in E. subst m. intros H. injection H as ->. now left.
  - intros H. right. now apply IH.
Qed.

Lemma In_lookup (n : text) (x : Node) (t : Tree) :
  listedInOrder t -> In (n, x) t -> lookup n t = Some x.
Proof.
  unfold listedInOrder. induction 1 as [|[m y] t Hs IH Hall]; [contradiction|].
  intros [H|H]; cbn [lookup].
  - injection H as -> ->. now rewrite text_eqb_refl.
  - rewrite Forall_forall in Hall. specialize (Hall _ H). cbn [fst] in Hall.
    rewrite text_eqb_false; [now apply IH|].
    intros ->. now rewrite text_ltb_irrefl in Hall.
Qed.

Lemma length_place (name : text) (x : Node) (t : Tree) :
  length (place name x t) = S (length t).
Proof.
  induction t as [|[m y] t IH]; [reflexivity|].
  cbn [place]. destruct (text_ltb name m); cbn [length]; [reflexivity|].
  now rewrite IH.
Qed.

Lemma place_In (name : text) (x : Node) (t : Tree) (z : text * Node) :
  In z (place name x t) -> z = (name, x) \/ In z t.
Proof.
  induction t as [|[m y] t IH]; cbn [place].
  - intros [H|[]]. now left.
  - destruct (text_ltb name m).
    + intros [H|H]; [now left|now right].
    + intros [H|H]; [right; now left|].
      destruct (IH H) as [E|E]; [now left|right; now right].
Qed.

Lemma place_listedInOrder (name : text) (x : Node) (t : Tree) :
  lookup name t = None -> listedInOrder t -> listedInOrder (place name x t).
Proof.
  unfold listedInOrder. intros Hfresh Hs. revert Hfresh.
  induction Hs as [|[m y] t Hs IH Hall]; intros Hfresh.
  - cbn [place]. repeat constructor.
  - cbn [lookup] in Hfresh. destruct (text_eqb m name) eqn:Em; [discriminate|].
    cbn [place]. destruct (text_ltb name m) eqn:El.
    + constructor; [now constructor|].
      constructor; [exact El|].
      rewrite Forall_forall in *. intros z Hz. cbn [fst].
      apply (text_ltb_trans name m); [exact El|]. now apply (Hall z).
    + constructor; [now apply IH|].
      rewrite Forall_forall in *. intros z Hz. cbn [fst].
      destruct (place_In _ _ _ _ Hz) as [->|Hz']; [|now apply (Hall z)].
      cbn [fst]. apply text_ltb_total; [|exact El].
      intros ->. now rewrite text_eqb_refl in Em.
Qed.

Lemma rebind_names (name : text) (x : Node) (t : Tree) :
  map fst (rebind name x t) = map fst t.
Proof.
  induction t as [|[m y] t IH]; [reflexivity|].
  cbn [rebind]. destruct (text_eqb m name); cbn [map fst]; [reflexivity|].
  now rewrite IH.
Qed.

Lemma listedInOrder_names (t t' : Tree) :
  map fst t = map fst t' -> listedInOrder t -> listedInOrder t'.
Proof.
  unfold listedInOrder. intros E Hs. revert t' E.
  induction Hs as [|a t Hs IH Hall]; intros [|a' t'] E; try discriminate;
    [constructor|].
  cbn [map] in E. injection E as Ea Et.
  constructor; [now apply IH|].
  rewrite Forall_forall in *. intros z Hz.
  assert (Hin : In (fst z) (map fst t)).
  { rewrite Et. now apply in_map. }
  apply in_map_iff in Hin. destruct Hin as (w & Hw & Hwin).
  rewrite <- Ea, <- Hw. now apply Hall.
Qed.

(** A listing in order stays in order when a name is bound. *)
Lemma bind_listedInOrder (name : text) (x : Node) (t : Tree) :
  listedInOrder t -> listedInOrder (bind name x t).
Proof.
  intros Hs. unfold bind. destruct (lookup name t) as [y|] eqn:E.
  - apply (listedInOrder_names t); [|exact Hs].
    symmetry. apply rebind_names.
  - now apply place_listedInOrder.
Qed.

Lemma filed_listedInOrder (entries : Archive) (tree : Tree) :
  listedInOrder tree -> listedInOrder (filed entries tree).
Proof.
  revert tree. induction entries as [|e entries IH]; intros tree Hs; [exact Hs|].
  unfold filed. cbn [fold_left]. apply IH. now apply bind_listedInOrder.
Qed.

Lemma lookup_filed_other (entries : Archive) (tree : Tree) (n : text) :
  ~ In n (map fst entries) -> lookup n (filed entries tree) = lookup n tree.
Proof.
  revert tree. induction entries as [|e entries IH]; intros tree Hn; [reflexivity|].
  unfold filed. cbn [fold_left]. fold (filed entries (bind (fst e) (File (snd e)) tree)).
  rewrite IH by (intros H; apply Hn; now right).
  rewrite lookup_bind, text_eqb_false; [reflexivity|].
  intros ->. apply Hn. now left.
Qed.

Lemma lookup_filed (entries : Archive) (tree : Tree) (n d : text) :
  NoDup (map fst entries) -> In (n, d) entries ->
  lookup n (filed entries tree) = Some (File d).
Proof.
  revert tree. induction entries as [|e entries IH]; intros tree Hnd Hin;
    [contradiction|].
  cbn [map] in Hnd. inversion Hnd as [|? ? Hfresh Hnd']; subst.
  unfold filed. cbn [fold_left]. fold (filed entries (bind (fst e) (File (snd e)) tree)).
  destruct Hin as [->|Hin].
  - cbn [fst snd] in *. rewrite lookup_filed_other by assumption.
    apply lookup_bind_same.
  - now apply IH.
Qed.

Lemma length_filed (entries : Archive) (tree : Tree) :
  NoDup (map fst entries) ->
  (forall e, In e entries -> lookup (fst e) tree = None) ->
  length (filed entries tree) = (length tree + length entries)%nat.
Proof.
  revert tree. induction entries as [|e entries IH]; intros tree Hnd Hfresh.
  - cbn [filed fold_left length]. lia.
  - cbn [map] in Hnd. inversion Hnd as [|? ? Hnew Hnd']; subst.
    unfold filed. cbn [fold_left].
    fold (filed entries (bind (fst e) (File (snd e)) tree)).
    rewrite IH; [| assumption |].
    + unfold bind. rewrite (Hfresh e) by now left.
      rewrite length_place. cbn [length]. lia.
    + intros e' He'. rewrite lookup_bind, text_eqb_false.
      * apply Hfresh. now right.
      * intros E. apply Hnew. rewrite <- E. now apply in_map.
Qed.

(** What a fresh directory holds once distinct names were filed. *)
Lemma filed_items (entries : Archive) (name : text) (x : Node) :
  NoDup (map fst entries) ->
  (In (name, x) (filed entries []) <->
   exists data, x = File data /\ In (name, data) entries).
Proof.
  intros Hnd.
  assert (Hsorted : listedInOrder (filed entries []))
    by (apply filed_listedInOrder; constructor).
  split.
  - intros Hin. apply (In_lookup _ _ _ Hsorted) in Hin.
    destruct (in_dec (list_eq_dec ascii_dec) name (map fst entries)) as [Hn|Hn].
    + apply in_map_iff in Hn. destruct Hn as ([n d] & E & Hnd').
      cbn [fst] in E. subst n. exists d. split; [|exact Hnd'].
      rewrite (lookup_filed entries [] name d Hnd Hnd') in Hin.
      now injection Hin as <-.
    + rewrite (lookup_filed_other entries [] name Hn) in Hin. discriminate.
  - intros (data & -> & Hin). apply lookup_In. now apply lookup_filed.
Qed.

End TreeFacts.

Section FlatArchive.
Import Path PathFacts PathMore TreeFacts.

Variable rs : list text.
Hypothesis rs_nonempty : rs <> [].
Hypothesis rs_proper : Forall (fun s => properSegment s = true) rs.

Lemma outputPath_proper (name : text) :
  properSegment name = true ->
  outputPath (absolute rs) name = absolute rs ++ slash :: name /\
  text_eqb (absolute rs ++ slash :: name) (absolute rs) = false /\
  starts_with (absolute rs ++ [slash]) (absolute rs ++ slash :: name) = true /\
  split (skipn (length (absolute rs) + 1) (absolute rs ++ slash :: name)) = [name].
Proof.
  intros Hp. split; [|split; [|split]].
  - unfold outputPath. now apply join_proper.
  - apply text_eqb_false. intros E.
    rewrite <- (app_nil_r (absolute rs)) in E at 2.
    apply app_inv_head in E. discriminate.
  - change (absolute rs ++ slash :: name) with (absolute rs ++ [slash] ++ name).
    rewrite app_assoc. apply starts_with_app.
  - change (absolute rs ++ slash :: name) with (absolute rs ++ [slash] ++ name).
    rewrite app_assoc.
    replace (length (absolute rs) + 1)%nat with (length (absolute rs ++ [slash]))
      by (rewrite length_app; reflexivity).
    rewrite skipn_app, skipn_all, Nat.sub_diag. cbn [app skipn].
    now destruct (proper_split name Hp) as (-> & _ & _).
Qed.

Lemma onEntry_proper (tree : Tree) (elsewhere : list (text * text))
  (name data : text) :
  properSegment name = true ->
  onEntry (absolute rs) (tree, elsewhere) (name, data)
  = (writeAt [name] data tree, elsewhere).
Proof.
  intros Hp. unfold onEntry.
  rewrite (no_slash_not_directory name Hp).
  destruct (outputPath_proper name Hp) as (-> & -> & -> & ->). reflexivity.
Qed.

Lemma streamFails_proper (tree : Tree) (name : text) :
  properSegment name = true ->
  streamFails (absolute rs) tree name
  = match lookup name tree with Some (Dir _) => true | _ => false end.
Proof.
  intros Hp. unfold streamFails.
  rewrite (no_slash_not_directory name Hp). cbn [negb andb].
  destruct (outputPath_proper name Hp) as (-> & -> & -> & ->).
  cbn [nodeAt]. now destruct (lookup name tree) as [[c|sub]|].
Qed.

Lemma unixName_flat (name : text) :
  existsb (Ascii.eqb slash) (unixName name) = false -> unixName name = name.
Proof.
  induction name as [|c name IH]; [reflexivity|].
  cbn [unixName map existsb]. fold (unixName name).
  destruct (Ascii.eqb c backslash).
  - rewrite Ascii.eqb_refl. discriminate.
  - intros H. apply orb_false_iff in H. destruct H as [_ H].
    now rewrite (IH H).
Qed.

Lemma flatName_spec (name : text) :
  flatName name = true ->
  unixName name = name /\ properSegment name = true /\ validFileName name = true.
Proof.
  unfold flatName. intros H. apply andb_true_iff in H. destruct H as [Hp Hd].
  pose proof (properSegment_spec _ Hp) as (_ & _ & _ & _ & Hu).
  apply unixName_flat in Hu. rewrite Hu in *.
  split; [reflexivity|]. split; [exact Hp|].
  pose proof (properSegment_spec _ Hp) as (Hne & _ & _ & Hdd & Hslash).
  unfold validFileName. rewrite Hd. cbn [andb].
  rewrite (split_no_slash name Hslash). cbn [existsb].
  rewrite (text_eqb_sym dotdot name), Hdd. cbn [orb negb].
  rewrite andb_true_r. destruct name as [|c name]; [congruence|].
  cbn [isAbsolute]. cbn [existsb] in Hslash.
  apply orb_false_iff in Hslash. destruct Hslash as [Hc _].
  now rewrite Ascii.eqb_sym, Hc.
Qed.

(** The loop over an archive of files at the top: each is written. *)
Lemma readEntries_flat (garbled : Archive -> Archive * bool)
  (entries : Archive) (elsewhere : list (text * text)) :
  Forall (fun e => flatName (fst e) = true) entries ->
  forall tree,
    (forall n x, lookup n tree = Some x -> isFileNode x = true) ->
    readEntries garbled (absolute rs) entries (tree, elsewhere)
    = (Returned tt, (filed entries tree, elsewhere)).
Proof.
  induction 1 as [|[name data] entries Hf _ IH]; intros tree Hflat; [reflexivity|].
  cbn [fst] in Hf. destruct (flatName_spec name Hf) as (Hu & Hp & Hv).
  cbn [readEntries fst snd]. rewrite Hu, Hv.
  rewrite (streamFails_proper tree name Hp), (onEntry_proper _ _ _ _ Hp).
  cbn [writeAt].
  destruct (lookup name tree) as [[c|sub]|] eqn:El.
  - apply IH. intros n x. rewrite lookup_bind.
    destruct (text_eqb n name); [intros E; now injection E as <-|apply Hflat].
  - specialize (Hflat _ _ El). discriminate.
  - apply IH. intros n x. rewrite lookup_bind.
    destruct (text_eqb n name); [intros E; now injection E as <-|apply Hflat].
Qed.

End FlatArchive.



(** The three files of [flatArchive], listed by name: the manifest, in
    the archive the last, is the first. *)
Example flat_archive_listing :
  scratch (extracted (fun _ => ([], false)) flatArchive sampleAnalyzer)
  = Some [ (lit "AndroidManifest.xml", File (lit "<manifest/>"));
           (lit "classes.dex", File (lit "dex"));
           (lit "resources.arsc", File (lit "arsc")) ].
Proof. vm_compute. reflexivity. Qed.

(** ** Nothing lost, nothing doubled in the new archive *)

Lemma listedAt_Dir (fullPath itemPath item : text) (sub : list (text * Node)) :
  listedAt fullPath itemPath item (Dir sub) = listedIn fullPath itemPath sub.
Proof.
  simpl. induction sub as [|[i n] rest IH]; simpl; [reflexivity|]. now rewrite IH.
Qed.

(** The two walks and the listing of C5 come to the same files. *)
Lemma findFilesAt_listed (extensions : list text) (node : Node) :
  forall fullPath itemPath item,
    findFilesAt extensions fullPath item node
    = map (fun f => (l_full f, l_content f))
        (filter (fun f => hasExtension extensions (l_item f))
           (listedAt fullPath itemPath item node)).
Proof.
  induction node as [content | items IH] using Node_nested_ind;
    intros fullPath itemPath item.
  - cbn [findFilesAt listedAt filter l_item]. unfold hasExtension.
    now destruct (existsb _ extensions).
  - rewrite findFilesAt_Dir, listedAt_Dir.
    induction IH as [|[i n] rest Hn _ IHrest]; [reflexivity|].
    cbn [findFilesIn listedIn]. rewrite filter_app, map_app.
    cbn [snd] in Hn. now rewrite IHrest, (Hn _ (archiveItemPath itemPath i) i).
Qed.

Lemma findFilesIn_listed (extensions : list text) (dir archivePath : text) (t : Tree) :
  findFilesIn extensions dir t
  = map (fun f => (l_full f, l_content f))
      (filter (fun f => hasExtension extensions (l_item f))
         (listedIn dir archivePath t)).
Proof.
  induction t as [|[i n] rest IH]; [reflexivity|].
  cbn [findFilesIn listedIn]. rewrite filter_app, map_app.
  now rewrite IH, (findFilesAt_listed extensions n _ (archiveItemPath archivePath i) i).
Qed.

Lemma entriesAt_listed (node : Node) :
  forall fullPath itemPath item,
    entriesAt itemPath item node
    = map (fun f => (l_item f, l_archive f, l_content f))
        (listedAt fullPath itemPath item node).
Proof.
  induction node as [content | items IH] using Node_nested_ind;
    intros fullPath itemPath item; [reflexivity|].
  rewrite entriesAt_Dir, listedAt_Dir.
  induction IH as [|[i n] rest Hn _ IHrest]; [reflexivity|].
  cbn [treeEntries listedIn]. rewrite map_app.
  cbn [snd] in Hn. now rewrite IHrest, (Hn (Path.join fullPath i)).
Qed.

Lemma treeEntries_listed (dir archivePath : text) (t : Tree) :
  treeEntries archivePath t
  = map (fun f => (l_item f, l_archive f, l_content f)) (listedIn dir archivePath t).
Proof.
  induction t as [|[i n] rest IH]; [reflexivity|].
  cbn [treeEntries listedIn]. rewrite map_app.
  now rewrite IH, (entriesAt_listed n (Path.join dir i)).
Qed.

Lemma filter_map_comm {A B : Type} (f : A -> B) (p : B -> bool) (l : list A) :
  filter p (map f l) = map f (filter (fun x => p (f x)) l).
Proof.
  induction l as [|x l IH]; [reflexivity|].
  cbn [map filter]. destruct (p (f x)); cbn [map]; now rewrite IH.
Qed.

Lemma addDirectory_listed (dir : text) (t : Tree) :
  addDirectory [] t
  = map (fun f => (l_archive f, l_content f))
      (filter (fun f => passedThrough (l_item f)) (listedIn dir [] t)).
Proof.
  rewrite addDirectory_entries, (treeEntries_listed dir [] t).
  unfold passedEntries. rewrite filter_map_comm, map_map. reflexivity.
Qed.

Lemma source_xor_passed (item : text) :
  hasExtension sourceExtensions item && passedThrough item = false /\
  hasExtension sourceExtensions item || passedThrough item
  = negb (text_eqb item manifestName).
Proof.
  unfold hasExtension, sourceExtensions, passedThrough. cbn [existsb].
  destruct (text_eqb item manifestName) eqn:E.
  - apply text_eqb_eq in E. subst item. vm_compute. now split.
  - rewrite orb_false_r.
    destruct (ends_with item (lit ".java")), (ends_with item (lit ".kt")),
      (ends_with item (lit ".smali")); now split.
Qed.

Lemma filter_xor_length {A : Type} (f g h : A -> bool) (l : list A) :
  (forall x, f x && g x = false /\ f x || g x = h x) ->
  (length (filter f l) + length (filter g l))%nat = length (filter h l).
Proof.
  intros H. induction l as [|x l IH]; [reflexivity|].
  cbn [filter]. destruct (H x) as [Hand Hor].
  destruct (f x), (g x), (h x); simpl in *; try discriminate; lia.
Qed.



(** ** What the two real detectors report *)

Lemma push_lockstep (finding : text) (v : Vulnerability) (rec snippet : text)
  (a : Found) :
  foundInLockstep a -> foundInLockstep (push finding v rec snippet a).
Proof.
  unfold foundInLockstep, push. cbn. rewrite !length_app. cbn. intros (-> & -> & ->).
  now repeat split.
Qed.

Lemma recon_lockstep (t : option Tree) : foundInLockstep (Recon.scan t).
Proof.
  assert (H0 : foundInLockstep nothingFound) by now repeat split.
  unfold Recon.scan. destruct t as [t|]; [|exact H0].
  destruct (lookup manifestName t) as [[content|items]|]; try exact H0.
  unfold Recon.scanManifest, Recon.checkExported, Recon.checkAllowBackup,
    Recon.checkDebuggable.
  repeat match goal with
         | |- foundInLockstep (if ?b then _ else _) => destruct b
         | |- foundInLockstep (push _ _ _ _ _) => apply push_lockstep
         end; exact H0.
Qed.

Lemma scanFile_lockstep (a : Found) (f : text * text) :
  foundInLockstep a -> foundInLockstep (XSS.scanFile a f).
Proof.
  intros Ha. destruct f as [file content].
  unfold XSS.scanFile, XSS.checkDom, XSS.checkLoadUrl, XSS.checkJavaScript.
  repeat match goal with
         | |- foundInLockstep (if ?b then _ else _) => destruct b
         | |- foundInLockstep (push _ _ _ _ _) => apply push_lockstep
         end; exact Ha.
Qed.

Lemma xss_lockstep (t : option Tree) (root : text) : foundInLockstep (XSS.scan t root).
Proof.
  unfold XSS.scan.
  assert (H : forall l a, foundInLockstep a ->
                          foundInLockstep (fold_left XSS.scanFile l a)).
  { induction l as [|f l IH]; intros a Ha; [exact Ha|].
    cbn [fold_left]. apply IH. now apply scanFile_lockstep. }
  apply H. now repeat split.
Qed.

(** Every detector of the pipeline leaves a record in which findings,
    recommendations and code snippets are as many as the
    vulnerabilities. *)
Theorem detectors_report_in_lockstep
  (c : Category) (analysis : State -> State) (st : State) :
  In (c, analysis) analyses ->
  inLockstep (analysisResults (analysis st) c).
Proof.
  intros Hin. unfold analyses in Hin. cbn [In] in Hin.
  destruct Hin as [Hin|Hin].
  { injection Hin as <- <-. unfold analyzeReconnaissance. rewrite store_result.
    apply (recon_lockstep (scratch st)). }
  destruct Hin as [Hin|Hin].
  { injection Hin as <- <-. unfold analyzeXSS. rewrite store_result.
    apply (xss_lockstep (scratch st) (extractedPath st)). }
  repeat (destruct Hin as [Hin|Hin];
          [injection Hin as <- <-;
           match goal with
           | |- inLockstep (analysisResults (?f st) ?c) =>
               change (inLockstep (analysisResults (f st) c));
               unfold f; rewrite assignFixed_result; now repeat split
           end|]).
  contradiction.
Qed.

Lemma detectors_report_in_lockstep_witness :
  In (reconnaissance, analyzeReconnaissance) analyses /\
  inLockstep (analysisResults (analyzeReconnaissance sampleState) reconnaissance).
Proof.
  assert (H : In (reconnaissance, analyzeReconnaissance) analyses)
    by (left; reflexivity).
  split; [exact H|].
  exact (detectors_report_in_lockstep reconnaissance analyzeReconnaissance
           sampleState H).
Defined.

Lemma push_vulnerabilities (finding : text) (v : Vulnerability) (rec snippet : text)
  (a : Found) :
  f_vulnerabilities (push finding v rec snippet a) = f_vulnerabilities a ++ [v].
Proof. reflexivity. Qed.

Lemma scanFile_appends (a : Found) (f : text * text) :
  f_vulnerabilities (XSS.scanFile a f) = f_vulnerabilities a ++ fileFindings f.
Proof.
  unfold fileFindings. destruct f as [file content].
  unfold XSS.scanFile, XSS.checkDom, XSS.checkLoadUrl, XSS.checkJavaScript.
  destruct (includes content (lit "setJavaScriptEnabled(true)"));
    destruct (negb (includes content (lit "addJavascriptInterface"))
              || negb (includes content (lit "@JavascriptInterface")));
    destruct (includes content (lit "loadUrl(")
              && negb (includes content XSS.startsWithHttps));
    destruct (includes content (lit "innerHTML")
              || includes content (lit "document.write"));
    rewrite ?push_vulnerabilities; cbn [f_vulnerabilities nothingFound app];
    rewrite <- ?app_assoc; cbn [app]; now rewrite ?app_nil_r.
Qed.

Lemma scan_appends (l : list (text * text)) (a : Found) :
  f_vulnerabilities (fold_left XSS.scanFile l a)
  = f_vulnerabilities a ++ concat (map fileFindings l).
Proof.
  revert a. induction l as [|f l IH]; intros a.
  - cbn. now rewrite app_nil_r.
  - cbn [fold_left map concat]. now rewrite IH, scanFile_appends, app_assoc.
Qed.

Lemma fileFindings_cases (file content : text) :
  fileFindings (file, content) =
  (if unsafeJavaScript content then [XSS.xss001 file] else [])
  ++ (if includes content (lit "loadUrl(")
         && negb (includes content XSS.startsWithHttps)
      then [XSS.xss002 file] else [])
  ++ (if includes content (lit "innerHTML")
         || includes content (lit "document.write")
      then [XSS.xss003 file] else []).
Proof.
  unfold fileFindings, unsafeJavaScript.
  unfold XSS.scanFile, XSS.checkDom, XSS.checkLoadUrl, XSS.checkJavaScript.
  destruct (includes content (lit "setJavaScriptEnabled(true)"));
    destruct (negb (includes content (lit "addJavascriptInterface"))
              || negb (includes content (lit "@JavascriptInterface")));
    destruct (includes content (lit "loadUrl(")
              && negb (includes content XSS.startsWithHttps));
    destruct (includes content (lit "innerHTML")
              || includes content (lit "document.write"));
    reflexivity.
Qed.

(** The XSS detector reports xss-001 at a path exactly when a source file
    found at that path enables JavaScript without both
    [addJavascriptInterface] and [@JavascriptInterface]; every
    vulnerability it reports sits at the path of a file it scanned, and
    it reports at most three per file. *)
Theorem xss_findings (t : option Tree) (root : text) :
  let files := findFiles t root XSS.extensions in
  let vs := f_vulnerabilities (XSS.scan t root) in
  (forall file,
      In (XSS.xss001 file) vs <->
      exists content, In (file, content) files /\ unsafeJavaScript content = true) /\
  (forall v, In v vs -> exists content, In (location v, content) files) /\
  (length vs <= 3 * length files)%nat.
Proof.
  intros files vs. unfold vs, XSS.scan. fold files.
  rewrite scan_appends. cbn [f_vulnerabilities nothingFound app].
  split; [|split].
  - intros file. rewrite in_concat. split.
    + intros (l & Hl & Hv). apply in_map_iff in Hl.
      destruct Hl as ([f content] & <- & Hf).
      rewrite fileFindings_cases in Hv.
      assert (f = file /\ unsafeJavaScript content = true) as [-> Hc].
      { destruct (unsafeJavaScript content);
          destruct (includes content (lit "loadUrl(")
                    && negb (includes content XSS.startsWithHttps));
          destruct (includes content (lit "innerHTML")
                    || includes content (lit "document.write"));
          cbn [app In] in Hv;
          repeat (destruct Hv as [Hv|Hv]; try discriminate Hv;
                  try (injection Hv as Hv; now split));
          contradiction. }
      now exists content.
    + intros (content & Hf & Hc). exists (fileFindings (file, content)). split.
      * apply in_map_iff. now exists (file, content).
      * rewrite fileFindings_cases, Hc. now left.
  - intros v Hv. apply in_concat in Hv. destruct Hv as (l & Hl & Hv).
    apply in_map_iff in Hl. destruct Hl as ([f content] & <- & Hf).
    exists content. rewrite fileFindings_cases in Hv.
    destruct (unsafeJavaScript content);
      destruct (includes content (lit "loadUrl(")
                && negb (includes content XSS.startsWithHttps));
      destruct (includes content (lit "innerHTML")
                || includes content (lit "document.write"));
      cbn [app In] in Hv;
      repeat (destruct Hv as [<-|Hv]; [exact Hf|]); contradiction.
  - induction files as [|[f content] l IH]; [cbn; lia|].
    cbn [map concat length]. rewrite length_app, fileFindings_cases.
    destruct (unsafeJavaScript content);
      destruct (includes content (lit "loadUrl(")
                && negb (includes content XSS.startsWithHttps));
      destruct (includes content (lit "innerHTML")
                || includes content (lit "document.write"));
      cbn [app length]; lia.
Qed.

(** The detector at work on a tree with one source file. *)
Example xss_on_web_view :
  map (fun v => (id v, severity v, location v))
    (f_vulnerabilities (XSS.scan (Some webViewTree) sampleRoot))
  = [ (lit "xss-001", high, lit "/srv/uploads/extracted_17/src/Main.java") ].
Proof. vm_compute. reflexivity. Qed.

(** ** Where an upload is saved and unpacked *)

Module UploadFacts.
Import Path PathFacts PathMore Upload.

Lemma string_of_uint_digits (d : Decimal.uint) :
  Forall (fun c => isDigit c = true) (lit (NilEmpty.string_of_uint d)).
Proof.
  induction d; cbn [NilEmpty.string_of_uint lit list_ascii_of_string];
    constructor; try exact IHd; reflexivity.
Qed.

Lemma decimal_digits (n : N) :
  Forall (fun c => isDigit c = true) (decimal n) /\ decimal n <> [].
Proof.
  unfold decimal, NilZero.string_of_uint.
  destruct (N.to_uint n) as [|d|d|d|d|d|d|d|d|d|d].
  - split; [repeat constructor | discriminate].
  - split; [apply (string_of_uint_digits (Decimal.D0 d)) | discriminate].
  - split; [apply (string_of_uint_digits (Decimal.D1 d)) | discriminate].
  - split; [apply (string_of_uint_digits (Decimal.D2 d)) | discriminate].
  - split; [apply (string_of_uint_digits (Decimal.D3 d)) | discriminate].
  - split; [apply (string_of_uint_digits (Decimal.D4 d)) | discriminate].
  - split; [apply (string_of_uint_digits (Decimal.D5 d)) | discriminate].
  - split; [apply (string_of_uint_digits (Decimal.D6 d)) | discriminate].
  - split; [apply (string_of_uint_digits (Decimal.D7 d)) | discriminate].
  - split; [apply (string_of_uint_digits (Decimal.D8 d)) | discriminate].
  - split; [apply (string_of_uint_digits (Decimal.D9 d)) | discriminate].
Qed.

Lemma digit_not_slash (c : ascii) : isDigit c = true -> Ascii.eqb slash c = false.
Proof.
  intros H. destruct (Ascii.eqb slash c) eqn:E; [|reflexivity].
  apply Ascii.eqb_eq in E. subst c. discriminate.
Qed.

Lemma allowed_small (u : N) : allowed u = true -> (u < 128)%N /\ u <> 47%N.
Proof.
  unfold allowed.
  rewrite !orb_true_iff, !andb_true_iff, !N.leb_le, !N.eqb_eq. lia.
Qed.

Lemma sanitized_chars (name : FileName) :
  Forall (fun c => (exists u, allowed u = true /\ c = ascii_of_N u) \/ c = underscore)
    (sanitize name).
Proof.
  induction name as [|u name IH]; constructor; [|exact IH].
  destruct (allowed u) eqn:E; [left; now exists u|now right].
Qed.

Lemma sanitized_not_slash (c : ascii) :
  (exists u, allowed u = true /\ c = ascii_of_N u) \/ c = underscore ->
  Ascii.eqb slash c = false.
Proof.
  intros H. destruct (Ascii.eqb slash c) eqn:E; [|reflexivity].
  apply Ascii.eqb_eq in E. subst c. destruct H as [(u & Hu & E)|H]; [|discriminate].
  apply allowed_small in Hu. destruct Hu as [Hlt Hne]. exfalso. apply Hne.
  rewrite <- (N_ascii_embedding u) by lia. now rewrite <- E.
Qed.

Lemma existsb_none {A : Type} (f : A -> bool) (l : list A) :
  Forall (fun x => f x = false) l -> existsb f l = false.
Proof. induction 1 as [|x l Hx _ IH]; [reflexivity|]. cbn. now rewrite Hx. Qed.

Lemma no_slash_app (a b : text) :
  existsb (Ascii.eqb slash) a = false ->
  existsb (Ascii.eqb slash) b = false ->
  existsb (Ascii.eqb slash) (a ++ b) = false.
Proof. intros Ha Hb. now rewrite existsb_app, Ha, Hb. Qed.

Lemma decimal_no_slash (n : N) : existsb (Ascii.eqb slash) (decimal n) = false.
Proof.
  apply existsb_none. destruct (decimal_digits n) as [H _].
  eapply Forall_impl; [|exact H]. apply digit_not_slash.
Qed.

(** A text that holds a character other than the dot and no separator is
    a proper segment. *)
Lemma proper_by_character (s : text) (c : ascii) :
  In c s -> c <> ascii_of_nat 46 ->
  existsb (Ascii.eqb slash) s = false ->
  properSegment s = true.
Proof.
  intros Hin Hc Hs. unfold properSegment. rewrite Hs.
  assert (Hne : forall d : text, Forall (fun x => x = ascii_of_nat 46) d ->
                                 text_eqb s d = false).
  { intros d Hd. destruct (text_eqb s d) eqn:E; [|reflexivity].
    apply text_eqb_eq in E. subst d. rewrite Forall_forall in Hd.
    now apply Hd in Hin. }
  rewrite (Hne []), (Hne dot), (Hne dotdot); try reflexivity;
    repeat constructor.
Qed.

Lemma storedName_proper (now : N) (name : FileName) :
  properSegment (storedName now name) = true.
Proof.
  apply (proper_by_character _ (ascii_of_nat 45)).
  - unfold storedName. apply in_or_app. right. now left.
  - discriminate.
  - unfold storedName. apply no_slash_app; [apply decimal_no_slash|].
    apply no_slash_app; [reflexivity|].
    apply existsb_none. eapply Forall_impl; [|apply sanitized_chars].
    apply sanitized_not_slash.
Qed.

Lemma extractedName_proper (now : N) : properSegment (extractedName now) = true.
Proof.
  apply (proper_by_character _ (ascii_of_nat 95)).
  - unfold extractedName. apply in_or_app. left. cbn. tauto.
  - discriminate.
  - unfold extractedName. apply no_slash_app; [reflexivity|apply decimal_no_slash].
Qed.

End UploadFacts.

Module DirnameFacts.
Import Path PathFacts PathMore PathParts Upload UploadFacts.

Lemma dropName_app (l x : text) :
  existsb (Ascii.eqb slash) l = false ->
  dropName (l ++ slash :: x) = slash :: x.
Proof.
  induction l as [|c l IH]; intros H; [reflexivity|].
  cbn [existsb] in H. apply orb_false_iff in H. destruct H as [Hc Hl].
  cbn [app dropName]. rewrite Ascii.eqb_sym, Hc. now apply IH.
Qed.

Lemma no_slash_rev (l : text) :
  existsb (Ascii.eqb slash) l = false ->
  existsb (Ascii.eqb slash) (rev l) = false.
Proof.
  intros H. destruct (existsb (Ascii.eqb slash) (rev l)) eqn:E; [|reflexivity].
  apply existsb_exists in E. destruct E as (c & Hin & Hc).
  apply in_rev in Hin.
  assert (existsb (Ascii.eqb slash) l = true) by (apply existsb_exists; now exists c).
  congruence.
Qed.

Lemma dropSlashes_name (l x : text) :
  l <> [] -> existsb (Ascii.eqb slash) l = false ->
  dropSlashes (l ++ x) = l ++ x.
Proof.
  intros Hne H. destruct l as [|c l]; [congruence|].
  cbn [existsb] in H. apply orb_false_iff in H. destruct H as [Hc _].
  cbn [app dropSlashes]. now rewrite Ascii.eqb_sym, Hc.
Qed.

Lemma absolute_shape (rs : list text) :
  rs <> [] -> Forall (fun s => properSegment s = true) rs ->
  exists c tl, absolute rs = slash :: c :: tl.
Proof.
  intros Hne Hrs. destruct rs as [|s rs]; [congruence|].
  inversion Hrs as [|? ? Hs _]; subst.
  apply properSegment_spec in Hs. destruct Hs as (Hs & _).
  destruct s as [|c s]; [congruence|].
  unfold absolute. cbn. eexists. eexists. reflexivity.
Qed.

(** The directory of a file right below a normalized absolute
    directory. *)
Lemma dirname_below (rs : list text) (name : text) :
  rs <> [] -> Forall (fun s => properSegment s = true) rs ->
  properSegment name = true ->
  dirname (absolute rs ++ slash :: name) = absolute rs.
Proof.
  intros Hne Hrs Hp.
  destruct (absolute_shape rs Hne Hrs) as (c & tl & ->).
  apply properSegment_spec in Hp. destruct Hp as (Hn & _ & _ & _ & Hs).
  cbn [app]. unfold dirname. cbn [Ascii.eqb].
  change (Ascii.eqb slash slash) with true. cbv iota.
  change (slash :: name) with ([slash] ++ name).
  change (c :: tl ++ [slash] ++ name) with ((c :: tl) ++ [slash] ++ name).
  rewrite !rev_app_distr. cbn [rev app].
  rewrite <- app_assoc. cbn [app].
  assert (Hrn : rev name <> []).
  { intros H. apply (f_equal (@rev ascii)) in H. rewrite rev_involutive in H.
    now subst. }
  rewrite (dropSlashes_name _ _ Hrn (no_slash_rev _ Hs)).
  rewrite (dropName_app _ _ (no_slash_rev _ Hs)).
  destruct (rev tl ++ [c]) as [|b before] eqn:E.
  - destruct (rev tl); discriminate.
  - rewrite <- E. rewrite rev_app_distr, rev_involutive. reflexivity.
Qed.

End DirnameFacts.

Lemma filePath_shape (us : list text) (now : N) (name : Upload.FileName) :
  us <> [] ->
  Forall (fun s => Path.properSegment s = true) us ->
  Upload.filePath (Path.absolute us) now name
  = Path.absolute (us ++ [Upload.storedName now name]).
Proof.
  intros Hne Hus. unfold Upload.filePath.
  rewrite (PathMore.join_proper us _ Hne Hus (UploadFacts.storedName_proper now name)).
  rewrite PathFacts.absolute_app. unfold Path.absolute at 3. cbn [map concat].
  now rewrite app_nil_r.
Qed.

(** An upload is saved right below the uploads directory, under a name
    that is a single path segment, whatever the name of the uploaded
    file. *)
Theorem upload_is_saved_inside (us : list text) (now : N) (name : Upload.FileName) :
  us <> [] ->
  Forall (fun s => Path.properSegment s = true) us ->
  Path.properSegment (Upload.storedName now name) = true /\
  Upload.filePath (Path.absolute us) now name
  = Path.absolute (us ++ [Upload.storedName now name]) /\
  Path.inside (Path.absolute us) (Upload.filePath (Path.absolute us) now name) = true.
Proof.
  intros Hne Hus.
  split; [apply UploadFacts.storedName_proper|].
  split; [now apply filePath_shape|].
  unfold Upload.filePath.
  rewrite (PathMore.join_proper us _ Hne Hus (UploadFacts.storedName_proper now name)).
  apply PathFacts.inside_below. right. eexists. reflexivity.
Qed.

Lemma upload_is_saved_inside_witness :
  Upload.filePath (lit "/srv/uploads") 17 (Upload.units (lit "../../etc/passwd"))
  = lit "/srv/uploads/17-.._.._etc_passwd" /\
  Path.inside (lit "/srv/uploads")
    (Upload.filePath (lit "/srv/uploads") 17 (Upload.units (lit "../../etc/passwd")))
  = true.
Proof.
  split; [vm_compute; reflexivity|].
  apply (upload_is_saved_inside [lit "srv"; lit "uploads"] 17
           (Upload.units (lit "../../etc/passwd"))).
  - discriminate.
  - repeat constructor.
Defined.

(** The analyzer made for an upload unpacks into a directory next to the
    saved file: an absolute, normalized path below the uploads
    directory.  Below it, the path written for an entry name without a
    [..] segment stays inside. *)
Theorem analyzer_unpacks_next_to_upload
  (us : list text) (now started : N) (name : Upload.FileName) (fs : Files) :
  us <> [] ->
  Forall (fun s => Path.properSegment s = true) us ->
  let analyzer := newAnalyzer (Upload.filePath (Path.absolute us) now name) started fs in
  extractedPath analyzer = Path.absolute (us ++ [extractedName started]) /\
  Forall (fun s => Path.properSegment s = true) (us ++ [extractedName started]) /\
  forall fileName,
    noParentSegment fileName ->
    Path.inside (extractedPath analyzer)
      (outputPath (extractedPath analyzer) fileName) = true.
Proof.
  intros Hne Hus analyzer.
  pose proof (UploadFacts.storedName_proper now name) as Hp.
  pose proof (filePath_shape us now name Hne Hus) as Hfile.
  assert (Hroot : extractedPath analyzer = Path.absolute (us ++ [extractedName started])).
  { unfold analyzer, newAnalyzer. cbn [extractedPath].
    unfold Upload.filePath.
    rewrite (PathMore.join_proper us _ Hne Hus Hp).
    rewrite (DirnameFacts.dirname_below us _ Hne Hus Hp).
    fold (extractedName started).
    rewrite (PathMore.join_proper us _ Hne Hus
               (UploadFacts.extractedName_proper started)).
    rewrite PathFacts.absolute_app. unfold Path.absolute at 3. cbn [map concat].
    now rewrite app_nil_r. }
  assert (Hall : Forall (fun s => Path.properSegment s = true)
                   (us ++ [extractedName started])).
  { apply Forall_app. split; [exact Hus|].
    constructor; [apply UploadFacts.extractedName_proper|constructor]. }
  split; [exact Hroot|]. split; [exact Hall|].
  intros fileName Hname. rewrite Hroot.
  apply outputPath_inside_root; try assumption.
  destruct us; discriminate.
Qed.

Lemma analyzer_unpacks_next_to_upload_witness :
  extractedPath
    (newAnalyzer (Upload.filePath (lit "/srv/uploads") 17
                    (Upload.units (lit "app.apk"))) 18
       (fun _ => None))
  = lit "/srv/uploads/extracted_18".
Proof.
  assert (Hne : [lit "srv"; lit "uploads"] <> []) by discriminate.
  assert (Hus : Forall (fun s => Path.properSegment s = true)
                  [lit "srv"; lit "uploads"]) by (repeat constructor).
  exact (proj1 (analyzer_unpacks_next_to_upload [lit "srv"; lit "uploads"] 17 18
                  (Upload.units (lit "app.apk")) (fun _ => None) Hne Hus)).
Defined.

(** ** The artifact of a job *)

Module ArtifactFacts.
Import Path PathFacts PathMore PathParts UploadFacts DirnameFacts.

Lemma takeName_no_slash (r : text) :
  existsb (Ascii.eqb slash) (takeName r) = false.
Proof.
  induction r as [|c r IH]; [reflexivity|].
  cbn [takeName]. destruct (Ascii.eqb c slash) eqn:E; [reflexivity|].
  cbn [existsb]. now rewrite Ascii.eqb_sym, E, IH.
Qed.

Lemma basename_no_slash (p : text) :
  existsb (Ascii.eqb slash) (basename p) = false.
Proof. unfold basename. apply no_slash_rev, takeName_no_slash. Qed.

(** The name of the repackaged archive is one segment. *)
Lemma artifactName_proper (now : N) (apkPath : text) :
  properSegment (lit "dev_mode_" ++ decimal now ++ lit "_" ++ basename apkPath) = true.
Proof.
  apply (proper_by_character _ (ascii_of_nat 100)).
  - now left.
  - discriminate.
  - apply no_slash_app; [reflexivity|].
    apply no_slash_app; [apply decimal_no_slash|].
    apply no_slash_app; [reflexivity|apply basename_no_slash].
Qed.

Lemma normalize_fixed (path : text) :
  path <> [] -> isAbsolute path = false -> trailingSeparator path = false ->
  normalizeString path true = path ->
  normalize path = path.
Proof.
  intros H1 H2 H3 H4. destruct path as [|c t]; [congruence|].
  unfold normalize. rewrite H2, H3. cbn [negb]. now rewrite H4.
Qed.

(** Joining one segment onto a relative directory of one segment. *)
Lemma join_relative (d name : text) :
  properSegment d = true -> properSegment name = true ->
  join d name = d ++ slash :: name.
Proof.
  intros Hd Hp.
  pose proof (properSegment_spec _ Hd) as (Hdne & _ & _ & _ & Hds).
  pose proof (properSegment_spec _ Hp) as (Hne & _ & _ & _ & Hs).
  unfold join. destruct d as [|c0 d']; [congruence|].
  destruct name as [|n0 name']; [congruence|].
  apply normalize_fixed.
  - discriminate.
  - cbn [app isAbsolute]. cbn [existsb] in Hds.
    apply orb_false_iff in Hds. destruct Hds as [Hc _].
    now rewrite Ascii.eqb_sym.
  - now apply trailingSeparator_name.
  - unfold normalizeString.
    rewrite split_app_slash, (split_no_slash _ Hds), (split_no_slash _ Hs).
    cbn [app]. rewrite normalizeSegs_no_dotdot.
    + cbn [rev app].
      assert (E : filter kept [c0 :: d'; n0 :: name'] = [c0 :: d'; n0 :: name']).
      { apply (filter_kept_proper [c0 :: d'; n0 :: name']).
        repeat constructor; assumption. }
      etransitivity; [apply (f_equal unsplit); exact E|reflexivity].
    + apply proper_not_dotdot. repeat constructor; assumption.
Qed.

Lemma join_outputDir (name : text) :
  properSegment name = true ->
  join outputDir name = outputDir ++ slash :: name.
Proof. apply join_relative. reflexivity. Qed.

Lemma fixedApkPathAt_shape (now : N) (apkPath : text) :
  exists name,
    properSegment name = true /\
    fixedApkPathAt now apkPath = outputDir ++ slash :: name.
Proof.
  exists (lit "dev_mode_" ++ decimal now ++ lit "_" ++ basename apkPath).
  split; [apply artifactName_proper|].
  unfold fixedApkPathAt. apply (join_outputDir _ (artifactName_proper now apkPath)).
Qed.

Lemma split_first_skip (p0 c : ascii) (p s : text) :
  Ascii.eqb p0 c = false ->
  split_first (p0 :: p) (c :: s)
  = match split_first (p0 :: p) s with
    | Some (before, after) => Some (c :: before, after)
    | None => None
    end.
Proof. intros H. cbn [split_first starts_with]. now rewrite H. Qed.

Lemma replace_first_skip (p0 c : ascii) (p r s : text) :
  Ascii.eqb p0 c = false ->
  replace_first (p0 :: p) r (c :: s) = c :: replace_first (p0 :: p) r s.
Proof.
  intros H. unfold replace_first. rewrite (split_first_skip p0 c p s H).
  now destruct (split_first (p0 :: p) s) as [[before after]|].
Qed.

(** The first [.apk] of a path in the output directory lies in the name
    of the file. *)
Lemma replace_first_outputDir (r name : text) :
  replace_first Signer.dotApk r (outputDir ++ slash :: name)
  = outputDir ++ slash :: replace_first Signer.dotApk r name.
Proof.
  unfold outputDir, Signer.dotApk. cbn [app].
  now rewrite !replace_first_skip by reflexivity.
Qed.

Lemma no_slash_parts (a b c : text) :
  existsb (Ascii.eqb slash) (a ++ b ++ c) = false ->
  existsb (Ascii.eqb slash) a = false /\ existsb (Ascii.eqb slash) c = false.
Proof.
  rewrite !existsb_app, !orb_false_iff. tauto.
Qed.

(** Replacing the first [.apk] of one segment by a text without
    separator leaves one segment. *)
Lemma replaced_no_slash (r name : text) :
  r <> [] -> existsb (Ascii.eqb slash) r = false ->
  name <> [] -> existsb (Ascii.eqb slash) name = false ->
  replace_first Signer.dotApk r name <> [] /\
  existsb (Ascii.eqb slash) (replace_first Signer.dotApk r name) = false.
Proof.
  intros Hr Hrs Hn Hns. unfold replace_first.
  destruct (split_first Signer.dotApk name) as [[before after]|] eqn:E;
    [|now split].
  apply split_first_some in E. rewrite E in Hns.
  apply no_slash_parts in Hns. destruct Hns as [Hb Ha].
  split.
  - intros H. apply app_eq_nil in H. destruct H as [_ H].
    apply app_eq_nil in H. destruct H as [H _]. contradiction.
  - now rewrite !existsb_app, Hb, Hrs, Ha.
Qed.

(** The directory of a file right below a relative directory. *)
Lemma dirname_relative (c0 : ascii) (d' name : text) :
  d' <> [] -> name <> [] -> existsb (Ascii.eqb slash) name = false ->
  dirname ((c0 :: d') ++ slash :: name) = c0 :: d'.
Proof.
  intros Hd Hn Hs. cbn [app]. unfold dirname.
  assert (E : rev (d' ++ slash :: name) = rev name ++ slash :: rev d').
  { rewrite rev_app_distr. cbn [rev]. now rewrite <- app_assoc. }
  assert (Hrn : rev name <> []).
  { intros H. apply (f_equal (@rev ascii)) in H. rewrite rev_involutive in H.
    now subst. }
  rewrite E, (dropSlashes_name _ _ Hrn (no_slash_rev _ Hs)).
  rewrite (dropName_app _ _ (no_slash_rev _ Hs)).
  destruct (rev d') as [|b before] eqn:Er.
  - apply (f_equal (@rev ascii)) in Er. rewrite rev_involutive in Er. now subst.
  - rewrite <- Er, rev_involutive. reflexivity.
Qed.

Lemma dirname_outputDir (name : text) :
  name <> [] -> existsb (Ascii.eqb slash) name = false ->
  dirname (outputDir ++ slash :: name) = outputDir.
Proof.
  intros Hn Hs.
  apply (dirname_relative (ascii_of_nat 102) (lit "ixed_apks") name);
    [discriminate|assumption|assumption].
Qed.

(** The aligned and the signed path of the repackaged archive lie in
    the directory of that archive. *)
Lemma signing_stays_in_outputDir (now : N) (apkPath : text) :
  let p := fixedApkPathAt now apkPath in
  dirname (alignedPathOf p) = dirname p /\
  dirname (signedPathOf p) = dirname p.
Proof.
  intros p. unfold p.
  destruct (fixedApkPathAt_shape now apkPath) as (name & Hp & ->).
  pose proof (properSegment_spec _ Hp) as (Hne & _ & _ & _ & Hs).
  unfold alignedPathOf, signedPathOf.
  rewrite !replace_first_outputDir.
  rewrite (dirname_outputDir name Hne Hs).
  split.
  - destruct (replaced_no_slash (lit "_aligned.apk") name) as [H1 H2];
      try assumption; try discriminate; try reflexivity.
    now apply dirname_outputDir.
  - destruct (replaced_no_slash (lit "_signed.apk") name) as [H1 H2];
      try assumption; try discriminate; try reflexivity.
    now apply dirname_outputDir.
Qed.

(** So the signer of a job can make both. *)
Lemma signing_writable (tools : Signer.Tools) (now : N) (apkPath : text) :
  let p := fixedApkPathAt now apkPath in
  Signer.writable (Signer.withDirectory tools (dirname p)) (alignedPathOf p) = true /\
  Signer.writable (Signer.withDirectory tools (dirname p)) (signedPathOf p) = true.
Proof.
  intros p. destruct (signing_stays_in_outputDir now apkPath) as [Ha Hs].
  fold p in Ha, Hs. unfold Signer.writable, Signer.withDirectory.
  cbn [Signer.directoryExists]. rewrite Ha, Hs, text_eqb_refl. now split.
Qed.

End ArtifactFacts.

Section JobArtifact.

Variable devModeSource : text -> text.

(** A completed job has no artifact exactly when repackaging gave up at
    its set-up; otherwise its artifact is the signed path derived from
    the repackaged archive's path, and a file is there when the job
    ends. *)
Theorem job_artifact (env : Env) (filePath : text) (now : N) (fs : Files) :
  let run := Job.performAnalysis devModeSource env filePath now fs in
  let p := fixedApkPathAt (repackagedAt (repackager env)) filePath in
  Job.analysisStatus (fst run) = Job.completed ->
  if outputDirFails (repackager env)
  then Job.fixedApkPath (fst run) = None
  else Job.fixedApkPath (fst run) = Some (signedPathOf p) /\
       isFile (files (snd run)) (signedPathOf p) = true.
Proof.
  intros run p. unfold run, Job.performAnalysis. rewrite analyzeAPK_paths.
  destruct (apkExists env); [|discriminate].
  destruct (opened env) as [entries|]; [|discriminate].
  cbv zeta.
  destruct (fst (extractAPK (garbled env) (Some entries)
                   (newAnalyzer filePath now fs))); [|discriminate].
  pose proof (generateDevModeAPK_outcome devModeSource (repackager env)
                (afterAnalyses (spreadLimit env) analyses
                   (extracted (garbled env) entries
                      (newAnalyzer filePath now fs)))) as Hg.
  pose proof (afterAnalyses_world (spreadLimit env) analyses
                (extracted (garbled env) entries (newAnalyzer filePath now fs))
                analyses_wellBehaved) as Hw.
  pose proof (world_apkPath _ _ Hw) as Hpath.
  destruct (extracted_paths (garbled env) entries (newAnalyzer filePath now fs))
    as (Hpath' & _ & _).
  rewrite Hpath' in Hpath. change (apkPath (newAnalyzer filePath now fs))
    with filePath in Hpath. clear Hw Hpath'.
  destruct (generateDevModeAPK _ _ _) as [[[p'|]|e'] st3].
  - destruct Hg as (Hd & _ & _ & Hp' & archive & _ & Hst3).
    rewrite Hpath in Hp'. fold p in Hp'. subst p'. rewrite Hd.
    assert (Hin : files st3 p = Some archive).
    { rewrite Hst3. cbn [files withArchives]. apply writeFile_same. }
    destruct (ArtifactFacts.signing_writable (tools env)
                (repackagedAt (repackager env)) filePath) as [Hwa Hws].
    fold p in Hwa, Hws.
    rewrite (signApk_run _ p archive (files st3) Hin).
    rewrite (signedRun_writable _ p archive (files st3) Hwa Hws).
    cbn [fst snd].
    destruct (Job.packageFields _); [|discriminate]. intros _.
    cbn [fst snd Job.fixedApkPath a_fixedApkPath analysisOf].
    split; [reflexivity|]. rewrite cleaned_files. cbn [files withArchives].
    pose proof (signedRun_file
                  (Signer.withDirectory (tools env) (PathParts.dirname p))
                  p archive (files st3) Hin) as [_ Hfile].
    now rewrite (signedRun_writable _ p archive (files st3) Hwa Hws) in Hfile.
  - destruct Hg as [Hd _]. rewrite Hd.
    destruct (Job.packageFields _); [|discriminate]. intros _. reflexivity.
  - discriminate.
Qed.

End JobArtifact.

Lemma job_artifact_witness :
  let run := Job.performAnalysis (fun s => s) (sampleEnv false 1000)
               (lit "/srv/uploads/17-app.apk") 17 (fun _ => None) in
  Job.analysisStatus (fst run) = Job.completed /\
  isFile (files (snd run)) (lit "fixed_apks/dev_mode_18_17-app_signed.apk") = true.
Proof.
  assert (H : Job.analysisStatus
                (fst (Job.performAnalysis (fun s => s)
                        (sampleEnv false 1000)
                        (lit "/srv/uploads/17-app.apk") 17 (fun _ => None)))
              = Job.completed) by (vm_compute; reflexivity).
  split; [exact H|].
  exact (proj2 (job_artifact (fun s => s) (sampleEnv false 1000)
                  (lit "/srv/uploads/17-app.apk") 17 (fun _ => None) H)).
Defined.

(** ** A detector that throws in a run *)

Module CrowdFacts.
Import Path PathFacts PathMore TreeFacts UploadFacts.

Lemma bits_inj (p q : positive) : bits p = bits q -> p = q.
Proof.
  revert q. induction p as [p IH|p IH|]; intros [q|q|]; cbn [bits]; intros H;
    try discriminate; try reflexivity;
    try (injection H as H; f_equal; now apply IH);
    injection H as H; destruct p + destruct q; discriminate.
Qed.

Lemma bits_digits (p : positive) :
  Forall (fun c => c = digitZero \/ c = digitOne) (bits p) /\ bits p <> [].
Proof.
  induction p as [p [IH _]|p [IH _]|]; cbn [bits]; split; try discriminate;
    constructor; try assumption; try (now left); try (now right); constructor.
Qed.

Lemma sourceName_inj (i j : nat) : sourceName i = sourceName j -> i = j.
Proof.
  unfold sourceName. intros H. apply app_inv_head, app_inv_tail, bits_inj in H.
  now apply SuccNat2Pos.inj.
Qed.

(** No character of a name is one of the given ones. *)
Lemma sourceName_chars (i : nat) (c : ascii) :
  In c (sourceName i) ->
  In c (lit "F.java") \/ c = digitZero \/ c = digitOne.
Proof.
  unfold sourceName. intros H. apply in_app_or in H. destruct H as [H|H].
  - left. cbn in H |- *. tauto.
  - apply in_app_or in H. destruct H as [H|H].
    + right. destruct (bits_digits (Pos.of_succ_nat i)) as [Hd _].
      rewrite Forall_forall in Hd. now apply Hd.
    + left. cbn in H |- *. tauto.
Qed.

Lemma sourceName_without (i : nat) (c : ascii) :
  ~ In c (lit "F.java") -> c <> digitZero -> c <> digitOne ->
  existsb (Ascii.eqb c) (sourceName i) = false.
Proof.
  intros H1 H2 H3. apply existsb_none, Forall_forall. intros d Hd.
  destruct (Ascii.eqb c d) eqn:E; [|reflexivity].
  apply Ascii.eqb_eq in E. subst d.
  destruct (sourceName_chars i c Hd) as [H|[H|H]]; contradiction.
Qed.

Lemma unixName_plain (s : text) :
  existsb (Ascii.eqb backslash) s = false -> unixName s = s.
Proof.
  induction s as [|c s IH]; [reflexivity|].
  cbn [existsb unixName map]. fold (unixName s). intros H.
  apply orb_false_iff in H. destruct H as [Hc Hs].
  rewrite Ascii.eqb_sym, Hc. now rewrite (IH Hs).
Qed.

Lemma sourceName_flat (i : nat) : flatName (sourceName i) = true.
Proof.
  unfold flatName.
  assert (Hu : unixName (sourceName i) = sourceName i).
  { apply unixName_plain. apply sourceName_without; try discriminate.
    cbn. intros H. repeat (destruct H as [H|H]; [discriminate|]). exact H. }
  rewrite Hu. apply andb_true_iff. split.
  - apply (proper_by_character _ (ascii_of_nat 70)).
    + now left.
    + discriminate.
    + apply sourceName_without; try discriminate.
      cbn. intros H. repeat (destruct H as [H|H]; [discriminate|]). exact H.
  - unfold sourceName, hasDrive. cbn [app lit list_ascii_of_string].
    destruct (bits_digits (Pos.of_succ_nat i)) as [Hd Hne].
    destruct (bits (Pos.of_succ_nat i)) as [|b r]; [congruence|].
    inversion Hd as [|? ? Hb _]; subst. cbn [app].
    destruct Hb as [-> | ->]; reflexivity.
Qed.

Lemma sourceName_java (i : nat) :
  hasExtension XSS.extensions (sourceName i) = true.
Proof.
  unfold hasExtension, XSS.extensions. cbn [existsb].
  assert (H : ends_with (sourceName i) (lit ".java") = true).
  { unfold ends_with, sourceName. rewrite app_assoc, rev_app_distr.
    apply starts_with_app. }
  now rewrite H.
Qed.

Lemma NoDup_map_injective {A B : Type} (f : A -> B) (l : list A) :
  (forall x y, f x = f y -> x = y) -> NoDup l -> NoDup (map f l).
Proof.
  intros Hf. induction 1 as [|x l Hx _ IH]; cbn [map]; constructor; [|exact IH].
  intros H. apply in_map_iff in H. destruct H as (y & E & Hy).
  apply Hf in E. now subst y.
Qed.

Lemma manySources_names (n : nat) : NoDup (map fst (manySources n)).
Proof.
  unfold manySources. rewrite map_map. cbn [fst].
  apply NoDup_map_injective; [|apply seq_NoDup].
  intros i j. apply sourceName_inj.
Qed.

Lemma manySources_flat (n : nat) :
  Forall (fun e => flatName (fst e) = true) (manySources n).
Proof.
  unfold manySources. apply Forall_map, Forall_forall. intros i _.
  apply sourceName_flat.
Qed.

Lemma manySources_entry (n : nat) (name data : text) :
  In (name, data) (manySources n) ->
  data = domWriter /\ exists i, name = sourceName i.
Proof.
  unfold manySources. intros H. apply in_map_iff in H.
  destruct H as (i & E & _). injection E as <- <-. split; [reflexivity|].
  now exists i.
Qed.

Lemma manySources_without_manifest (n : nat) :
  ~ In manifestName (map fst (manySources n)).
Proof.
  intros H. apply in_map_iff in H. destruct H as ([name data] & E & Hin).
  cbn [fst] in E. subst name.
  apply manySources_entry in Hin. destruct Hin as (_ & i & E).
  unfold sourceName in E. discriminate.
Qed.

(** What [findFiles] finds in a directory that holds source files
    only. *)
Lemma findFilesIn_sources (dir : text) (t : Tree) :
  Forall (fun nx => snd nx = File domWriter /\ exists i, fst nx = sourceName i) t ->
  findFilesIn XSS.extensions dir t
  = map (fun nx => (Path.join dir (fst nx), domWriter)) t.
Proof.
  induction 1 as [|[name x] t [Hx (i & Hn)] _ IH]; [reflexivity|].
  cbn [fst snd] in Hx, Hn. subst x name.
  cbn [findFilesIn findFilesAt map fst].
  change (existsb (fun ext => ends_with (sourceName i) ext) XSS.extensions)
    with (hasExtension XSS.extensions (sourceName i)).
  rewrite sourceName_java. cbn [app]. now rewrite IH.
Qed.

Lemma domWriter_findings (file : text) :
  fileFindings (file, domWriter) = [XSS.xss003 file].
Proof.
  rewrite fileFindings_cases.
  assert (H1 : unsafeJavaScript domWriter = false) by (vm_compute; reflexivity).
  assert (H2 : includes domWriter (lit "loadUrl(") = false)
    by (vm_compute; reflexivity).
  assert (H3 : includes domWriter (lit "innerHTML") = true)
    by (vm_compute; reflexivity).
  now rewrite H1, H2, H3.
Qed.

Section Crowd.

Variable n : nat.
Variable garbled : Archive -> Archive * bool.
Variable st : State.
Variable rs : list text.
Hypothesis rs_nonempty : rs <> [].
Hypothesis rs_proper : Forall (fun s => properSegment s = true) rs.
Hypothesis st_root : extractedPath st = absolute rs.
Hypothesis st_fresh : scratch st = None.

(** Extraction of the large archive. *)
Lemma crowd_extracted :
  extractAPK garbled (Some (manySources n)) st
  = (Returned tt, withFiles st (Some (filed (manySources n) [])) (outside st)).
Proof.
  unfold extractAPK. rewrite st_root, st_fresh.
  rewrite (readEntries_flat rs rs_nonempty rs_proper garbled (manySources n)
             (outside st) (manySources_flat n) []); [reflexivity|].
  intros name x H. discriminate.
Qed.

Lemma crowd_scratch :
  scratch (extracted garbled (manySources n) st) = Some (filed (manySources n) []).
Proof. unfold extracted. now rewrite crowd_extracted. Qed.

Lemma crowd_resolves : resolves garbled (manySources n) st = true.
Proof. unfold resolves. now rewrite crowd_extracted. Qed.

Lemma crowd_no_manifest :
  lookup manifestName (filed (manySources n) []) = None.
Proof.
  now rewrite (lookup_filed_other _ _ _ (manySources_without_manifest n)).
Qed.

(** The XSS detector finds one vulnerability in each of the files. *)
Lemma crowd_xss (root : text) :
  exists files : list (text * text),
    length files = n /\
    f_vulnerabilities (XSS.scan (Some (filed (manySources n) [])) root)
    = map (fun f => XSS.xss003 (fst f)) files.
Proof.
  exists (map (fun nx => (Path.join root (fst nx), domWriter))
            (filed (manySources n) [])).
  split.
  - rewrite length_map, length_filed.
    + unfold manySources. now rewrite length_map, length_seq.
    + apply manySources_names.
    + intros e _. reflexivity.
  - unfold XSS.scan, findFiles. rewrite findFilesIn_sources.
    + rewrite scan_appends. cbn [f_vulnerabilities nothingFound app].
      induction (filed (manySources n) []) as [|nx t IH]; [reflexivity|].
      cbn [map concat fst]. now rewrite domWriter_findings, IH.
    + apply Forall_forall. intros [name x] Hin.
      apply (filed_items _ _ _ (manySources_names n)) in Hin.
      destruct Hin as (data & -> & Hin).
      apply manySources_entry in Hin. destruct Hin as [-> Hi]. now split.
Qed.

End Crowd.

End CrowdFacts.

(** A job on an archive of [n] source files that write into the DOM,
    in an engine whose calls take fewer than [n] arguments. *)
Lemma crowd_job (n limit : nat) :
  (limit < n)%nat ->
  let env := crowdEnv n limit in
  let job :=
    fst (Job.performAnalysis (fun s => s) env
           (lit "/srv/uploads/17-app.apk") 17 (fun _ => None)) in
  (exists e,
     fst (invoke (spreadLimit env) (xss, analyzeXSS)
            (snd (invoke (spreadLimit env) (reconnaissance, analyzeReconnaissance)
                    (extracted (garbled env) (manySources n) sampleAnalyzer))))
     = Thrown e) /\
  Job.analysisStatus job = Job.completed /\
  (exists res,
     Job.analysisResults job = Some res /\
     status (res xss) = Status.critical /\
     issueCount (res xss) = Z.of_nat n /\
     status (res csrf) = Status.passed) /\
  Job.vulnerabilities job = Some [] /\
  Job.securityScore job = Some 100.
Proof.
  intros Hlt. cbv zeta.
  change (spreadLimit (crowdEnv n limit)) with limit.
  change (garbled (crowdEnv n limit))
    with (fun _ : Archive => (@nil (text * text), false)).
  assert (Hroot : extractedPath sampleAnalyzer
                  = Path.absolute [lit "srv"; lit "uploads"; lit "extracted_17"])
    by (vm_compute; reflexivity).
  assert (Hne : [lit "srv"; lit "uploads"; lit "extracted_17"] <> [])
    by discriminate.
  assert (Hrs : Forall (fun s => Path.properSegment s = true)
                  [lit "srv"; lit "uploads"; lit "extracted_17"])
    by (repeat constructor).
  pose proof (CrowdFacts.crowd_scratch n (fun _ => ([], false)) sampleAnalyzer
                _ Hne Hrs Hroot eq_refl) as Hscratch.
  pose proof (CrowdFacts.crowd_resolves n (fun _ => ([], false)) sampleAnalyzer
                _ Hne Hrs Hroot eq_refl) as Hresolves.
  pose proof (CrowdFacts.crowd_no_manifest n) as Hmanifest.
  set (st1 := extracted (fun _ => ([], false)) (manySources n) sampleAnalyzer)
    in *.
  destruct (CrowdFacts.crowd_xss n (extractedPath st1)) as (files & Hlen & Hvs).
  (* the record of the XSS detector *)
  assert (Hxss : forall st, world st = world st1 ->
            vulnerabilities (analysisResults (analyzeXSS st) xss)
            = map (fun f => XSS.xss003 (fst f)) files).
  { intros st Hw. unfold analyzeXSS. rewrite store_result.
    cbn [vulnerabilities checkOf].
    rewrite (world_scratch _ _ Hw), (world_extractedPath _ _ Hw), Hscratch.
    exact Hvs. }
  assert (Hlong : forall st, world st = world st1 ->
            (limit
             < length (vulnerabilities (analysisResults (analyzeXSS st) xss)))%nat).
  { intros st Hw. rewrite (Hxss st Hw), length_map, Hlen. exact Hlt. }
  (* the job *)
  assert (Hcompletes : completes (crowdEnv n limit) sampleAnalyzer = true).
  { unfold completes, returns, parsedManifest, parseManifest.
    cbn [apkExists opened garbled repackager outputDirFails archiveFails
         workingRepackager crowdEnv xml2js fst andb orb negb].
    fold st1. rewrite Hresolves. unfold manifestIsDirectory.
    rewrite Hscratch, Hmanifest. reflexivity. }
  destruct (performAnalysis_cases (fun s => s) (crowdEnv n limit)
              (lit "/srv/uploads/17-app.apk") 17 (fun _ => None))
    as [[Hno _]|(_ & a & fields & entries & Hjob & Ho & Hres & Hvs')].
  { change (newAnalyzer (lit "/srv/uploads/17-app.apk") 17 (fun _ => None))
      with sampleAnalyzer in Hno. congruence. }
  cbn [opened crowdEnv] in Ho. injection Ho as <-.
  change (newAnalyzer (lit "/srv/uploads/17-app.apk") 17 (fun _ => None))
    with sampleAnalyzer in Hres, Hvs'.
  cbn [garbled spreadLimit crowdEnv] in Hres, Hvs'. fold st1 in Hres, Hvs'.
  destruct (completed_results (crowdEnv n limit) (manySources n) sampleAnalyzer
              eq_refl eq_refl) as (Hd & Hsound & Hpushed).
  cbn [garbled spreadLimit crowdEnv] in Hd, Hsound, Hpushed.
  fold st1 in Hd, Hsound, Hpushed.
  set (st2 := afterAnalyses limit analyses st1) in *.
  assert (Hresx : vulnerabilities (analysisResults st2 xss)
                  = map (fun f => XSS.xss003 (fst f)) files).
  { rewrite (Hd xss analyzeXSS) by (right; left; reflexivity).
    apply Hxss. reflexivity. }
  rewrite Hjob.
  cbn [completedRecord Job.analysisStatus Job.analysisResults
       Job.vulnerabilities Job.securityScore].
  split; [|split; [reflexivity|split; [|]]].
  - (* the push of the XSS detector throws *)
    set (st' := snd (invoke limit (reconnaissance, analyzeReconnaissance) st1)).
    unfold invoke at 1. cbn [fst snd].
    assert (Hw : world st' = world st1).
    { unfold st'. rewrite invoke_world.
      destruct (store_wellBehaved reconnaissance (lit "reconnaissance issues")
                  (fun st => Recon.scan (scratch st))
                  (fun s s' H => f_equal Recon.scan (world_scratch s s' H)) st1)
        as (H & _). exact H. }
    pose proof (Hlong st' Hw) as Hl. apply Nat.leb_gt in Hl. rewrite Hl.
    eexists. reflexivity.
  - exists (a_analysisResults a). split; [reflexivity|]. rewrite Hres.
    destruct (Hsound xss) as [(Hc & _ & _ & Hn) _].
    split; [|split].
    + apply Hc. rewrite Hresx.
      destruct files as [|f files']; [cbn [length] in Hlen; lia|].
      exists (XSS.xss003 (fst f)). split; [left; reflexivity|].
      right. reflexivity.
    + rewrite Hn, Hresx, length_map, Hlen. reflexivity.
    + rewrite (Hd csrf analyzeCSRF).
      * unfold analyzeCSRF. rewrite assignFixed_result. reflexivity.
      * unfold analyses. do 2 right. left. reflexivity.
  - assert (Hnone : a_vulnerabilities a = []).
    { rewrite Hvs', Hpushed. unfold pushed.
      apply concat_nil_Forall, Forall_map, Forall_forall.
      intros [c d] Hin. cbn [fst].
      destruct (Nat.leb_spec
                  (length (vulnerabilities (analysisResults st2 c)))
                  limit) as [Hshort|_]; [|reflexivity].
      rewrite (Hd c d Hin) in *.
      unfold analyses in Hin. cbn [In] in Hin.
      destruct Hin as [Hin|Hin].
      { injection Hin as <- <-. unfold analyzeReconnaissance.
        rewrite store_result. cbn [vulnerabilities checkOf].
        unfold Recon.scan. rewrite Hscratch, Hmanifest. reflexivity. }
      destruct Hin as [Hin|Hin].
      { injection Hin as <- <-.
        pose proof (Hlong st1 eq_refl) as Hl. lia. }
      repeat (destruct Hin as [Hin|Hin];
              [injection Hin as <- <-;
               match goal with
               | |- vulnerabilities (analysisResults (?f st1) ?c) = [] =>
                   unfold f; rewrite assignFixed_result; reflexivity
               end|]).
      contradiction. }
    rewrite Hnone. split; reflexivity.
Qed.


(** ** Occurrences of a pattern around a character it does not hold *)

Module Occurrences.

Lemma includes_app_l (x y p : text) :
  includes x p = true -> includes (x ++ y) p = true.
Proof.
  intros H. apply includes_iff in H. destruct H as (a & b & ->).
  apply includes_iff. exists a, (b ++ y). now rewrite <- !app_assoc.
Qed.

Lemma includes_nil (s : text) : includes s [] = true.
Proof. destruct s; reflexivity. Qed.

Lemma absent_not_in (c : ascii) (p : text) :
  existsb (Ascii.eqb c) p = false -> ~ In c p.
Proof.
  intros H Hin.
  assert (existsb (Ascii.eqb c) p = true).
  { apply existsb_exists. exists c. split; [exact Hin|apply Ascii.eqb_refl]. }
  congruence.
Qed.

(** An occurrence of [p] in a text with a character that [p] does not
    hold lies before or behind that character. *)
Lemma includes_sep (c : ascii) (p x y : text) :
  existsb (Ascii.eqb c) p = false ->
  includes (x ++ c :: y) p = includes x p || includes y p.
Proof.
  intros Hc. apply absent_not_in in Hc.
  destruct p as [|p0 p'].
  { now rewrite !includes_nil. }
  apply eq_true_iff_eq. rewrite orb_true_iff, !includes_iff. split.
  - intros (a & b & E).
    apply app_eq_app in E. destruct E as (l & [[Ex Ep] | [Ea Ey]]).
    + apply app_eq_app in Ep. destruct Ep as (m & [[Epl Em] | [El Eb]]).
      * destruct m as [|m0 m'].
        -- left. exists a, []. rewrite app_nil_r in Epl. subst l.
           now rewrite app_nil_r.
        -- exfalso. apply Hc. injection Em as -> _.
           rewrite Epl. apply in_or_app. right. now left.
      * left. exists a, m. subst l. exact Ex.
    + destruct l as [|l0 l'].
      * exfalso. apply Hc. cbn [app] in Ey. injection Ey as -> _. now left.
      * right. cbn [app] in Ey. injection Ey as _ ->. now exists l', b.
  - intros [(a & b & ->) | (a & b & ->)].
    + exists a, (b ++ c :: y). now rewrite <- !app_assoc.
    + exists (x ++ c :: a), b. now rewrite <- app_assoc.
Qed.

Lemma starts_with_sep (c : ascii) (p x y : text) :
  existsb (Ascii.eqb c) p = false ->
  starts_with p (x ++ c :: y) = starts_with p x.
Proof.
  revert x. induction p as [|p0 p IH]; intros x Hc; [reflexivity|].
  cbn [existsb] in Hc. apply orb_false_iff in Hc. destruct Hc as [H0 Hp].
  destruct x as [|x0 x]; cbn [app starts_with].
  - now rewrite Ascii.eqb_sym, H0.
  - now rewrite IH.
Qed.

Lemma starts_with_longer (p x y : text) :
  starts_with p x = true -> starts_with p (x ++ y) = true.
Proof.
  intros H. apply starts_with_spec in H. destruct H as (r & ->).
  rewrite <- app_assoc. apply starts_with_app.
Qed.

Lemma includes_char (c : ascii) (s : text) :
  includes s [c] = existsb (Ascii.eqb c) s.
Proof.
  induction s as [|d s IH]; [reflexivity|].
  cbn [includes starts_with existsb]. now rewrite andb_true_r, IH.
Qed.

Lemma includes_short (p x : text) :
  (length x < length p)%nat -> includes x p = false.
Proof.
  intros H. destruct (includes x p) eqn:E; [|reflexivity].
  apply includes_iff in E. destruct E as (a & b & ->).
  rewrite !length_app in H. lia.
Qed.

(** Before the first occurrence of a pattern is complete there is
    none. *)
Lemma split_first_prefix_free (p s a b p1 p2 : text) :
  split_first p s = Some (a, b) ->
  p = p1 ++ p2 -> p2 <> [] ->
  includes (a ++ p1) p = false.
Proof.
  intros Hs Hp Hp2. revert a Hs. induction s as [|c s IH]; intros a Hs.
  - cbn [split_first] in Hs. destruct (starts_with p []); [|discriminate].
    injection Hs as <- _. apply includes_short. subst p.
    cbn [app]. rewrite length_app. destruct p2; [congruence|]. cbn [length]. lia.
  - cbn [split_first] in Hs. destruct (starts_with p (c :: s)) eqn:Esw.
    + injection Hs as <- _. apply includes_short. subst p.
      cbn [app]. rewrite length_app. destruct p2; [congruence|]. cbn [length]. lia.
    + destruct (split_first p s) as [[a' b']|] eqn:Es'; [|discriminate].
      injection Hs as <- <-. cbn [app includes].
      rewrite (IH a' eq_refl), orb_false_r.
      destruct (starts_with p (c :: a' ++ p1)) eqn:E; [|reflexivity].
      apply split_first_some in Es'.
      assert (Hs' : c :: s = (c :: a' ++ p1) ++ p2 ++ b').
      { rewrite Es', Hp. cbn [app]. now rewrite <- !app_assoc. }
      rewrite Hs' in Esw.
      rewrite (starts_with_longer _ _ _ E) in Esw. discriminate.
Qed.

(** *** The application tag *)

Import Manifest.

Lemma tag_implies_gt (s : text) :
  hasApplicationTag s = true -> existsb (Ascii.eqb gt) s = true.
Proof.
  induction s as [|c s IH]; cbn [hasApplicationTag]; intros H.
  - rewrite orb_false_r in H. apply andb_true_iff in H. tauto.
  - apply orb_true_iff in H. destruct H as [H|H].
    + apply andb_true_iff in H. tauto.
    + cbn [existsb]. rewrite (IH H). apply orb_true_r.
Qed.

Lemma tag_implies_open (s : text) :
  hasApplicationTag s = true -> includes s applicationOpen = true.
Proof.
  induction s as [|c s IH]; cbn [hasApplicationTag includes]; intros H.
  - rewrite orb_false_r in H. apply andb_true_iff in H. destruct H as [H _].
    now rewrite H.
  - apply orb_true_iff in H. destruct H as [H|H].
    + apply andb_true_iff in H. destruct H as [H _]. now rewrite H.
    + rewrite (IH H). apply orb_true_r.
Qed.

(** The tag around a character that is neither in [<application] nor
    [>]: it lies before it, or behind it, or it opens before and closes
    behind. *)
Lemma tag_sep (c : ascii) (x y : text) :
  existsb (Ascii.eqb c) applicationOpen = false ->
  hasApplicationTag (x ++ c :: y)
  = hasApplicationTag x
    || (includes x applicationOpen
        && (Ascii.eqb gt c || existsb (Ascii.eqb gt) y))
    || hasApplicationTag y.
Proof.
  intros Hc. induction x as [|d x IH].
  - cbn [app hasApplicationTag includes].
    replace (starts_with applicationOpen (c :: y)) with false.
    2:{ symmetry. apply (starts_with_sep c applicationOpen [] y Hc). }
    reflexivity.
  - cbn [app hasApplicationTag includes]. rewrite IH.
    change (d :: x ++ c :: y) with ((d :: x) ++ c :: y).
    rewrite (starts_with_sep c applicationOpen (d :: x) y Hc).
    rewrite existsb_app. cbn [existsb].
    destruct (starts_with applicationOpen (d :: x)),
      (Ascii.eqb gt d), (existsb (Ascii.eqb gt) x), (Ascii.eqb gt c),
      (existsb (Ascii.eqb gt) y), (hasApplicationTag x),
      (includes x applicationOpen), (hasApplicationTag y); reflexivity.
Qed.

Lemma starts_with_open_gt (s : text) :
  starts_with applicationOpen s = true ->
  existsb (Ascii.eqb gt) s
  = existsb (Ascii.eqb gt) (skipn (length applicationOpen) s).
Proof.
  intros H. apply starts_with_skipn in H. rewrite H at 1.
  now rewrite existsb_app.
Qed.

(** The regular expression matches exactly when the text has a tag. *)
Lemma match_iff_tag (s : text) :
  matchApplicationTag s = None <-> hasApplicationTag s = false.
Proof.
  unfold matchApplicationTag. induction s as [|c s IH].
  - cbn. split; reflexivity.
  - cbn [split_first hasApplicationTag].
    destruct (starts_with applicationOpen (c :: s)) eqn:Esw.
    + rewrite (starts_with_open_gt _ Esw).
      set (rest := skipn (length applicationOpen) (c :: s)).
      rewrite <- (includes_char gt rest).
      destruct (split_first [gt] rest) as [[g after]|] eqn:Eg.
      * assert (includes rest [gt] = true).
        { destruct (includes rest [gt]) eqn:E; [reflexivity|].
          apply split_first_none in E. congruence. }
        rewrite H. cbn. split; discriminate.
      * apply split_first_none in Eg. rewrite Eg. cbn [andb orb].
        split; [intros _|reflexivity].
        destruct (hasApplicationTag s) eqn:Et; [|reflexivity].
        apply tag_implies_gt in Et.
        assert (Hgt : existsb (Ascii.eqb gt) (c :: s) = true).
        { cbn [existsb]. rewrite Et. apply orb_true_r. }
        rewrite (starts_with_open_gt _ Esw) in Hgt. fold rest in Hgt.
        rewrite <- includes_char in Hgt. congruence.
    + cbn [andb orb]. rewrite <- IH.
      destruct (split_first applicationOpen s) as [[before rest]|].
      * destruct (split_first [gt] rest) as [[g after]|]; split; intros H;
          try discriminate; reflexivity.
      * split; reflexivity.
Qed.

Lemma match_shape (s before group after : text) :
  matchApplicationTag s = Some (before, group, after) ->
  s = (before ++ applicationOpen ++ group) ++ gt :: after.
Proof.
  unfold matchApplicationTag. intros H.
  destruct (split_first applicationOpen s) as [[b rest]|] eqn:E1; [|discriminate].
  destruct (split_first [gt] rest) as [[g a]|] eqn:E2; [|discriminate].
  injection H as <- <- <-.
  apply split_first_some in E1. apply split_first_some in E2.
  rewrite E1, E2. now rewrite <- !app_assoc.
Qed.

(** *** Replacing every occurrence *)

Lemma replace_all_absent (p r s : text) :
  includes s p = false -> replace_all p r s = s.
Proof.
  intros H. unfold replace_all. apply split_first_none in H.
  destruct (length s); cbn [replace_all_from]; [reflexivity|]. now rewrite H.
Qed.

(** A relation between texts that replacing one occurrence keeps is kept
    by replacing them all. *)
Lemma replace_all_related (R : text -> text -> Prop) (p r : text) :
  (forall s, R s s) ->
  (forall a b b', R b' b -> R (a ++ r ++ b') (a ++ p ++ b)) ->
  forall s, R (replace_all p r s) s.
Proof.
  intros Hrefl Hstep s. unfold replace_all. generalize (length s) as n.
  intros n. revert s. induction n as [|n IH]; intros s; [apply Hrefl|].
  cbn [replace_all_from].
  destruct (split_first p s) as [[a b]|] eqn:E; [|apply Hrefl].
  apply split_first_some in E. subst s. apply Hstep, IH.
Qed.

(** When a replacement cannot complete a new occurrence, none is left
    once all are replaced. *)
Lemma replace_all_clears (p r : text) :
  p <> [] ->
  (forall s a b rb,
      split_first p s = Some (a, b) -> includes rb p = false ->
      includes (a ++ r ++ rb) p = false) ->
  forall s, includes (replace_all p r s) p = false.
Proof.
  intros Hp Hstep s. unfold replace_all.
  assert (H : forall n s, (length s <= n)%nat ->
                          includes (replace_all_from n p r s) p = false).
  { induction n as [|n IH]; intros s0 Hlen.
    - cbn [replace_all_from]. apply includes_short.
      destruct p; [congruence|]. cbn [length]. lia.
    - cbn [replace_all_from].
      destruct (split_first p s0) as [[a b]|] eqn:E.
      + apply (Hstep s0 a b _ E). apply IH.
        apply split_first_some in E. rewrite E in Hlen.
        rewrite !length_app in Hlen. destruct p; [congruence|].
        cbn [length] in Hlen. lia.
      + now apply split_first_none. }
  now apply H.
Qed.

Lemma replace_all_keeps_prefix (p r q s : text) :
  includes s q = true ->
  (forall x, includes (r ++ x) q = true) ->
  includes (replace_all p r s) q = true.
Proof.
  intros Hs Hr. unfold replace_all.
  destruct (length s) as [|n]; cbn [replace_all_from]; [exact Hs|].
  destruct (split_first p s) as [[a b]|]; [|exact Hs].
  apply includes_later, Hr.
Qed.

(** *** The two flags *)

Lemma debuggable_cleared (s : text) :
  includes (replace_all debuggableFalse debuggableTrue s) debuggableFalse = false.
Proof.
  apply replace_all_clears; [discriminate|].
  intros s0 a b rb Hs Hrb.
  replace (a ++ debuggableTrue ++ rb)
    with ((a ++ debuggableAttr ++ [dq]) ++ letterT :: (trueTail ++ rb))
    by (rewrite <- !app_assoc; reflexivity).
  rewrite (includes_sep letterT debuggableFalse) by reflexivity.
  rewrite (split_first_prefix_free debuggableFalse s0 a b
             (debuggableAttr ++ [dq]) falseTail Hs eq_refl)
    by discriminate.
  simpl. exact Hrb.
Qed.

Lemma allowBackup_cleared (s : text) :
  includes (replace_all allowBackupFalse allowBackupTrue s) allowBackupFalse = false.
Proof.
  apply replace_all_clears; [discriminate|].
  intros s0 a b rb Hs Hrb.
  replace (a ++ allowBackupTrue ++ rb)
    with ((a ++ allowBackupAttr ++ [dq]) ++ letterT :: (trueTail ++ rb))
    by (rewrite <- !app_assoc; reflexivity).
  rewrite (includes_sep letterT allowBackupFalse) by reflexivity.
  rewrite (split_first_prefix_free allowBackupFalse s0 a b
             (allowBackupAttr ++ [dq]) falseTail Hs eq_refl)
    by discriminate.
  simpl. exact Hrb.
Qed.

Lemma includes_prefix (s p q : text) :
  includes s (p ++ q) = true -> includes s p = true.
Proof.
  rewrite !includes_iff. intros (a & b & ->). exists a, (q ++ b).
  now rewrite <- app_assoc.
Qed.

Lemma includes_false_prefix (s p q : text) :
  includes s p = false -> includes s (p ++ q) = false.
Proof.
  intros H. destruct (includes s (p ++ q)) eqn:E; [|reflexivity].
  apply includes_prefix in E. congruence.
Qed.

Lemma includes_false_app_l (x y p : text) :
  includes (x ++ y) p = false -> includes x p = false.
Proof.
  intros H. destruct (includes x p) eqn:E; [|reflexivity].
  now rewrite (includes_app_l _ y _ E) in H.
Qed.

Lemma tag_app_l (x y : text) :
  hasApplicationTag x = true -> hasApplicationTag (x ++ y) = true.
Proof.
  induction x as [|c x IH]; [discriminate|].
  cbn [app hasApplicationTag]. intros H.
  apply orb_true_iff in H. destruct H as [H|H].
  - apply andb_true_iff in H. destruct H as [H1 H2].
    change (c :: x ++ y) with ((c :: x) ++ y).
    rewrite (starts_with_longer _ _ y H1), existsb_app, H2. reflexivity.
  - rewrite (IH H). apply orb_true_r.
Qed.

Lemma tag_false_app_l (x y : text) :
  hasApplicationTag (x ++ y) = false -> hasApplicationTag x = false.
Proof.
  intros H. destruct (hasApplicationTag x) eqn:E; [|reflexivity].
  now rewrite (tag_app_l _ y E) in H.
Qed.

Lemma no_open_no_tag (s : text) :
  includes s applicationOpen = false -> hasApplicationTag s = false.
Proof.
  intros H. destruct (hasApplicationTag s) eqn:E; [|reflexivity].
  apply tag_implies_open in E. congruence.
Qed.

(** *** Putting an attribute into the application tag *)

Lemma attribute_includes (attr q s before group after : text) :
  matchApplicationTag s = Some (before, group, after) ->
  existsb (Ascii.eqb space) q = false ->
  existsb (Ascii.eqb gt) q = false ->
  includes (before ++ applicationOpen ++ group ++ lit " " ++ attr ++ gt :: after) q
  = includes s q || includes attr q.
Proof.
  intros H Hs Hg. rewrite (match_shape _ _ _ _ H).
  replace (before ++ applicationOpen ++ group ++ lit " " ++ attr ++ gt :: after)
    with ((before ++ applicationOpen ++ group) ++ space :: (attr ++ gt :: after))
    by (rewrite <- !app_assoc; reflexivity).
  rewrite (includes_sep space q) by exact Hs.
  rewrite !(includes_sep gt q) by exact Hg.
  destruct (includes (before ++ applicationOpen ++ group) q),
    (includes attr q), (includes after q); reflexivity.
Qed.

Section Flag.

Variables attr falsified truthy : text.
Hypothesis attr_no_space : existsb (Ascii.eqb space) attr = false.
Hypothesis attr_no_gt : existsb (Ascii.eqb gt) attr = false.
Hypothesis falsified_no_space : existsb (Ascii.eqb space) falsified = false.
Hypothesis falsified_no_gt : existsb (Ascii.eqb gt) falsified = false.
Hypothesis falsified_extends : exists t, falsified = attr ++ t.
Hypothesis truthy_has_attr : includes truthy attr = true.
Hypothesis truthy_not_falsified : includes truthy falsified = false.
Hypothesis cleared :
  forall s, includes (replace_all falsified truthy s) falsified = false.

Lemma enableFlag_settles (m : text) :
  flagSettled attr falsified (enableFlag attr falsified truthy m).
Proof.
  unfold enableFlag. destruct (includes m attr) eqn:E; cbn [negb].
  - left. split; [|apply cleared].
    apply replace_all_keeps_prefix; [exact E|].
    intros x. apply includes_app_l, truthy_has_attr.
  - unfold addApplicationAttribute.
    destruct (matchApplicationTag m) as [[[before group] after]|] eqn:M.
    + left.
      rewrite (attribute_includes truthy attr m before group after M
                 attr_no_space attr_no_gt).
      rewrite (attribute_includes truthy falsified m before group after M
                 falsified_no_space falsified_no_gt).
      rewrite truthy_has_attr, truthy_not_falsified, orb_true_r, orb_false_r.
      split; [reflexivity|].
      destruct falsified_extends as [t ->]. now apply includes_false_prefix.
    + right. split; [exact E | now apply match_iff_tag].
Qed.

Lemma enableFlag_fixed (m : text) :
  flagSettled attr falsified m -> enableFlag attr falsified truthy m = m.
Proof.
  intros [[H1 H2]|[H1 H2]]; unfold enableFlag; rewrite H1; cbn [negb].
  - now apply replace_all_absent.
  - unfold addApplicationAttribute. apply match_iff_tag in H2. now rewrite H2.
Qed.

(** Another attribute put into the tag leaves the flag settled. *)
Lemma attribute_keeps_flag (other m : text) :
  includes other falsified = false ->
  flagSettled attr falsified m ->
  flagSettled attr falsified (addApplicationAttribute other m).
Proof.
  intros Hother. unfold addApplicationAttribute.
  destruct (matchApplicationTag m) as [[[before group] after]|] eqn:M;
    [|trivial].
  intros [[H1 H2]|[H1 H2]].
  - left.
    rewrite (attribute_includes other attr m before group after M
               attr_no_space attr_no_gt).
    rewrite (attribute_includes other falsified m before group after M
               falsified_no_space falsified_no_gt).
    rewrite H1, H2, Hother. split; reflexivity.
  - apply match_iff_tag in H2. congruence.
Qed.

End Flag.

Lemma settled_not_falsified (attr falsified m : text) :
  (exists t, falsified = attr ++ t) ->
  flagSettled attr falsified m -> includes m falsified = false.
Proof.
  intros [t ->] [[_ H]|[H _]]; [exact H|].
  apply includes_false_prefix, H.
Qed.

(** *** Replacing the backup flag leaves the debuggable flag alone *)

Lemma backup_shape (a w b : text) :
  a ++ (allowPrefix ++ letterB :: w) ++ b
  = (a ++ allowPrefix) ++ letterB :: (w ++ b).
Proof. rewrite <- !app_assoc. reflexivity. Qed.

Lemma allowBackup_replacement_neutral (s : text) :
  includes (replace_all allowBackupFalse allowBackupTrue s) debuggableAttr
  = includes s debuggableAttr
  /\ includes (replace_all allowBackupFalse allowBackupTrue s) debuggableFalse
     = includes s debuggableFalse
  /\ hasApplicationTag (replace_all allowBackupFalse allowBackupTrue s)
     = hasApplicationTag s.
Proof.
  pose (R := fun s' s0 : text =>
    includes s' debuggableAttr = includes s0 debuggableAttr
    /\ includes s' debuggableFalse = includes s0 debuggableFalse
    /\ hasApplicationTag s' = hasApplicationTag s0
    /\ existsb (Ascii.eqb gt) s' = existsb (Ascii.eqb gt) s0).
  assert (H : R (replace_all allowBackupFalse allowBackupTrue s) s).
  { apply replace_all_related; [now repeat split|].
    intros a b b' (H1 & H2 & H3 & H4).
    change allowBackupTrue with (allowPrefix ++ letterB :: backupTrue).
    change allowBackupFalse with (allowPrefix ++ letterB :: backupFalse).
    rewrite !backup_shape. unfold R.
    rewrite !(includes_sep letterB debuggableAttr) by reflexivity.
    rewrite !(includes_sep letterB debuggableFalse) by reflexivity.
    rewrite !(tag_sep letterB) by reflexivity.
    rewrite !existsb_app.
    assert (Ea : includes (backupTrue ++ b') debuggableAttr
                 = includes (backupFalse ++ b) debuggableAttr)
      by (simpl; exact H1).
    assert (Ef : includes (backupTrue ++ b') debuggableFalse
                 = includes (backupFalse ++ b) debuggableFalse)
      by (simpl; exact H2).
    assert (Et : hasApplicationTag (backupTrue ++ b')
                 = hasApplicationTag (backupFalse ++ b))
      by (simpl; exact H3).
    assert (Eg : existsb (Ascii.eqb gt) (letterB :: backupTrue ++ b')
                 = existsb (Ascii.eqb gt) (letterB :: backupFalse ++ b))
      by (simpl; exact H4).
    rewrite Ea, Ef, Et, Eg, H4. repeat split; reflexivity. }
  destruct H as (H1 & H2 & H3 & _). now repeat split.
Qed.

(** *** Putting a permission in front of the closing tag *)

Lemma permission_shape (p a b : text) :
  a ++ (usesPermission p ++ closeManifest) ++ b
  = a ++ space :: (permissionTail p ++ lessThan :: (closeTail ++ b)).
Proof. rewrite <- !app_assoc. reflexivity. Qed.

Lemma close_shape (a b : text) :
  a ++ closeManifest ++ b = a ++ lessThan :: (closeTail ++ b).
Proof. reflexivity. Qed.

Lemma permission_includes (p q a b : text) :
  existsb (Ascii.eqb space) q = false ->
  existsb (Ascii.eqb lessThan) q = false ->
  includes (a ++ (usesPermission p ++ closeManifest) ++ b) q
  = includes (a ++ closeManifest ++ b) q || includes (permissionTail p) q.
Proof.
  intros Hs Hl. rewrite permission_shape, close_shape.
  rewrite (includes_sep space q) by exact Hs.
  rewrite !(includes_sep lessThan q) by exact Hl.
  destruct (includes a q), (includes (permissionTail p) q),
    (includes (closeTail ++ b) q); reflexivity.
Qed.

Lemma permission_keeps_tag_free (p a b : text) :
  includes (permissionTail p ++ [lessThan]) applicationOpen = false ->
  hasApplicationTag (a ++ closeManifest ++ b) = false ->
  hasApplicationTag (a ++ (usesPermission p ++ closeManifest) ++ b) = false.
Proof.
  intros Hp H.
  replace (a ++ closeManifest ++ b)
    with ((a ++ [lessThan]) ++ Path.slash :: (closeName ++ b)) in H
    by (rewrite <- app_assoc; reflexivity).
  rewrite (tag_sep Path.slash) in H by reflexivity.
  apply orb_false_iff in H. destruct H as [H Hb].
  apply orb_false_iff in H. destruct H as [Ha Hopen].
  assert (Hgt : existsb (Ascii.eqb gt) (closeName ++ b) = true)
    by (rewrite existsb_app; reflexivity).
  rewrite Hgt, orb_true_r, andb_true_r in Hopen.
  rewrite permission_shape.
  rewrite (tag_sep space) by reflexivity.
  rewrite (tag_false_app_l _ _ Ha), (includes_false_app_l _ _ _ Hopen).
  cbn [orb andb].
  replace (permissionTail p ++ lessThan :: closeTail ++ b)
    with ((permissionTail p ++ [lessThan]) ++ Path.slash :: (closeName ++ b))
    by (rewrite <- app_assoc; reflexivity).
  rewrite (tag_sep Path.slash) by reflexivity.
  rewrite (no_open_no_tag _ Hp), Hp, Hb. reflexivity.
Qed.

Lemma plainPermission_spec (p : text) :
  plainPermission p = true ->
  existsb (Ascii.eqb space) p = false
  /\ existsb (Ascii.eqb lessThan) p = false
  /\ includes (permissionTail p) debuggableAttr = false
  /\ includes (permissionTail p) allowBackupAttr = false
  /\ includes (permissionTail p ++ [lessThan]) applicationOpen = false.
Proof.
  unfold plainPermission. rewrite !andb_true_iff, !negb_true_iff. tauto.
Qed.

Lemma testPermissions_plain :
  forallb plainPermission testPermissions = true.
Proof. vm_compute. reflexivity. Qed.

Lemma testPermission_plain (p : text) :
  In p testPermissions -> plainPermission p = true.
Proof.
  intros H. pose proof testPermissions_plain as Hall.
  rewrite forallb_forall in Hall. now apply Hall.
Qed.

Lemma addPermission_cases (m p : text) :
  addPermission m p = m
  \/ exists a b, m = a ++ closeManifest ++ b
                 /\ includes m p = false
                 /\ addPermission m p
                    = a ++ (usesPermission p ++ closeManifest) ++ b.
Proof.
  unfold addPermission. destruct (includes m p) eqn:E; cbn [negb]; [now left|].
  unfold replace_first.
  destruct (split_first closeManifest m) as [[a b]|] eqn:S; [|now left].
  right. exists a, b. apply split_first_some in S. now repeat split.
Qed.

Section FlagAndPermission.

Variables attr falsified : text.
Hypothesis attr_no_space : existsb (Ascii.eqb space) attr = false.
Hypothesis attr_no_lessThan : existsb (Ascii.eqb lessThan) attr = false.
Hypothesis falsified_no_space : existsb (Ascii.eqb space) falsified = false.
Hypothesis falsified_no_lessThan : existsb (Ascii.eqb lessThan) falsified = false.
Hypothesis falsified_extends : exists t, falsified = attr ++ t.

Lemma permission_keeps_flag (p m : text) :
  includes (permissionTail p) attr = false ->
  includes (permissionTail p ++ [lessThan]) applicationOpen = false ->
  flagSettled attr falsified m ->
  flagSettled attr falsified (addPermission m p).
Proof.
  intros Hattr Hopen Hm.
  destruct (addPermission_cases m p) as [->|(a & b & -> & _ & ->)];
    [exact Hm|].
  assert (Hfalse : includes (permissionTail p) falsified = false).
  { destruct falsified_extends as [t ->]. now apply includes_false_prefix. }
  destruct Hm as [[H1 H2]|[H1 H2]].
  - left.
    rewrite (permission_includes p attr a b attr_no_space attr_no_lessThan).
    rewrite (permission_includes p falsified a b
               falsified_no_space falsified_no_lessThan).
    rewrite H1, H2, Hfalse. split; reflexivity.
  - right.
    rewrite (permission_includes p attr a b attr_no_space attr_no_lessThan).
    rewrite H1, Hattr. split; [reflexivity|].
    now apply permission_keeps_tag_free.
Qed.

End FlagAndPermission.

Lemma permission_keeps_config (p m : text) :
  includes (permissionTail p ++ [lessThan]) applicationOpen = false ->
  configSettled m -> configSettled (addPermission m p).
Proof.
  intros Hopen Hm.
  destruct (addPermission_cases m p) as [->|(a & b & -> & _ & ->)];
    [exact Hm|].
  destruct Hm as [H|H].
  - left. rewrite permission_includes by reflexivity. now rewrite H.
  - right. now apply permission_keeps_tag_free.
Qed.

Lemma permission_settles (p m : text) :
  permissionSettled (addPermission m p) p.
Proof.
  unfold addPermission. destruct (includes m p) eqn:E; cbn [negb];
    [now left|].
  unfold replace_first.
  destruct (split_first closeManifest m) as [[a b]|] eqn:S.
  - left. apply includes_later.
    unfold usesPermission, quoted. rewrite <- !app_assoc.
    apply includes_later. cbn [app]. apply (includes_later [dq]).
    rewrite <- app_assoc. apply includes_here.
  - right. now apply split_first_none.
Qed.

Lemma permission_keeps_permission (p q m : text) :
  existsb (Ascii.eqb space) q = false ->
  existsb (Ascii.eqb lessThan) q = false ->
  permissionSettled m q -> permissionSettled (addPermission m p) q.
Proof.
  intros Hs Hl Hm.
  destruct (addPermission_cases m p) as [->|(a & b & E & _ & ->)];
    [exact Hm|].
  left. rewrite (permission_includes p q a b Hs Hl).
  destruct Hm as [H|H].
  - rewrite <- E, H. reflexivity.
  - rewrite E in H. rewrite includes_later in H; [discriminate|].
    apply includes_here.
Qed.

Lemma permission_fixed (p m : text) :
  permissionSettled m p -> addPermission m p = m.
Proof.
  unfold addPermission, replace_first. intros [H|H].
  - now rewrite H.
  - apply split_first_none in H. rewrite H. now destruct (includes m p).
Qed.

(** *** The loop over the test permissions *)

Lemma permissions_keep (P : text -> Prop) (ps : list text) :
  (forall p m, In p ps -> P m -> P (addPermission m p)) ->
  forall m, P m -> P (fold_left addPermission ps m).
Proof.
  induction ps as [|p ps IH]; intros Hstep m Hm; [exact Hm|].
  cbn [fold_left]. apply IH.
  - intros q m' Hq. apply Hstep. now right.
  - apply Hstep; [now left | exact Hm].
Qed.

Lemma permissions_settle (ps : list text) :
  forallb plainPermission ps = true ->
  forall m p, In p ps -> permissionSettled (fold_left addPermission ps m) p.
Proof.
  induction ps as [|q ps IH]; intros Hplain m p Hp; [destruct Hp|].
  cbn [forallb] in Hplain. apply andb_true_iff in Hplain.
  destruct Hplain as [Hq Hps]. cbn [fold_left].
  destruct Hp as [<-|Hp]; [|now apply IH].
  apply plainPermission_spec in Hq. destruct Hq as (Hs & Hl & _).
  apply permissions_keep.
  - intros p m' _. now apply permission_keeps_permission.
  - apply permission_settles.
Qed.

Lemma permissions_fixed (ps : list text) (m : text) :
  (forall p, In p ps -> permissionSettled m p) ->
  fold_left addPermission ps m = m.
Proof.
  induction ps as [|p ps IH]; intros H; [reflexivity|].
  cbn [fold_left]. rewrite (permission_fixed p m) by (apply H; now left).
  apply IH. intros q Hq. apply H. now right.
Qed.

(** *** The steps of [enhanceManifestForDevMode] *)

Ltac flag_facts :=
  first [ reflexivity
        | now exists (quoted (lit "false"))
        | apply debuggable_cleared
        | apply allowBackup_cleared
        | assumption ].

Lemma enableDebuggable_settles (m : text) :
  flagSettled debuggableAttr debuggableFalse (enableDebuggable m).
Proof.
  apply (enableFlag_settles debuggableAttr debuggableFalse debuggableTrue);
    flag_facts.
Qed.

Lemma enableAllowBackup_settles (m : text) :
  flagSettled allowBackupAttr allowBackupFalse (enableAllowBackup m).
Proof.
  apply (enableFlag_settles allowBackupAttr allowBackupFalse allowBackupTrue);
    flag_facts.
Qed.

Lemma enableDebuggable_fixed (m : text) :
  flagSettled debuggableAttr debuggableFalse m -> enableDebuggable m = m.
Proof.
  apply (enableFlag_fixed debuggableAttr debuggableFalse debuggableTrue).
Qed.

Lemma enableAllowBackup_fixed (m : text) :
  flagSettled allowBackupAttr allowBackupFalse m -> enableAllowBackup m = m.
Proof.
  apply (enableFlag_fixed allowBackupAttr allowBackupFalse allowBackupTrue).
Qed.

Lemma enableAllowBackup_keeps_debuggable (m : text) :
  flagSettled debuggableAttr debuggableFalse m ->
  flagSettled debuggableAttr debuggableFalse (enableAllowBackup m).
Proof.
  intros H. unfold enableAllowBackup.
  destruct (includes m allowBackupAttr); cbn [negb].
  - destruct (allowBackup_replacement_neutral m) as (E1 & E2 & E3).
    unfold flagSettled. rewrite E1, E2, E3. exact H.
  - apply attribute_keeps_flag; flag_facts.
Qed.

Lemma enableNetworkSecurityConfig_keeps_debuggable (m : text) :
  flagSettled debuggableAttr debuggableFalse m ->
  flagSettled debuggableAttr debuggableFalse (enableNetworkSecurityConfig m).
Proof.
  intros H. unfold enableNetworkSecurityConfig.
  destruct (includes m networkSecurityConfigAttr); cbn [negb]; [exact H|].
  apply attribute_keeps_flag; flag_facts.
Qed.

Lemma enableNetworkSecurityConfig_keeps_allowBackup (m : text) :
  flagSettled allowBackupAttr allowBackupFalse m ->
  flagSettled allowBackupAttr allowBackupFalse (enableNetworkSecurityConfig m).
Proof.
  intros H. unfold enableNetworkSecurityConfig.
  destruct (includes m networkSecurityConfigAttr); cbn [negb]; [exact H|].
  apply attribute_keeps_flag; flag_facts.
Qed.

Lemma enableNetworkSecurityConfig_settles (m : text) :
  configSettled (enableNetworkSecurityConfig m).
Proof.
  unfold enableNetworkSecurityConfig.
  destruct (includes m networkSecurityConfigAttr) eqn:E; cbn [negb];
    [now left|].
  unfold addApplicationAttribute.
  destruct (matchApplicationTag m) as [[[before group] after]|] eqn:M.
  - left.
    rewrite (attribute_includes _ networkSecurityConfigAttr m _ _ _ M)
      by reflexivity.
    apply orb_true_iff. right. reflexivity.
  - right. now apply match_iff_tag.
Qed.

Lemma enableNetworkSecurityConfig_fixed (m : text) :
  configSettled m -> enableNetworkSecurityConfig m = m.
Proof.
  unfold enableNetworkSecurityConfig. intros [H|H].
  - now rewrite H.
  - destruct (includes m networkSecurityConfigAttr); cbn [negb];
      [reflexivity|].
    unfold addApplicationAttribute. apply match_iff_tag in H. now rewrite H.
Qed.

Lemma testPermission_keeps_debuggable (p m : text) :
  In p testPermissions ->
  flagSettled debuggableAttr debuggableFalse m ->
  flagSettled debuggableAttr debuggableFalse (addPermission m p).
Proof.
  intros Hp. apply testPermission_plain, plainPermission_spec in Hp.
  destruct Hp as (_ & _ & Hd & _ & Ho).
  apply permission_keeps_flag; flag_facts.
Qed.

Lemma testPermission_keeps_allowBackup (p m : text) :
  In p testPermissions ->
  flagSettled allowBackupAttr allowBackupFalse m ->
  flagSettled allowBackupAttr allowBackupFalse (addPermission m p).
Proof.
  intros Hp. apply testPermission_plain, plainPermission_spec in Hp.
  destruct Hp as (_ & _ & _ & Hb & Ho).
  apply permission_keeps_flag; flag_facts.
Qed.

Lemma testPermission_keeps_config (p m : text) :
  In p testPermissions ->
  configSettled m -> configSettled (addPermission m p).
Proof.
  intros Hp. apply testPermission_plain, plainPermission_spec in Hp.
  destruct Hp as (_ & _ & _ & _ & Ho).
  now apply permission_keeps_config.
Qed.

(** Everything is settled in the manifest [enhanceManifestForDevMode]
    returns. *)
Lemma enhanced_is_settled (m : text) :
  flagSettled debuggableAttr debuggableFalse (enhanceManifestForDevMode m)
  /\ flagSettled allowBackupAttr allowBackupFalse (enhanceManifestForDevMode m)
  /\ configSettled (enhanceManifestForDevMode m)
  /\ forall p, In p testPermissions ->
               permissionSettled (enhanceManifestForDevMode m) p.
Proof.
  unfold enhanceManifestForDevMode. cbv zeta. repeat split.
  - apply permissions_keep; [apply testPermission_keeps_debuggable|].
    apply enableNetworkSecurityConfig_keeps_debuggable,
      enableAllowBackup_keeps_debuggable, enableDebuggable_settles.
  - apply permissions_keep; [apply testPermission_keeps_allowBackup|].
    apply enableNetworkSecurityConfig_keeps_allowBackup,
      enableAllowBackup_settles.
  - apply permissions_keep; [apply testPermission_keeps_config|].
    apply enableNetworkSecurityConfig_settles.
  - intros p Hp. now apply permissions_settle; [apply testPermissions_plain|].
Qed.

Lemma settled_is_fixed (m : text) :
  flagSettled debuggableAttr debuggableFalse m ->
  flagSettled allowBackupAttr allowBackupFalse m ->
  configSettled m ->
  (forall p, In p testPermissions -> permissionSettled m p) ->
  enhanceManifestForDevMode m = m.
Proof.
  intros H1 H2 H3 H4. unfold enhanceManifestForDevMode. cbv zeta.
  rewrite (enableDebuggable_fixed m H1), (enableAllowBackup_fixed m H2),
    (enableNetworkSecurityConfig_fixed m H3).
  now apply permissions_fixed.
Qed.

End Occurrences.

(** C10.  Enhancing a manifest a second time changes nothing, for every
    text: each of the three attribute steps and each permission leaves
    the manifest in a state on which it does nothing, and no later step
    disturbs that state. *)
Theorem enhanceManifestForDevMode_is_idempotent (m : text) :
  Manifest.enhanceManifestForDevMode (Manifest.enhanceManifestForDevMode m)
  = Manifest.enhanceManifestForDevMode m.
Proof.
  destruct (Occurrences.enhanced_is_settled m) as (H1 & H2 & H3 & H4).
  now apply Occurrences.settled_is_fixed.
Qed.

(** The enhanced manifest never sets [android:debuggable] or
    [android:allowBackup] to false, whatever the manifest was. *)
Theorem enhanced_manifest_has_no_false_flag (m : text) :
  includes (Manifest.enhanceManifestForDevMode m) Manifest.debuggableFalse = false
  /\ includes (Manifest.enhanceManifestForDevMode m) Manifest.allowBackupFalse = false.
Proof.
  destruct (Occurrences.enhanced_is_settled m) as (H1 & H2 & _).
  split.
  - apply (Occurrences.settled_not_falsified Manifest.debuggableAttr);
      [now exists (Manifest.quoted (lit "false")) | exact H1].
  - apply (Occurrences.settled_not_falsified Manifest.allowBackupAttr);
      [now exists (Manifest.quoted (lit "false")) | exact H2].
Qed.

(** An enhanced manifest that has a closing [</manifest>] names every
    test permission. *)
Theorem enhanced_manifest_names_test_permissions (m p : text) :
  includes (Manifest.enhanceManifestForDevMode m) Manifest.closeManifest = true ->
  In p Manifest.testPermissions ->
  includes (Manifest.enhanceManifestForDevMode m) p = true.
Proof.
  intros Hclose Hp.
  destruct (Occurrences.enhanced_is_settled m) as (_ & _ & _ & H).
  destruct (H p Hp) as [Hin|Hno]; [exact Hin | congruence].
Qed.

Lemma enhanced_manifest_names_test_permissions_witness :
  includes (Manifest.enhanceManifestForDevMode plainManifest)
    Manifest.closeManifest = true
  /\ In (lit "com.android.vending.BILLING") Manifest.testPermissions
  /\ includes (Manifest.enhanceManifestForDevMode plainManifest)
       (lit "com.android.vending.BILLING") = true.
Proof.
  assert (H1 : includes (Manifest.enhanceManifestForDevMode plainManifest)
                 Manifest.closeManifest = true) by (vm_compute; reflexivity).
  assert (H2 : In (lit "com.android.vending.BILLING") Manifest.testPermissions)
    by (do 5 right; left; reflexivity).
  split; [exact H1|]. split; [exact H2|].
  exact (enhanced_manifest_names_test_permissions plainManifest _ H1 H2).
Defined.

(** ** The report of a job *)

Lemma filter_positive {A : Type} (f : A -> bool) (l : list A) :
  (0 < length (filter f l))%nat <-> exists x, In x l /\ f x = true.
Proof.
  split.
  - intros H. destruct (filter f l) as [|x l'] eqn:E; [cbn in H; lia|].
    exists x. apply filter_In. rewrite E. now left.
  - intros (x & Hin & Hf).
    assert (H : In x (filter f l)) by (apply filter_In; now split).
    destruct (filter f l); [contradiction | cbn [length]; lia].
Qed.

Lemma filter_all {A : Type} (f : A -> bool) (l : list A) :
  length (filter f l) = length l <-> forall x, In x l -> f x = true.
Proof.
  induction l as [|a l IH]; cbn [filter length In]; [tauto|].
  pose proof (filter_length_le f l) as Hle.
  destruct (f a) eqn:E; cbn [length].
  - split.
    + intros H x [<-|Hx]; [exact E|]. apply IH; [lia | exact Hx].
    + intros H. f_equal. apply IH. intros x Hx. apply H. now right.
  - split.
    + intros H. lia.
    + intros H. specialize (H a (or_introl eq_refl)). congruence.
Qed.

Lemma hasSevere_concat (ls : list (list Vulnerability)) :
  hasSevere (concat ls) <-> exists l, In l ls /\ hasSevere l.
Proof.
  unfold hasSevere. split.
  - intros (v & Hin & Hv). apply in_concat in Hin.
    destruct Hin as (l & Hl & Hvl). exists l. split; [exact Hl|]. now exists v.
  - intros (l & Hl & v & Hvl & Hv). exists v. split; [|exact Hv].
    apply in_concat. now exists l.
Qed.

Lemma every_category (c : Category) : In c Report.categories.
Proof.
  destruct c; unfold Report.categories;
    repeat first [ left; reflexivity | right ].
Qed.

Lemma flattened_severe (res : AnalysisResult) :
  hasSevere (flattened res) <-> exists c, hasSevere (vulnerabilities (res c)).
Proof.
  unfold flattened. rewrite hasSevere_concat. split.
  - intros (l & Hl & Hs). apply in_map_iff in Hl.
    destruct Hl as (a & <- & _). now exists (fst a).
  - intros (c & Hs). destruct (analyses_cover c) as [d Hd].
    exists (vulnerabilities (res c)). split; [|exact Hs].
    apply in_map_iff. exists (c, d). now split.
Qed.

Lemma flattened_clean (res : AnalysisResult) :
  flattened res = [] <-> forall c, vulnerabilities (res c) = [].
Proof.
  unfold flattened. rewrite concat_nil_Forall, Forall_map, Forall_forall. split.
  - intros H c. destruct (analyses_cover c) as [d Hd]. apply (H (c, d) Hd).
  - intros H a _. apply H.
Qed.

(** What was pushed is in the list of some category. *)
Lemma pushed_severe (spreadLimit : nat) (res : AnalysisResult) :
  hasSevere (pushed spreadLimit res) ->
  exists c, hasSevere (vulnerabilities (res c)).
Proof.
  unfold pushed. rewrite hasSevere_concat.
  intros (l & Hl & Hs). apply in_map_iff in Hl.
  destruct Hl as (a & <- & _). exists (fst a).
  destruct (_ <=? _)%nat; [exact Hs|]. destruct Hs as (v & [] & _).
Qed.

Lemma pushed_clean (spreadLimit : nat) (res : AnalysisResult) :
  (forall c, vulnerabilities (res c) = []) -> pushed spreadLimit res = [].
Proof.
  intros H. unfold pushed. apply concat_nil_Forall, Forall_map, Forall_forall.
  intros a _. rewrite H. now destruct (_ <=? _)%nat.
Qed.

Lemma sound_failed_iff_severe (r : SecurityCheck) :
  soundCheck r ->
  (Report.isFailed r = true <-> hasSevere (vulnerabilities r)).
Proof.
  intros [(Hc & _) Hf]. unfold Report.isFailed. rewrite <- Hc.
  destruct (status r); split; intros H;
    try discriminate; try reflexivity.
  exfalso. now apply Hf.
Qed.

Lemma sound_passed_iff_clean (r : SecurityCheck) :
  soundCheck r ->
  (Report.isPassed r = true <-> vulnerabilities r = []).
Proof.
  intros [(Hc & Hw & Hp & Hn) Hf]. unfold Report.isPassed. split.
  - intros H. assert (Hs : status r = Status.passed)
      by (destruct (status r); try discriminate; reflexivity).
    assert (Hno : ~ hasSevere (vulnerabilities r)).
    { intros Hsev. apply Hc in Hsev. congruence. }
    assert (Hz : ~ 0 < issueCount r).
    { intros Hpos. apply (Hw Hno) in Hpos. congruence. }
    rewrite Hn in Hz. destruct (vulnerabilities r); [reflexivity|].
    cbn [length] in Hz. lia.
  - intros E.
    assert (Hno : ~ hasSevere (vulnerabilities r)).
    { rewrite E. intros (v & [] & _). }
    assert (Hz : ~ 0 < issueCount r) by (rewrite Hn, E; cbn [length]; lia).
    now rewrite (Hp Hno Hz).
Qed.

Lemma critical_positive (vs : list Vulnerability) :
  0 < Score.criticalCount vs <->
  exists v, In v vs /\ severity v = critical.
Proof.
  unfold Score.criticalCount, Score.countSeverity.
  assert (H : forall n : nat, 0 < Z.of_nat n <-> (0 < n)%nat) by (intros; lia).
  rewrite H, filter_positive. split; intros (v & Hin & Hv); exists v;
    (split; [exact Hin|]); destruct (severity v); try discriminate; reflexivity.
Qed.

Lemma riskLevel_high (a : Analysis) (fields : Job.PackageFields) :
  Report.riskLevelOf (completedRecord a fields) = Report.HIGH <->
  0 < Score.criticalCount (a_vulnerabilities a).
Proof.
  unfold Report.riskLevelOf, completedRecord.
  cbn [Job.criticalIssues Job.warningIssues].
  destruct (0 <? Score.criticalCount _) eqn:E1;
    [apply Z.ltb_lt in E1 | apply Z.ltb_ge in E1].
  - split; auto.
  - destruct (0 <? _); split; intros H; try discriminate; lia.
Qed.

Lemma riskLevel_low (a : Analysis) (fields : Job.PackageFields) :
  Report.riskLevelOf (completedRecord a fields) = Report.LOW <->
  a_vulnerabilities a = [].
Proof.
  unfold Report.riskLevelOf, completedRecord.
  cbn [Job.criticalIssues Job.warningIssues].
  pose proof (CountFacts.counts_partition (a_vulnerabilities a)) as Hsum.
  assert (Hc : 0 <= Score.criticalCount (a_vulnerabilities a))
    by (unfold Score.criticalCount, Score.countSeverity; lia).
  assert (Hw : 0 <= Score.warningIssues (a_vulnerabilities a))
    by (unfold Score.warningIssues, Score.highCount, Score.mediumCount,
          Score.lowCount, Score.countSeverity; lia).
  destruct (0 <? Score.criticalCount _) eqn:E1;
    [apply Z.ltb_lt in E1 | apply Z.ltb_ge in E1];
    [|destruct (0 <? Score.warningIssues _) eqn:E2;
      [apply Z.ltb_lt in E2 | apply Z.ltb_ge in E2]];
    (split; [intros H; try discriminate
            |intros H; rewrite H in *; cbn in *; try lia; try reflexivity]).
  destruct (a_vulnerabilities a); [reflexivity|]. cbn [length] in Hsum. lia.
Qed.

Section ReportFacts.

Variable devModeSource : text -> text.

(** The record of a job either is the one of a failed run, or holds what
    the pipeline left: sound category results, and the vulnerabilities
    that were pushed. *)
Lemma performAnalysis_report
  (env : Env) (filePath : text) (now : N) (fs : Files) :
  fst (Job.performAnalysis devModeSource env filePath now fs) = Job.failedRecord
  \/ exists a fields,
       fst (Job.performAnalysis devModeSource env filePath now fs)
       = completedRecord a fields
       /\ a_vulnerabilities a = pushed (spreadLimit env) (a_analysisResults a)
       /\ forall c, soundCheck (a_analysisResults a c).
Proof.
  destruct (performAnalysis_cases devModeSource env filePath now fs)
    as [[_ Hjob]|(_ & a & fields & entries & Hjob & _ & Hres & Hvs)];
    [now left|right].
  exists a, fields. split; [exact Hjob|].
  destruct (completed_results env entries (newAnalyzer filePath now fs)
              eq_refl eq_refl) as (_ & Hsound & Hpushed).
  rewrite Hres, Hvs. now split.
Qed.

(** The risk level of the report of any job: HIGH exactly when a stored
    vulnerability is critical, LOW exactly when none is stored; for a
    completed job LOW goes with a score of 100, and the report of a
    failed job reads LOW without a score. *)
Theorem report_risk_level
  (env : Env) (filePath : text) (now : N) (fs : Files) :
  let job := fst (Job.performAnalysis devModeSource env filePath now fs) in
  let report := Report.executiveSummary (Report.detailedReport job) in
  (Report.overallRiskLevel report = Report.HIGH <->
   exists v, In v (Report.stored job) /\ severity v = critical) /\
  (Report.overallRiskLevel report = Report.LOW <->
   Report.totalVulnerabilities report = 0) /\
  (Job.analysisStatus job = Job.completed ->
   (Report.overallRiskLevel report = Report.LOW <->
    Report.securityScore report = Some 100)) /\
  (Job.analysisStatus job = Job.failed ->
   Report.overallRiskLevel report = Report.LOW /\
   Report.securityScore report = None).
Proof.
  intros job report. unfold report, job.
  destruct (performAnalysis_report env filePath now fs)
    as [->|(a & fields & -> & _ & _)].
  - cbn. repeat split; try discriminate; try reflexivity.
    intros (v & [] & _).
  - cbn [Report.detailedReport Report.executiveSummary Report.overallRiskLevel
         Report.totalVulnerabilities Report.securityScore].
    rewrite riskLevel_high, riskLevel_low, critical_positive.
    unfold completedRecord, Report.stored.
    cbn [Job.vulnerabilities Job.analysisStatus Job.securityScore].
    split; [reflexivity|]. split; [|split; [|discriminate]].
    + destruct (a_vulnerabilities a); [split; reflexivity|].
      cbn [length]. split; [discriminate | lia].
    + intros _. rewrite <- CountFacts.securityScore_full_iff_clean.
      split; [now intros -> | now intros [= ->]].
Qed.

(** The numbers of the report of any job agree: the total is the sum of
    the four severity counts and of critical and warning issues, and the
    critical findings are the critical count and the number of risk
    factors. *)
Theorem report_summary_adds_up
  (env : Env) (filePath : text) (now : N) (fs : Files) :
  let job := fst (Job.performAnalysis devModeSource env filePath now fs) in
  let report := Report.detailedReport job in
  Report.total (Report.summary report)
  = Report.critical (Report.summary report) + Report.high (Report.summary report)
    + Report.medium (Report.summary report) + Report.low (Report.summary report)
  /\ Report.criticalIssues (Report.securityAssessment report)
     + Report.warningIssues (Report.securityAssessment report)
     = Report.total (Report.summary report)
  /\ Report.criticalFindings (Report.executiveSummary report)
     = Report.critical (Report.summary report)
  /\ Z.of_nat (length (Report.riskFactors (Report.executiveSummary report)))
     = Report.criticalFindings (Report.executiveSummary report)
  /\ Report.totalVulnerabilities (Report.executiveSummary report)
     = Report.total (Report.summary report).
Proof.
  intros job report. unfold report, job.
  destruct (performAnalysis_report env filePath now fs)
    as [->|(a & fields & -> & _ & _)].
  - cbn. repeat split; reflexivity.
  - cbn [Report.detailedReport Report.executiveSummary Report.summary
         Report.securityAssessment Report.total Report.critical Report.high
         Report.medium Report.low Report.criticalIssues Report.warningIssues
         Report.criticalFindings Report.riskFactors Report.totalVulnerabilities].
    unfold completedRecord, Report.stored.
    cbn [Job.vulnerabilities Job.criticalIssues Job.warningIssues].
    pose proof (CountFacts.counts_partition (a_vulnerabilities a)) as Hsum.
    unfold Score.warningIssues in *. rewrite length_map.
    repeat split; try reflexivity; lia.
Qed.

(** The checks of the report of any job.  A stored vulnerability that is
    critical or high comes with a failed check, and so does a HIGH risk
    level; passed and failed checks are at most the 25 categories.  In a
    job that has category results, some check counts as failed exactly
    when the list of some category holds a critical or high
    vulnerability, and all 25 pass exactly when the lists of all
    categories are empty, in which case nothing is stored.  The stored
    list tells the same when no category list is longer than a spread
    takes; a longer list is in its category but not stored. *)
Theorem report_checks
  (env : Env) (filePath : text) (now : N) (fs : Files) :
  let job := fst (Job.performAnalysis devModeSource env filePath now fs) in
  let assessment := Report.securityAssessment (Report.detailedReport job) in
  (hasSevere (Report.stored job) -> 0 < Report.failedChecks assessment) /\
  (Report.riskLevel assessment = Report.HIGH ->
   0 < Report.failedChecks assessment) /\
  Report.passedChecks assessment + Report.failedChecks assessment <= 25 /\
  (forall res, Job.analysisResults job = Some res ->
     (0 < Report.failedChecks assessment <->
      exists c, hasSevere (vulnerabilities (res c))) /\
     (Report.passedChecks assessment = 25 <->
      forall c, vulnerabilities (res c) = []) /\
     (Report.passedChecks assessment = 25 -> Report.stored job = []) /\
     ((forall c, (length (vulnerabilities (res c)) <= spreadLimit env)%nat) ->
      (0 < Report.failedChecks assessment <-> hasSevere (Report.stored job)) /\
      (Report.passedChecks assessment = 25 <-> Report.stored job = []))).
Proof.
  intros job assessment. unfold assessment, job.
  destruct (performAnalysis_report env filePath now fs)
    as [->|(a & fields & -> & Hpushed & Hsound)].
  - cbn. repeat split; try discriminate; try lia.
    intros (v & [] & _).
  - cbn [Report.detailedReport Report.securityAssessment Report.failedChecks
         Report.passedChecks Report.riskLevel].
    unfold Report.stored, Report.checks.
    cbn [completedRecord Job.vulnerabilities Job.analysisResults
         Job.analysisStatus].
    set (res := a_analysisResults a) in *.
    assert (Hfailed :
      0 < Z.of_nat (length (filter Report.isFailed (map res Report.categories)))
      <-> exists c, hasSevere (vulnerabilities (res c))).
    { assert (H : forall n : nat, 0 < Z.of_nat n <-> (0 < n)%nat)
        by (intros; lia).
      rewrite H, filter_positive. split.
      - intros (r & Hin & Hr). apply in_map_iff in Hin.
        destruct Hin as (c & <- & _). exists c.
        now apply (sound_failed_iff_severe _ (Hsound c)).
      - intros (c & Hc). exists (res c). split.
        + apply in_map. apply every_category.
        + now apply (sound_failed_iff_severe _ (Hsound c)). }
    assert (Hpassed :
      Z.of_nat (length (filter Report.isPassed (map res Report.categories))) = 25
      <-> forall c, vulnerabilities (res c) = []).
    { assert (H25 : forall n : nat,
                 Z.of_nat n = 25 <-> n = length (map res Report.categories)).
      { intros n. rewrite length_map.
        change (length Report.categories) with 25%nat. lia. }
      rewrite H25, filter_all. split.
      * intros H c. apply (sound_passed_iff_clean _ (Hsound c)).
        apply H. apply in_map. apply every_category.
      * intros H r Hin. apply in_map_iff in Hin. destruct Hin as (c & <- & _).
        apply (sound_passed_iff_clean _ (Hsound c)). apply H. }
    assert (Hstored : hasSevere (a_vulnerabilities a) ->
              0 < Z.of_nat (length (filter Report.isFailed
                                      (map res Report.categories)))).
    { intros Hs. apply Hfailed. rewrite Hpushed in Hs.
      now apply pushed_severe in Hs. }
    split; [exact Hstored|]. split; [|split].
    + intros Hhigh. apply Hstored.
      apply riskLevel_high, critical_positive in Hhigh.
      destruct Hhigh as (v & Hin & Hv). exists v. split; [exact Hin | now left].
    + assert (Hlen : (length (filter Report.isPassed (map res Report.categories))
                      + length (filter Report.isFailed (map res Report.categories))
                      <= length (map res Report.categories))%nat).
      { generalize (map res Report.categories) as l.
        induction l as [|r l IH]; [cbn; lia|].
        cbn [filter length]. unfold Report.isPassed at 1, Report.isFailed at 1.
        destruct (status r); cbn [length]; lia. }
      rewrite length_map in Hlen. change (length Report.categories) with 25%nat in Hlen.
      lia.
    + intros res' Hres'. injection Hres' as <-.
      split; [exact Hfailed|]. split; [exact Hpassed|]. split.
      * intros H. rewrite Hpushed. apply pushed_clean. now apply Hpassed.
      * intros Hshort. rewrite Hpushed, (pushed_all _ _ Hshort).
        rewrite flattened_severe, flattened_clean. now split.
Qed.

End ReportFacts.

(** The sample run, were calls to take two arguments only, so that the
    push of the reconnaissance detector throws: its check counts as
    failed, while nothing is stored and the risk level reads LOW. *)
Example report_of_lost_findings :
  let job := fst (Job.performAnalysis (fun s => s) (sampleEnv false 2)
                    (lit "/srv/uploads/17-app.apk") 17 (fun _ => None)) in
  let report := Report.detailedReport job in
  Report.failedChecks (Report.securityAssessment report) = 1 /\
  Report.stored job = [] /\
  Report.riskLevel (Report.securityAssessment report) = Report.LOW.
Proof. vm_compute. repeat split. Qed.
